(** * RelPath Snippet Helper: the header-comment synchronizer

    A shallow embedding of [src/extension.ts] (both revisions of the
    extension that the file contains) together with the part of the
    editor API the code relies on, and the properties of the header
    synchronizer stated in the specification. *)

From Stdlib Require Import NArith Ascii String.
From stdpp Require Import base option list gmap fin_maps.

Set Default Proof Using "Type".
Local Open Scope N_scope.
Local Open Scope nat_scope.

(** ** JavaScript strings

    A JavaScript string is a sequence of UTF-16 code units.  The regular
    expressions of the extension are built without the [u] flag, so every
    operation below sees code units, never code points. *)

Abbreviation char := N (only parsing).
Abbreviation jsstring := (list N) (only parsing).

(** An ASCII literal as a JavaScript string. *)
Definition js (s : string) : jsstring :=
  (λ a, N_of_ascii a) <$> list_ascii_of_string s.

Module Chr.
Definition TAB : char := 9%N.
Definition LF : char := 10%N.
Definition CR : char := 13%N.
Definition SP : char := 32%N.
Definition BACKSLASH : char := 92%N.
Definition LS : char := 0x2028%N.
Definition PS : char := 0x2029%N.
End Chr.

(** ECMAScript [LineTerminator]: the code units that [.] refuses. *)
Definition isLineTerminator (c : char) : bool :=
  (c =? Chr.LF)%N || (c =? Chr.CR)%N || (c =? Chr.LS)%N || (c =? Chr.PS)%N.

(** ECMAScript [WhiteSpace] (TAB, VT, FF, ZWNBSP and category Zs). *)
Definition isWhiteSpace (c : char) : bool :=
  (c =? 9)%N || (c =? 11)%N || (c =? 12)%N || (c =? 32)%N || (c =? 160)%N
  || (c =? 0x1680)%N || ((0x2000 <=? c)%N && (c <=? 0x200A)%N)
  || (c =? 0x202F)%N || (c =? 0x205F)%N || (c =? 0x3000)%N || (c =? 0xFEFF)%N.

(** The class [\s], which is also what [String.prototype.trim] strips. *)
Definition isSpace (c : char) : bool := isWhiteSpace c || isLineTerminator c.

Fixpoint dropWhile {A} (p : A → bool) (l : list A) : list A :=
  match l with
  | [] => []
  | x :: l' => if p x then dropWhile p l' else l
  end.

Fixpoint takeWhile {A} (p : A → bool) (l : list A) : list A :=
  match l with
  | [] => []
  | x :: l' => if p x then x :: takeWhile p l' else []
  end.

Definition trimStart (s : jsstring) : jsstring := dropWhile isSpace s.
Definition trimEnd (s : jsstring) : jsstring := reverse (dropWhile isSpace (reverse s)).
(** [s.trim()] *)
Definition trim (s : jsstring) : jsstring := trimEnd (trimStart s).

(** [s.startsWith(p)] *)
Fixpoint startsWith (s p : jsstring) : bool :=
  match p, s with
  | [], _ => true
  | c :: p', d :: s' => (c =? d)%N && startsWith s' p'
  | _ :: _, [] => false
  end.

(** Truthiness of a string value: only the empty string is falsy. *)
Definition truthy (s : jsstring) : bool :=
  match s with [] => false | _ :: _ => true end.

(** ** Comment tokens *)

(** [type CommentTokens = {kind:'line'; start} | {kind:'block'; start; end}] *)
Inductive CommentTokens :=
| LineTokens (start : jsstring)
| BlockTokens (start end_ : jsstring).

(** The object literals [lineMap] and [blockMap], as the finite maps of
    their own properties. *)
Definition lineMapEntries : list (jsstring * jsstring) :=
    [ (js "javascript", js "// "); (js "javascriptreact", js "// ");
      (js "typescript", js "// "); (js "typescriptreact", js "// ");
      (js "jsonc", js "// "); (js "java", js "// "); (js "c", js "// ");
      (js "cpp", js "// "); (js "csharp", js "// ");
      (js "go", js "// "); (js "kotlin", js "// "); (js "swift", js "// ");
      (js "rust", js "// "); (js "dart", js "// ");
      (js "php", js "// "); (js "scala", js "// "); (js "fsharp", js "// ");
      (js "zig", js "// "); (js "verilog", js "// ");
      (js "systemverilog", js "// ");
      (js "python", js "# "); (js "ruby", js "# "); (js "perl", js "# ");
      (js "powershell", js "# "); (js "shellscript", js "# ");
      (js "tcl", js "# "); (js "makefile", js "# "); (js "r", js "# ");
      (js "julia", js "# "); (js "nim", js "# "); (js "crystal", js "# ");
      (js "yaml", js "# "); (js "toml", js "# "); (js "dotenv", js "# ");
      (js "dockerfile", js "# "); (js "properties", js "# ");
      (js "ini", js "; ");
      (js "haskell", js "-- "); (js "sql", js "-- "); (js "vhdl", js "-- ");
      (js "lua", js "-- ");
      (js "clojure", js "; "); (js "clojurescript", js "; ");
      (js "lisp", js "; "); (js "scheme", js "; ");
      (js "erlang", js "% "); (js "prolog", js "% "); (js "matlab", js "% ");
      (js "latex", js "% "); (js "bibtex", js "% ") ].

Definition lineMap : gmap (list N) (list N) := list_to_map lineMapEntries.

Definition blockMapEntries : list (jsstring * (jsstring * jsstring)) :=
    [ (js "html", (js "<!-- ", js " -->"));
      (js "xml", (js "<!-- ", js " -->"));
      (js "svg", (js "<!-- ", js " -->"));
      (js "css", (js "/* ", js " */"));
      (js "markdown", (js "<!-- ", js " -->"));
      (js "vue", (js "<!-- ", js " -->"));
      (js "svelte", (js "<!-- ", js " -->"));
      (js "ocaml", (js "(* ", js " *)"));
      (js "pascal", (js "{ ", js " }"));
      (js "handlebars", (js "{{!-- ", js " --}}"));
      (js "twig", (js "{# ", js " #}")) ].

Definition blockMap : gmap (list N) (list N * list N) :=
  list_to_map blockMapEntries.

(** The names of the properties of [Object.prototype] (ECMAScript, with
    its Annex B): what every object literal inherits.  Each of them is a
    function, but for [__proto__], which answers [Object.prototype]
    itself: all are truthy, none is a string, none has a method
    [replace]. *)
Definition objectPrototypeKeys : list jsstring :=
  [ js "constructor"; js "__defineGetter__"; js "__defineSetter__";
    js "hasOwnProperty"; js "__lookupGetter__"; js "__lookupSetter__";
    js "isPrototypeOf"; js "propertyIsEnumerable"; js "toString";
    js "valueOf"; js "__proto__"; js "toLocaleString" ].

(** [obj[key]] on an object literal with the own properties [m]: the own
    property, else what [Object.prototype] has under that name, else
    [undefined]. *)
Inductive Property (A : Type) :=
| Own (v : A)
| Inherited
| Undefined.
Arguments Own {A} v.
Arguments Inherited {A}.
Arguments Undefined {A}.

Definition getProperty {A} (m : gmap (list N) A) (key : jsstring) : Property A :=
  match m !! key with
  | Some v => Own v
  | None => if bool_decide (key ∈ objectPrototypeKeys) then Inherited else Undefined
  end.

(** What [getCommentTokens] returns at run time: a value of the declared
    type, or, for an identifier that names a property of
    [Object.prototype], [{kind:'line', start: v}] with the inherited
    value [v] for [start] (no string), or [{kind:'block', ...v}], which
    has neither [start] nor [end]. *)
Inductive TokensValue :=
| Typed (tokens : CommentTokens)
| LineOfInherited (key : jsstring)
| BlockOfInherited (key : jsstring).

(** [getCommentTokens]: [if (line)] and [if (block)] are truthiness tests
    on what the lookups give; an inherited value is truthy. *)
Definition getCommentTokens (languageId : jsstring) : TokensValue :=
  let block :=
    match getProperty blockMap languageId with
    | Own (s, e) => Typed (BlockTokens s e)
    | Inherited => BlockOfInherited languageId
    | Undefined => Typed (LineTokens (js "// "))
    end in
  match getProperty lineMap languageId with
  | Own line => if truthy line then Typed (LineTokens line) else block
  | Inherited => LineOfInherited languageId
  | Undefined => block
  end.

(** ** Header text *)

Inductive EndOfLine := LF | CRLF.

Definition eolText (eol : EndOfLine) : jsstring :=
  match eol with CRLF => [Chr.CR; Chr.LF] | LF => [Chr.LF] end.

Definition headerText (tokens : CommentTokens) (label rel : jsstring)
    (eol : EndOfLine) : jsstring :=
  let nl := eolText eol in
  let txt := label ++ js ": " ++ rel in
  match tokens with
  | LineTokens start => start ++ txt ++ nl
  | BlockTokens start end_ => start ++ txt ++ end_ ++ nl
  end.

(** ** Regular expressions

    The subset of ECMAScript patterns (no flags, Annex B syntax) that the
    extension builds: pattern characters, identity and control escapes,
    [.], [\s], [^], capturing groups and the greedy quantifiers [*], [+]
    and [?].  [RegExp_new] answers [None] on a pattern that is a syntax
    error or that leaves this subset. *)

Inductive regex :=
| RChar (c : char)
| RAny
| RSpace
| RBol
| RGroup (n : nat) (body : list regex)
| RStar (r : regex)
| RPlus (r : regex)
| ROpt (r : regex).

(** ECMAScript [SyntaxCharacter]: [^ $ \ . * + ? ( ) [ ] { } |] *)
Definition isSyntaxCharacter (c : char) : bool :=
  (c =? 94)%N || (c =? 36)%N || (c =? 92)%N || (c =? 46)%N || (c =? 42)%N
  || (c =? 43)%N || (c =? 63)%N || (c =? 40)%N || (c =? 41)%N
  || (c =? 91)%N || (c =? 93)%N || (c =? 123)%N || (c =? 125)%N
  || (c =? 124)%N.

Definition isAsciiAlnum (c : char) : bool :=
  ((48 <=? c)%N && (c <=? 57)%N) || ((65 <=? c)%N && (c <=? 90)%N)
  || ((97 <=? c)%N && (c <=? 122)%N).

(** What a backslash followed by [c] denotes. *)
Definition escapeAtom (c : char) : option regex :=
  if (c =? 115)%N then Some RSpace                 (* \s *)
  else if (c =? 114)%N then Some (RChar Chr.CR)    (* \r *)
  else if (c =? 110)%N then Some (RChar Chr.LF)    (* \n *)
  else if (c =? 116)%N then Some (RChar Chr.TAB)   (* \t *)
  else if (c =? 118)%N then Some (RChar 11%N)      (* \v *)
  else if (c =? 102)%N then Some (RChar 12%N)      (* \f *)
  else if isAsciiAlnum c then None                 (* \d \w \b \1 ... *)
  else Some (RChar c).                             (* identity escape *)

Inductive token :=
| TChar (c : char) | TAny | TBol | TStar | TPlus | TQuest
| TOpen | TClose | TBackslash | TUnsupported.

Definition classify (c : char) : token :=
  if (c =? 92)%N then TBackslash
  else if (c =? 94)%N then TBol
  else if (c =? 46)%N then TAny
  else if (c =? 42)%N then TStar
  else if (c =? 43)%N then TPlus
  else if (c =? 63)%N then TQuest
  else if (c =? 40)%N then TOpen
  else if (c =? 41)%N then TClose
  else if (c =? 36)%N || (c =? 91)%N || (c =? 123)%N || (c =? 124)%N
       then TUnsupported                           (* $ [ { | *)
  else TChar c.

(** Parser state: the enclosing groups (number and the terms read before
    the group opened), the terms of the sequence being read (reversed),
    the number of groups opened so far, and whether the last term may
    take a quantifier.  An assertion may not, a quantified term may not
    take a second one (no lazy quantifiers here), and a quantified group
    is left out of the subset. *)
Record pstate := PState {
  p_stack : list (nat * list regex);
  p_cur : list regex;
  p_groups : nat;
  p_quantifiable : bool }.

Definition pushAtom (a : regex) (q : bool) (st : pstate) : pstate :=
  PState (p_stack st) (a :: p_cur st) (p_groups st) q.

Definition quantify (f : regex → regex) (st : pstate) : option pstate :=
  if p_quantifiable st then
    match p_cur st with
    | a :: cur => Some (PState (p_stack st) (f a :: cur) (p_groups st) false)
    | [] => None
    end
  else None.

Definition openGroup (st : pstate) : pstate :=
  PState ((S (p_groups st), p_cur st) :: p_stack st) [] (S (p_groups st)) false.

Definition closeGroup (st : pstate) : option pstate :=
  match p_stack st with
  | (n, outer) :: stack =>
      Some (PState stack (RGroup n (reverse (p_cur st)) :: outer) (p_groups st) false)
  | [] => None
  end.

Fixpoint parsePattern (p : jsstring) (st : pstate) : option (list regex * nat) :=
  match p with
  | [] =>
      match p_stack st with
      | [] => Some (reverse (p_cur st), p_groups st)
      | _ :: _ => None
      end
  | c :: p' =>
      match classify c with
      | TBackslash =>
          match p' with
          | [] => None
          | e :: p'' =>
              match escapeAtom e with
              | Some a => parsePattern p'' (pushAtom a true st)
              | None => None
              end
          end
      | TChar c => parsePattern p' (pushAtom (RChar c) true st)
      | TAny => parsePattern p' (pushAtom RAny true st)
      | TBol => parsePattern p' (pushAtom RBol false st)
      | TStar => st' ← quantify RStar st; parsePattern p' st'
      | TPlus => st' ← quantify RPlus st; parsePattern p' st'
      | TQuest => st' ← quantify ROpt st; parsePattern p' st'
      | TOpen =>
          match p' with
          | 63%N :: _ => None                      (* (?: (?= (?! (?< *)
          | _ => parsePattern p' (openGroup st)
          end
      | TClose => st' ← closeGroup st; parsePattern p' st'
      | TUnsupported => None
      end
  end.

Record RegExp := MkRegExp { re_terms : list regex; re_groups : nat }.

(** [new RegExp(pattern)] *)
Definition RegExp_new (pattern : jsstring) : option RegExp :=
  '(terms, n) ← parsePattern pattern (PState [] [] 0 false);
  Some (MkRegExp terms n).

(** *** The backtracking matcher *)

Record MState := MkMState {
  endIndex : nat;
  remaining : jsstring;
  captures : list (option jsstring) }.

Abbreviation Cont := (MState → option MState) (only parsing).

Definition advance (s : MState) : MState :=
  MkMState (S (endIndex s)) (tail (remaining s)) (captures s).

Definition charMatcher (p : char → bool) (k : Cont) (s : MState) : option MState :=
  match remaining s with
  | c :: _ => if p c then k (advance s) else None
  | [] => None
  end.

(** Greedy iteration of [m] (RepeatMatcher with min 0 and no max).  An
    iteration that consumes nothing is refused (the empty check), so
    there are never more iterations than code units left: the callers
    start [fuel] at [length (remaining s)]. *)
Fixpoint repeatMatcher (m : Cont → Cont) (k : Cont) (fuel : nat) (s : MState)
    : option MState :=
  match fuel with
  | 0 => k s
  | S fuel' =>
      match m (λ s', if endIndex s' =? endIndex s then None
                     else repeatMatcher m k fuel' s') s with
      | Some r => Some r
      | None => k s
      end
  end.

Definition setCapture (n : nat) (from to : MState) : MState :=
  MkMState (endIndex to) (remaining to)
    (<[n := Some (take (endIndex to - endIndex from) (remaining from))]> (captures to)).

Fixpoint mtch (r : regex) (k : Cont) (s : MState) {struct r} : option MState :=
  match r with
  | RChar c => charMatcher (λ x, (x =? c)%N) k s
  | RAny => charMatcher (λ x, negb (isLineTerminator x)) k s
  | RSpace => charMatcher isSpace k s
  | RBol => if endIndex s =? 0 then k s else None
  | RGroup n body =>
      fold_right (λ r k, mtch r k) (λ s', k (setCapture n s s')) body s
  | RStar r => repeatMatcher (mtch r) k (length (remaining s)) s
  | RPlus r =>
      mtch r (λ s', repeatMatcher (mtch r) k (length (remaining s')) s') s
  | ROpt r =>
      match mtch r (λ s', if endIndex s' =? endIndex s then None else k s') s with
      | Some res => Some res
      | None => k s
      end
  end.

Definition mtchSeq (rs : list regex) (k : Cont) : Cont :=
  fold_right (λ r k, mtch r k) k rs.

(** The array a successful [exec] returns: [m_groups !! 0] is the matched
    text, [m_groups !! n] the text captured by group [n]. *)
Record MatchResult := MkMatch { m_index : nat; m_groups : list (option jsstring) }.

Definition matchAt (re : RegExp) (i : nat) (rest : jsstring) : option MatchResult :=
  s ← mtchSeq (re_terms re) Some
        (MkMState i rest (replicate (S (re_groups re)) None));
  Some (MkMatch i (<[0 := Some (take (endIndex s - i) rest)]> (captures s))).

(** [re.exec(str)] for a pattern without the [g] and [y] flags: the match
    is attempted at index 0, then 1, ... up to the length of the string. *)
Fixpoint execFrom (re : RegExp) (i : nat) (rest : jsstring) : option MatchResult :=
  match matchAt re i rest with
  | Some m => Some m
  | None =>
      match rest with
      | [] => None
      | _ :: rest' => execFrom re (S i) rest'
      end
  end.

Definition exec (re : RegExp) (str : jsstring) : option MatchResult :=
  execFrom re 0 str.

(** [match[n]], [undefined] as [None]. *)
Definition group (m : MatchResult) (n : nat) : option jsstring :=
  default None (m_groups m !! n).

(** ** The editor's document model

    The part of the host API the synchronizer calls.  A document is its
    lines (none of which holds a carriage return or a line feed) and one
    end-of-line sequence; [docId] stands for the identity of the document
    object, which [editor.document !== doc] compares. *)

Record Position := MkPosition { line : nat; character : nat }.
Record Range := MkRange { r_start : Position; r_end : Position }.

Record TextDocument := MkTextDocument {
  docId : nat;
  uri : jsstring;
  fileName : jsstring;
  languageId : jsstring;
  eol : EndOfLine;
  lines : list jsstring }.

Definition lineCount (doc : TextDocument) : nat := length (lines doc).

(** [doc.lineAt(i).text] for [i] below [lineCount]. *)
Definition lineText (doc : TextDocument) (i : nat) : jsstring :=
  default [] (lines doc !! i).

Fixpoint joinLines (nl : jsstring) (ls : list jsstring) : jsstring :=
  match ls with
  | [] => []
  | l :: ls' =>
      match ls' with
      | [] => l
      | _ :: _ => l ++ nl ++ joinLines nl ls'
      end
  end.

(** [doc.getText()] *)
Definition getText (doc : TextDocument) : jsstring :=
  joinLines (eolText (eol doc)) (lines doc).

(** Lines of a text: a break at CRLF, at a lone CR and at a lone LF. *)
Fixpoint splitLines (s : jsstring) : list jsstring :=
  match s with
  | [] => [[]]
  | c :: s' =>
      if (c =? Chr.LF)%N then [] :: splitLines s'
      else if (c =? Chr.CR)%N then
        match s' with
        | d :: s'' => if (d =? Chr.LF)%N then [] :: splitLines s''
                      else [] :: splitLines s'
        | [] => [] :: splitLines s'
        end
      else
        match splitLines s' with
        | l :: ls => (c :: l) :: ls
        | [] => [[c]]
        end
  end.

(** [doc.validatePosition(p)] *)
Definition validatePosition (doc : TextDocument) (p : Position) : Position :=
  if lineCount doc <=? line p
  then MkPosition (lineCount doc - 1) (length (lineText doc (lineCount doc - 1)))
  else MkPosition (line p) (character p `min` length (lineText doc (line p))).

(** Offset of the first character of line [l]. *)
Definition lineStart (doc : TextDocument) (l : nat) : nat :=
  sum_list ((λ t, length t + length (eolText (eol doc))) <$> take l (lines doc)).

(** [doc.offsetAt(p)] *)
Definition offsetAt (doc : TextDocument) (p : Position) : nat :=
  let p' := validatePosition doc p in
  lineStart doc (line p') + character p'.

Fixpoint positionAtFrom (ls : list jsstring) (nl : nat) (lineNo offset : nat)
    : Position :=
  match ls with
  | [] => MkPosition lineNo 0
  | l :: ls' =>
      match ls' with
      | [] => MkPosition lineNo (offset `min` length l)
      | _ :: _ =>
          if offset <? length l + nl
          then MkPosition lineNo (offset `min` length l)
          else positionAtFrom ls' nl (S lineNo) (offset - (length l + nl))
      end
  end.

(** [doc.positionAt(offset)]: an offset inside a line break maps to the
    end of the line, one past the text to the end of the document. *)
Definition positionAt (doc : TextDocument) (offset : nat) : Position :=
  positionAtFrom (lines doc) (length (eolText (eol doc))) 0 offset.

(** [doc.getText(range)] *)
Definition getTextRange (doc : TextDocument) (r : Range) : jsstring :=
  let s := offsetAt doc (r_start r) in
  let e := offsetAt doc (r_end r) in
  take (e - s) (drop s (getText doc)).

(** Edits registered on the edit builder of [editor.edit]. *)
Inductive TextEdit :=
| EditReplace (r : Range) (text : jsstring)
| EditInsert (p : Position) (text : jsstring).

Definition setText (doc : TextDocument) (text : jsstring) : TextDocument :=
  MkTextDocument (docId doc) (uri doc) (fileName doc) (languageId doc)
    (eol doc) (splitLines text).

Definition applyEdit (doc : TextDocument) (e : TextEdit) : TextDocument :=
  let t := getText doc in
  match e with
  | EditReplace r new =>
      setText doc (take (offsetAt doc (r_start r)) t ++ new
                   ++ drop (offsetAt doc (r_end r)) t)
  | EditInsert p new =>
      setText doc (take (offsetAt doc p) t ++ new ++ drop (offsetAt doc p) t)
  end.

(** The edits of one builder are non-overlapping and read against the
    document as it was; the synchronizer registers at most one, for which
    this is applying it. *)
Definition applyEdits (doc : TextDocument) (edits : list TextEdit) : TextDocument :=
  foldl applyEdit doc edits.

Record WorkspaceFolder := MkWorkspaceFolder { ws_name : jsstring }.

(** What the synchronizer reads from the host besides the document. *)
Record Host := MkHost {
  (** the document of [vscode.window.activeTextEditor], if there is one *)
  activeTextEditor : option nat;
  (** [getConfiguration().get('relpath.label')], [None] for [undefined] *)
  cfg_label : option jsstring;
  (** the configured [relpath.includeWorkspaceFolder], if any *)
  cfg_includeWorkspaceFolder : option bool;
  (** [vscode.workspace.asRelativePath(uri, false)] *)
  asRelativePath : jsstring → jsstring;
  (** [vscode.workspace.getWorkspaceFolder(uri)] *)
  getWorkspaceFolder : jsstring → option WorkspaceFolder }.

(** What a call did to the host: the edits handed to [editor.edit], and
    the messages shown.  [Threw] is an exception leaving the function. *)
Inductive Effect :=
| EditorEdit (doc : nat) (edits : list TextEdit)
| StatusBarMessage (text : jsstring).

Inductive Outcome :=
| Returned (effects : list Effect)
| Threw.

(** ** The synchronizer (first revision)

    [getCommentTokens], [headerText] and [insertionPosition] are the same,
    word for word, in both revisions of the extension. *)

(** [s.replace(/[.*+?^${}()|[\]\\]/g, '\\$&')] (first revision). *)
Definition esc (s : jsstring) : jsstring :=
  s ≫= λ c, if isSyntaxCharacter c then [Chr.BACKSLASH; c] else [c].

(** The pattern strings, as the template literal and the concatenation
    spell them once the JavaScript string escapes are read. *)
Definition headerPattern (tokens : CommentTokens) (label : jsstring) : jsstring :=
  match tokens with
  | LineTokens start =>
      js "^\s*" ++ esc start ++ esc label ++ js ":\s*(.+)\r?\n?"
  | BlockTokens start end_ =>
      js "^\s*" ++ esc start ++ esc label ++ js ":\s*(.+)" ++ esc end_
        ++ js "\r?\n?"
  end.

Definition headerRegex (tokens : CommentTokens) (label : jsstring) : option RegExp :=
  RegExp_new (headerPattern tokens label).

(** [while (line < doc.lineCount && doc.lineAt(line).text.trim() === '') line++] *)
Fixpoint skipBlankLines (doc : TextDocument) (fuel line : nat) : nat :=
  match fuel with
  | 0 => line
  | S fuel' =>
      if (line <? lineCount doc) && negb (truthy (trim (lineText doc line)))
      then skipBlankLines doc fuel' (S line)
      else line
  end.

Definition insertionPosition (doc : TextDocument) : Position :=
  let line :=
    if (0 <? lineCount doc) && startsWith (lineText doc 0) (js "#!") then 1 else 0 in
  MkPosition (skipBlankLines doc (lineCount doc) line) 0.

(** [(get<string>('relpath.label') || 'Path').trim() || 'Path'] *)
Definition configuredLabel (h : Host) : jsstring :=
  let l := trim (match cfg_label h with
                 | Some s => if truthy s then s else js "Path"
                 | None => js "Path"
                 end) in
  if truthy l then l else js "Path".

(** [Math.min(10, doc.lineCount)] and the chunk it delimits. *)
Definition firstChunk (doc : TextDocument) : jsstring :=
  let toLine := 10 `min` lineCount doc in
  getTextRange doc (MkRange (MkPosition 0 0) (MkPosition toLine 0)).

(** The callback handed to [editor.edit], as the edits it registers. *)
Definition headerEdits (doc : TextDocument) (match_ : option MatchResult)
    (rel txt : jsstring) : list TextEdit :=
  match match_ with
  | Some m =>
      let start := MkPosition 0 0 in
      let end_ := positionAt doc (length (default [] (group m 0))) in
      let current :=
        trim (match group m 1 with
              | Some s => if truthy s then s else []
              | None => []
              end) in
      if decide (current ≠ rel) then [EditReplace (MkRange start end_) txt] else []
  | None => [EditInsert (insertionPosition doc) txt]
  end.

(** First revision of [ensureHeader]. *)
Definition ensureHeader (h : Host) (doc : TextDocument) : Outcome :=
  match activeTextEditor h with
  | None => Returned []
  | Some editorDoc =>
      if negb (editorDoc =? docId doc) then Returned []
      else
        let label := configuredLabel h in
        match getCommentTokens (languageId doc) with
        | Typed tokens =>
            let rel := asRelativePath h (uri doc) in
            let txt := headerText tokens label rel (eol doc) in
            match headerRegex tokens label with
            | None => Threw            (* [new RegExp] refused the pattern *)
            | Some re =>
                let match_ := exec re (firstChunk doc) in
                Returned [EditorEdit (docId doc) (headerEdits doc match_ rel txt)]
            end
        | LineOfInherited _ | BlockOfInherited _ =>
            (* [headerText] renders the value with [String(...)], then
               [headerRegex] calls [replace] on [tokens.start], which has
               no such method: a TypeError, before [editor.edit] *)
            Threw
        end
  end.

(** ** The entry point (first revision)

    What [activate] sets up: commands, event listeners and the disposables
    pushed on [ctx.subscriptions].  The handlers read the workbench as it
    is when they run. *)

(** [vscode.Selection]; the cursor is at [active]. *)
Record Selection := MkSelection { anchor : Position; active : Position }.

(** [vscode.TextEditor] *)
Record TextEditor := MkTextEditor {
  document : TextDocument;
  selections : list Selection }.

(** The window, the workspace and the settings the extension reads. *)
Record Workbench := MkWorkbench {
  (** [vscode.window.activeTextEditor] *)
  wb_activeTextEditor : option TextEditor;
  (** the settings [relpath.label], [relpath.includeWorkspaceFolder],
      [relpath.autoInsertOnOpen] and [relpath.statusBar.enabled], [None]
      where the user has set nothing *)
  wb_label : option jsstring;
  wb_includeWorkspaceFolder : option bool;
  wb_autoInsertOnOpen : option bool;
  wb_statusBarEnabled : option bool;
  wb_asRelativePath : jsstring → jsstring;
  wb_getWorkspaceFolder : jsstring → option WorkspaceFolder }.

(** What [ensureHeader] and [getRelPathOrAbs] see of a workbench. *)
Definition hostOf (wb : Workbench) : Host :=
  MkHost ((λ editor, docId (document editor)) <$> wb_activeTextEditor wb)
    (wb_label wb) (wb_includeWorkspaceFolder wb)
    (wb_asRelativePath wb) (wb_getWorkspaceFolder wb).

(** Calls a handler makes on the host. *)
Inductive HostCall :=
| Did (e : Effect)
| ClipboardWriteText (text : jsstring)
| SetStatusBarMessage (text : jsstring) (hideAfterTimeout : nat).

(** How a handler ends: the value it returns ([None] for [undefined])
    after the calls it made, or an exception. *)
Inductive Completion :=
| Completed (value : option jsstring) (calls : list HostCall)
| Rejected.

(** [await ensureHeader(doc)] as the whole body of a handler. *)
Definition awaitOutcome (o : Outcome) : Completion :=
  match o with
  | Returned effects => Completed None (Did <$> effects)
  | Threw => Rejected
  end.

(** [vscode.StatusBarItem] *)
Inductive StatusBarAlignment := AlignLeft | AlignRight.

Record StatusBarItem := MkStatusBarItem {
  sb_alignment : StatusBarAlignment;
  sb_priority : nat;
  sb_command : option jsstring;
  sb_text : jsstring;
  sb_tooltip : option jsstring;
  sb_visible : bool }.

Abbreviation Command := (Workbench → Completion) (only parsing).

(** A listener reads the workbench and may change the status bar item
    its closure holds. *)
Abbreviation Handler :=
  (Workbench → option StatusBarItem → Completion * option StatusBarItem)
  (only parsing).

Inductive Listener :=
| OnDidChangeActiveTextEditor (f : option TextEditor → Handler)
| OnDidOpenTextDocument (f : TextDocument → Handler)
| OnDidSaveTextDocument (f : TextDocument → Handler)
| OnDidCloseTextDocument (f : TextDocument → Handler).

Inductive Disposable :=
| CommandRegistration (id : jsstring)
| ListenerRegistration (n : nat)
| StatusBarItemHandle.

(** The registries of the extension host and [ctx.subscriptions]. *)
Record ExtensionHost := MkExtensionHost {
  commands : list (jsstring * Command);
  listeners : list Listener;
  statusBarItem : option StatusBarItem;
  subscriptions : list Disposable }.

#[global] Instance Disposable_eq_dec : EqDecision Disposable.
Proof. solve_decision. Defined.

Definition emptyExtensionHost : ExtensionHost := MkExtensionHost [] [] None [].

(** [vscode.commands.registerCommand(id, f)] *)
Definition registerCommand (id : jsstring) (f : Command) (x : ExtensionHost)
    : Disposable * ExtensionHost :=
  (CommandRegistration id,
   MkExtensionHost (commands x ++ [(id, f)]) (listeners x) (statusBarItem x)
     (subscriptions x)).

(** [vscode.window.onDid...(f)] and [vscode.workspace.onDid...(f)] *)
Definition addListener (l : Listener) (x : ExtensionHost)
    : Disposable * ExtensionHost :=
  (ListenerRegistration (length (listeners x)),
   MkExtensionHost (commands x) (listeners x ++ [l]) (statusBarItem x)
     (subscriptions x)).

(** [ctx.subscriptions.push(...)] *)
Definition subscribe (ds : list Disposable) (x : ExtensionHost) : ExtensionHost :=
  MkExtensionHost (commands x) (listeners x) (statusBarItem x)
    (subscriptions x ++ ds).

(** A listener that leaves the status bar item alone. *)
Definition plainHandler (c : Completion) (sb : option StatusBarItem)
    : Completion * option StatusBarItem := (c, sb).

(** The command [relpath.insert]. *)
Definition relpath_insert (wb : Workbench) : Completion :=
  match wb_activeTextEditor wb with
  | None => Completed (Some []) []
  | Some editor =>
      let doc := document editor in
      let rel := wb_asRelativePath wb (uri doc) in
      let ws := wb_getWorkspaceFolder wb (uri doc) in
      Completed (Some (match ws with Some _ => rel | None => fileName doc end)) []
  end.

(** The command [relpath.insertHeader]. *)
Definition relpath_insertHeader (wb : Workbench) : Completion :=
  match wb_activeTextEditor wb with
  | None => Completed None []
  | Some editor => awaitOutcome (ensureHeader (hostOf wb) (document editor))
  end.

(** [ed => ed && ensureHeader(ed.document)] *)
Definition onEditorEnsureHeader (ed : option TextEditor) (wb : Workbench)
    : Completion :=
  match ed with
  | None => Completed None []
  | Some ed => awaitOutcome (ensureHeader (hostOf wb) (document ed))
  end.

(** [doc => ensureHeader(doc)] *)
Definition onSaveEnsureHeader (doc : TextDocument) (wb : Workbench) : Completion :=
  awaitOutcome (ensureHeader (hostOf wb) doc).

(** [activate(ctx)], with the settings as they are at activation. *)
Definition activate (wb : Workbench) (x : ExtensionHost) : ExtensionHost :=
  let '(returnRel, x) := registerCommand (js "relpath.insert") relpath_insert x in
  let '(insertHeader, x) :=
    registerCommand (js "relpath.insertHeader") relpath_insertHeader x in
  let x :=
    if default false (wb_autoInsertOnOpen wb) then
      let '(d1, x) :=
        addListener (OnDidChangeActiveTextEditor
                       (λ ed wb, plainHandler (onEditorEnsureHeader ed wb))) x in
      let '(d2, x) :=
        addListener (OnDidSaveTextDocument
                       (λ doc wb, plainHandler (onSaveEnsureHeader doc wb))) x in
      subscribe [d1; d2] x
    else x in
  subscribe [returnRel; insertHeader] x.

(** [deactivate()] does nothing; the host disposes [ctx.subscriptions]. *)
Definition deactivate (x : ExtensionHost) : ExtensionHost := x.

(** *** The host's side: running a command, firing an event *)

Fixpoint lookupCommand (id : jsstring) (cmds : list (jsstring * Command))
    : option Command :=
  match cmds with
  | [] => None
  | (k, f) :: cmds' => if decide (k = id) then Some f else lookupCommand id cmds'
  end.

(** [vscode.commands.executeCommand(id)]; [None] when no such command is
    registered. *)
Definition executeCommand (x : ExtensionHost) (id : jsstring) (wb : Workbench)
    : option Completion :=
  (λ f, f wb) <$> lookupCommand id (commands x).

Inductive Event :=
| DidChangeActiveTextEditor (ed : option TextEditor)
| DidOpenTextDocument (doc : TextDocument)
| DidSaveTextDocument (doc : TextDocument)
| DidCloseTextDocument (doc : TextDocument).

Definition handlerFor (ev : Event) (l : Listener)
    : option (Workbench → option StatusBarItem → Completion * option StatusBarItem) :=
  match ev, l with
  | DidChangeActiveTextEditor ed, OnDidChangeActiveTextEditor f => Some (f ed)
  | DidOpenTextDocument doc, OnDidOpenTextDocument f => Some (f doc)
  | DidSaveTextDocument doc, OnDidSaveTextDocument f => Some (f doc)
  | DidCloseTextDocument doc, OnDidCloseTextDocument f => Some (f doc)
  | _, _ => None
  end.

(** The listeners of the event, in the order of their registration: how
    each one ended, and the status bar item after the last. *)
Definition fire (x : ExtensionHost) (wb : Workbench) (ev : Event)
    : list Completion * ExtensionHost :=
  let '(cs, sb) :=
    foldl (λ '(cs, sb) l,
             match handlerFor ev l with
             | Some f => let '(c, sb') := f wb sb in (cs ++ [c], sb')
             | None => (cs, sb)
             end)
          ([], statusBarItem x) (listeners x) in
  (cs, MkExtensionHost (commands x) (listeners x) sb (subscriptions x)).

Module Rev2.
(** [getRelPathOrAbs] *)
Definition getRelPathOrAbs (h : Host) (doc : TextDocument) : jsstring :=
  let ws := getWorkspaceFolder h (uri doc) in
  let rel := asRelativePath h (uri doc) in
  match ws with
  | None => fileName doc
  | Some ws =>
      let includeWsName := default true (cfg_includeWorkspaceFolder h) in
      if includeWsName then ws_name ws ++ js "/" ++ rel else rel
  end.

(** Correct escape for building regex from literal strings:
    [lit.replace(/[-\/\\^$*+?.()|[\]{}]/g, '\\$&')]. *)
Definition reEscape (lit : jsstring) : jsstring :=
  lit ≫= λ c, if isSyntaxCharacter c || (c =? 45)%N || (c =? 47)%N
              then [Chr.BACKSLASH; c] else [c].

Definition headerPattern (tokens : CommentTokens) (label : jsstring) : jsstring :=
  let start := match tokens with LineTokens s => s | BlockTokens s _ => s end in
  let end_ := match tokens with LineTokens _ => [] | BlockTokens _ e => e end in
  js "^\s*" ++ reEscape start ++ reEscape label ++ js ":\s*(.+)"
    ++ (if truthy end_ then reEscape end_ else []) ++ js "\r?\n?".

Definition headerRegex (tokens : CommentTokens) (label : jsstring) : option RegExp :=
  RegExp_new (headerPattern tokens label).

(** Second revision of [ensureHeader]. *)
Definition ensureHeader (h : Host) (doc : TextDocument) : Outcome :=
  match activeTextEditor h with
  | None => Returned []
  | Some editorDoc =>
      if negb (editorDoc =? docId doc) then Returned []
      else
        let label := configuredLabel h in
        match getCommentTokens (languageId doc) with
        | Typed tokens =>
            let rel := getRelPathOrAbs h doc in
            let txt := headerText tokens label rel (eol doc) in
            match headerRegex tokens label with
            | None => Threw
            | Some re =>
                let match_ := exec re (firstChunk doc) in
                Returned [EditorEdit (docId doc) (headerEdits doc match_ rel txt)]
            end
        | LineOfInherited _ | BlockOfInherited _ =>
            (* [reEscape] calls [replace] on a [start] that has no such
               method: a TypeError, before [editor.edit] *)
            Threw
        end
  end.
(** *** The entry point (second revision) *)

(** The command [relpath.insertAtCursor]: one insertion per selection. *)
Definition relpath_insertAtCursor (wb : Workbench) : Completion :=
  match wb_activeTextEditor wb with
  | None => Completed None []
  | Some editor =>
      let text := getRelPathOrAbs (hostOf wb) (document editor) in
      Completed None
        [Did (EditorEdit (docId (document editor))
                ((λ sel, EditInsert (active sel) text) <$> selections editor))]
  end.

(** The command [relpath.insertHeader]. *)
Definition relpath_insertHeader (wb : Workbench) : Completion :=
  match wb_activeTextEditor wb with
  | None => Completed None []
  | Some editor => awaitOutcome (ensureHeader (hostOf wb) (document editor))
  end.

(** The command [relpath.copyRelativePath]. *)
Definition relpath_copyRelativePath (wb : Workbench) : Completion :=
  match wb_activeTextEditor wb with
  | None => Completed None []
  | Some editor =>
      let text := getRelPathOrAbs (hostOf wb) (document editor) in
      Completed None
        [ClipboardWriteText text;
         SetStatusBarMessage (js "RelPath copied: " ++ text) 2000]
  end.

(** [ed => { if (ed) ensureHeader(ed.document); }] *)
Definition onEditorEnsureHeader (ed : option TextEditor) (wb : Workbench)
    : Completion :=
  match ed with
  | None => Completed None []
  | Some ed => awaitOutcome (ensureHeader (hostOf wb) (document ed))
  end.

(** [doc => { void ensureHeader(doc); }] *)
Definition onSaveEnsureHeader (doc : TextDocument) (wb : Workbench) : Completion :=
  awaitOutcome (ensureHeader (hostOf wb) doc).

(** [vscode.window.createStatusBarItem(alignment, priority)]: a hidden
    item without text. *)
Definition createStatusBarItem (alignment : StatusBarAlignment) (priority : nat)
    (x : ExtensionHost) : Disposable * ExtensionHost :=
  (StatusBarItemHandle,
   MkExtensionHost (commands x) (listeners x)
     (Some (MkStatusBarItem alignment priority None [] None false))
     (subscriptions x)).

(** [updateSb], on the item [sb]. *)
Definition updateSb (wb : Workbench) (sb : StatusBarItem) : StatusBarItem :=
  match wb_activeTextEditor wb with
  | None =>
      MkStatusBarItem (sb_alignment sb) (sb_priority sb) (sb_command sb)
        (sb_text sb) (sb_tooltip sb) false
  | Some ed =>
      let rel := wb_asRelativePath wb (uri (document ed)) in
      MkStatusBarItem (sb_alignment sb) (sb_priority sb) (sb_command sb)
        (js "$(file-code) " ++ rel)
        (Some (js "RelPath: Click to insert at cursor")) true
  end.

(** [() => updateSb()] *)
Definition onUpdateSb (wb : Workbench) (sb : option StatusBarItem)
    : Completion * option StatusBarItem :=
  (Completed None [], updateSb wb <$> sb).

Definition activate (wb : Workbench) (x : ExtensionHost) : ExtensionHost :=
  let '(insertAtCursor, x) :=
    registerCommand (js "relpath.insertAtCursor") relpath_insertAtCursor x in
  let '(insertHeader, x) :=
    registerCommand (js "relpath.insertHeader") relpath_insertHeader x in
  let '(copyRelativePath, x) :=
    registerCommand (js "relpath.copyRelativePath") relpath_copyRelativePath x in
  let x := subscribe [insertAtCursor; insertHeader; copyRelativePath] x in
  let x :=
    if default false (wb_autoInsertOnOpen wb) then
      let '(d1, x) :=
        addListener (OnDidChangeActiveTextEditor
                       (λ ed wb, plainHandler (onEditorEnsureHeader ed wb))) x in
      let '(d2, x) :=
        addListener (OnDidSaveTextDocument
                       (λ doc wb, plainHandler (onSaveEnsureHeader doc wb))) x in
      subscribe [d1; d2] x
    else x in
  if default true (wb_statusBarEnabled wb) then
    let '(sb, x) := createStatusBarItem AlignLeft 98 x in
    let x :=
      MkExtensionHost (commands x) (listeners x)
        ((λ sb, MkStatusBarItem (sb_alignment sb) (sb_priority sb)
                  (Some (js "relpath.insertAtCursor")) (sb_text sb)
                  (sb_tooltip sb) (sb_visible sb)) <$> statusBarItem x)
        (subscriptions x) in
    let x := subscribe [sb] x in
    let '(d1, x) := addListener (OnDidChangeActiveTextEditor (λ _, onUpdateSb)) x in
    let '(d2, x) := addListener (OnDidOpenTextDocument (λ _, onUpdateSb)) x in
    let '(d3, x) := addListener (OnDidSaveTextDocument (λ _, onUpdateSb)) x in
    let '(d4, x) := addListener (OnDidCloseTextDocument (λ _, onUpdateSb)) x in
    let x := subscribe [d1; d2; d3; d4] x in
    MkExtensionHost (commands x) (listeners x) (updateSb wb <$> statusBarItem x)
      (subscriptions x)
  else x.

Definition deactivate (x : ExtensionHost) : ExtensionHost := x.
End Rev2.

(** The document after the host has carried out what a call did. *)
Definition afterOutcome (doc : TextDocument) (o : Outcome) : TextDocument :=
  match o with
  | Returned effects =>
      foldl (λ d e, match e with
                    | EditorEdit id edits =>
                        if id =? docId d then applyEdits d edits else d
                    | StatusBarMessage _ => d
                    end) doc effects
  | Threw => doc
  end.

(** ** Notions used to state the properties *)

(** The tokens the two tables hold for an identifier under their own
    keys, the default for an identifier they do not hold: what
    [getCommentTokens] answers whenever its answer is of the declared
    type. *)
Definition tableTokens (languageId : jsstring) : CommentTokens :=
  match lineMap !! languageId with
  | Some line =>
      if truthy line then LineTokens line
      else match blockMap !! languageId with
           | Some (s, e) => BlockTokens s e
           | None => LineTokens (js "// ")
           end
  | None =>
      match blockMap !! languageId with
      | Some (s, e) => BlockTokens s e
      | None => LineTokens (js "// ")
      end
  end.

(** [tokens.start], and [tokens.end] with the empty string for a line
    style. *)
Definition tokStart (t : CommentTokens) : list N :=
  match t with LineTokens s => s | BlockTokens s _ => s end.
Definition tokEnd (t : CommentTokens) : list N :=
  match t with LineTokens _ => [] | BlockTokens _ e => e end.

(** What the header pattern should parse to: every character of prefix,
    label and suffix as a character that matches itself. *)
Definition headerTerms (start label end_ : list N) : list regex :=
  [RBol; RStar RSpace] ++ (RChar <$> start) ++ (RChar <$> label)
  ++ [RChar 58%N; RStar RSpace; RGroup 1 [RPlus RAny]] ++ (RChar <$> end_)
  ++ [ROpt (RChar Chr.CR); ROpt (RChar Chr.LF)].

(** The parser state after reading the characters of [s] as literals. *)
Definition pushChars (st : pstate) (s : list N) : pstate :=
  foldl (λ st c, pushAtom (RChar c) true st) st s.

(** A greedy star over a character class, by recursion on the input: the
    longest run first, then shorter ones. *)
Fixpoint starClass (p : N → bool) (k : MState → option MState) (i : nat)
    (rest : list N) (caps : list (option (list N))) : option MState :=
  match rest with
  | c :: rest' =>
      if p c then
        match starClass p k (S i) rest' caps with
        | Some r => Some r
        | None => k (MkMState i rest caps)
        end
      else k (MkMState i rest caps)
  | [] => k (MkMState i rest caps)
  end.

(** What [\r?\n?] takes at the head of [rest]. *)
Definition lineBreakAt (rest : list N) : list N :=
  match rest with
  | c :: rest' =>
      if (c =? Chr.CR)%N then
        match rest' with
        | d :: _ => if (d =? Chr.LF)%N then [Chr.CR; Chr.LF] else [Chr.CR]
        | [] => [Chr.CR]
        end
      else if (c =? Chr.LF)%N then [Chr.LF] else []
  | [] => []
  end.

Definition isSpaces (s : list N) : Prop := Forall (λ c, isSpace c = true) s.
Definition noLineTerminator (s : list N) : Prop :=
  Forall (λ c, isLineTerminator c = false) s.

(** The characters at which the editor breaks lines. *)
Definition isEolChar (c : N) : bool := (c =? Chr.CR)%N || (c =? Chr.LF)%N.
Definition noEol (l : list N) : Prop := Forall (λ c, isEolChar c = false) l.

(** What the editor maintains of a document: at least one line, and no
    line break inside a line. *)
Definition wfDoc (doc : TextDocument) : Prop :=
  lines doc ≠ [] ∧ Forall noEol (lines doc).

(** Lines, each followed by the line break. *)
Definition withBreaks (nl : list N) (ls : list (list N)) : list N :=
  concat ((λ l, l ++ nl) <$> ls).

(** Offsets of a text that are the offset of a position: everything but
    the inside of a two-character line break. *)
Fixpoint validOffset (ls : list (list N)) (nl : nat) (o : nat) : Prop :=
  match ls with
  | [] => False
  | l :: ls' =>
      match ls' with
      | [] => o ≤ length l
      | _ :: _ => o ≤ length l ∨ (length l + nl ≤ o ∧ validOffset ls' nl (o - (length l + nl)))
      end
  end.

(** Offset of column [c] of line [j]. *)
Fixpoint offsetOf (ls : list (list N)) (nl : nat) (j c : nat) : nat :=
  match j, ls with
  | S j', l :: ls' => length l + nl + offsetOf ls' nl j' c
  | _, _ => c
  end.

(** What the proofs need of the delimiters: the prefix starts with a
    character that is not white space, and neither holds a line
    terminator. *)
Definition tokensOkb (t : CommentTokens) : bool :=
  match tokStart t with
  | c :: _ => negb (isSpace c)
  | [] => false
  end
  && forallb (λ c, negb (isLineTerminator c)) (tokStart t)
  && forallb (λ c, negb (isLineTerminator c)) (tokEnd t).

(** [l.trim() === ''] *)
Definition isBlank (l : list N) : bool := negb (truthy (trim l)).
(** [doc.lineCount > 0 && doc.lineAt(0).text.startsWith('#!')] *)
Definition hasShebang (doc : TextDocument) : bool :=
  (0 <? lineCount doc) && startsWith (lineText doc 0) (js "#!").

(** The header without its line break. *)
Definition headerLine (tokens : CommentTokens) (label rel : list N) : list N :=
  tokStart tokens ++ label ++ [58%N; 32%N] ++ rel ++ tokEnd tokens.

(** [s] without its last character when that character satisfies [p]. *)
Definition dropLastIf (p : N → bool) (s : list N) : list N :=
  match reverse s with
  | c :: r => if p c then reverse r else s
  | [] => s
  end.

(** The matched text without the white space in front of it and without
    the line break [\r?\n?] at its end: the header that was found. *)
Definition matchedHeader (matched : list N) : list N :=
  trimStart
    (dropLastIf (λ c, c =? Chr.CR)%N (dropLastIf (λ c, c =? Chr.LF)%N matched)).

(** [\r?\n?] *)
Definition isLineBreak (nl : list N) : Prop :=
  nl = [] ∨ nl = [Chr.CR] ∨ nl = [Chr.LF] ∨ nl = [Chr.CR; Chr.LF].

(** Optional white space, the prefix, the label, a colon, optional white
    space, a non-empty path without line terminators, the suffix of a
    block style, and an optional line break. *)
Definition headerForm (tokens : CommentTokens) (label t : list N) : Prop :=
  ∃ ws1 ws2 path nl,
    t = ws1 ++ tokStart tokens ++ label ++ [58%N] ++ ws2 ++ path
        ++ tokEnd tokens ++ nl
    ∧ isSpaces ws1 ∧ isSpaces ws2 ∧ path ≠ [] ∧ noLineTerminator path
    ∧ isLineBreak nl.

(** The configurations in which [getRelPathOrAbs] adds nothing to the
    relative path: a workspace folder with [includeWorkspaceFolder] set
    to false, or no workspace folder and a relative path that is the file
    name. *)
Definition plainRelativePath (h : Host) (doc : TextDocument) : Prop :=
  ((∃ ws, getWorkspaceFolder h (uri doc) = Some ws)
   ∧ cfg_includeWorkspaceFolder h = Some false)
  ∨ (getWorkspaceFolder h (uri doc) = None
     ∧ fileName doc = asRelativePath h (uri doc)).

(** [text.indexOf(lit)]: where [lit] first occurs in [text]. *)
Fixpoint indexOf (text lit : list N) : option nat :=
  if startsWith text lit then Some 0
  else match text with
       | [] => None
       | _ :: text' => S <$> indexOf text' lit
       end.

(** The editor effects among the calls of a handler, and the document
    after the host has carried them out. *)
Definition effectsOf (c : Completion) : list Effect :=
  match c with
  | Completed _ calls =>
      omap (λ call, match call with Did e => Some e | _ => None end) calls
  | Rejected => []
  end.

Definition afterCompletion (doc : TextDocument) (c : Completion) : TextDocument :=
  afterOutcome doc (Returned (effectsOf c)).

(** The document the auto-insert listeners hand to [ensureHeader]: the one
    of the editor that became active, the one that was saved. *)
Definition synchronized (ev : Event) : option TextDocument :=
  match ev with
  | DidChangeActiveTextEditor ed => document <$> ed
  | DidSaveTextDocument doc => Some doc
  | DidOpenTextDocument _ | DidCloseTextDocument _ => None
  end.

(** A handler that returned [undefined] after no edit, no clipboard write
    and no message. *)
Definition silent (c : Completion) : Prop := c = Completed None [].

(** The extension host after a run of events, each fired in the workbench
    of its moment. *)
Definition fireAll (x : ExtensionHost) (evs : list (Workbench * Event))
    : ExtensionHost :=
  foldl (λ x '(wb, ev), (fire x wb ev).2) x evs.

(** The workbench of the last event, [wb0] when there was none. *)
Definition lastWorkbench (wb0 : Workbench) (evs : list (Workbench * Event))
    : Workbench :=
  default wb0 (fst <$> last evs).

(** What the status bar item shows for the active editor. *)
Definition showsActiveEditor (wb : Workbench) (sb : StatusBarItem) : Prop :=
  match wb_activeTextEditor wb with
  | None => sb_visible sb = false
  | Some ed =>
      sb_visible sb = true
      ∧ sb_text sb = js "$(file-code) " ++ wb_asRelativePath wb (uri (document ed))
      ∧ sb_tooltip sb = Some (js "RelPath: Click to insert at cursor")
  end.

(** ** Concrete hosts and documents *)

Module Ex.
(** An editor showing document 1, no settings, path [src/app.py]. *)
Definition host (rel : string) : Host :=
  MkHost (Some 1) None None (λ _, js rel) (λ _, None).

(** The same with the document inside the workspace folder [proj]. *)
Definition hostInFolder : Host :=
  MkHost (Some 1) None None (λ _, js "src/app.py")
    (λ _, Some (MkWorkspaceFolder (js "proj"))).

Definition hostInFolderNoPrefix : Host :=
  MkHost (Some 1) None (Some false) (λ _, js "src/app.py")
    (λ _, Some (MkWorkspaceFolder (js "proj"))).

Definition hostNoEditor : Host :=
  MkHost None None None (λ _, js "src/app.py") (λ _, None).

Definition doc (lang : string) (e : EndOfLine) (ls : list (list N)) : TextDocument :=
  MkTextDocument 1 (js "file:///w/src/app.py") (js "/w/src/app.py") (js lang) e ls.

Definition blankThenCode : TextDocument :=
  doc "python" CRLF [[]; js "  "; []; js "print(1)"].
Definition shebangScript : TextDocument :=
  doc "shellscript" LF [js "#!/bin/sh"; js "echo hi"].
Definition tenBlankLines : TextDocument :=
  doc "python" LF (replicate 10 [] ++ [js "print(1)"]).
Definition staleHeader : TextDocument :=
  doc "python" LF [[]; js "# Path: old/app.py"; js "print(1)"].
Definition headerWithoutPath : TextDocument :=
  doc "python" LF [js "# Path:"; js "print(1)"; js "x = 2"].
Definition staleHtml : TextDocument :=
  doc "html" LF [js "<!-- Path: old/loc.html -->"; js "<p>hi</p>"].
Definition oneLine : TextDocument := doc "python" LF [js "print(1)"].

Definition hostPy : Host := host "src/app.py".

(** The pattern for a [# ] comment and the label [Path], and what it
    finds in [staleHeader]. *)
Definition pyRegExp : RegExp :=
  MkRegExp (headerTerms (js "# ") (js "Path") []) 1.
Definition staleMatch : MatchResult :=
  MkMatch 0 [Some ([Chr.LF] ++ js "# Path: old/app.py" ++ [Chr.LF]);
             Some (js "old/app.py")].

(** Documents after one run of the synchronizer. *)
Definition afterFirstRun (d : TextDocument) : TextDocument :=
  afterOutcome d (ensureHeader hostPy d).

(** A workbench inside the workspace folder [proj] whose active editor
    shows [d] with one cursor at [p], with the setting
    [relpath.autoInsertOnOpen] as given and no other setting. *)
Definition workbench (d : TextDocument) (p : Position) (autoInsert : option bool)
    : Workbench :=
  MkWorkbench (Some (MkTextEditor d [MkSelection p p])) None None autoInsert None
    (λ _, js "src/app.py") (λ _, Some (MkWorkspaceFolder (js "proj"))).

Definition workbenchNoEditor : Workbench :=
  MkWorkbench None None None None None (λ _, js "src/app.py") (λ _, None).

(** A second document, not the one of the editor. *)
Definition otherDoc : TextDocument :=
  MkTextDocument 2 (js "file:///w/README.md") (js "/w/README.md") (js "markdown")
    LF [js "# Notes"].

(** A file that starts with the line the snippet of the README writes. *)
Definition snippetDoc : TextDocument :=
  doc "typescript" LF [js "// Path: src/app.py"; js "export {}"].
End Ex.

(** * Properties *)

(** ** Comment tokens and header text *)

Lemma lineMap_values_truthy id l : lineMap !! id = Some l → truthy l = true.
Proof.
  intros H. apply elem_of_list_to_map_2 in H.
  assert (HF : Forall (λ kv, truthy kv.2 = true) lineMapEntries)
    by (vm_compute; repeat constructor).
  rewrite Forall_forall in HF. exact (HF _ H).
Qed.

Lemma tableTokens_lookup languageId :
  tableTokens languageId =
    match lineMap !! languageId with
    | Some line => LineTokens line
    | None =>
        match blockMap !! languageId with
        | Some (start, end_) => BlockTokens start end_
        | None => LineTokens (js "// ")
        end
    end.
Proof.
  unfold tableTokens.
  destruct (lineMap !! languageId) as [l|] eqn:E; [|done].
  by rewrite (lineMap_values_truthy _ _ E).
Qed.

Lemma objectPrototypeKeys_not_own key :
  key ∈ objectPrototypeKeys → lineMap !! key = None ∧ blockMap !! key = None.
Proof.
  intros H.
  assert (HF : Forall (λ k, lineMap !! k = None ∧ blockMap !! k = None)
                 objectPrototypeKeys)
    by (apply (bool_decide_unpack _); by vm_compute).
  rewrite Forall_forall in HF. by apply HF.
Qed.

(** An identifier that names a property of [Object.prototype] finds that
    property in the line table. *)
Lemma getCommentTokens_inherited languageId :
  languageId ∈ objectPrototypeKeys →
  getCommentTokens languageId = LineOfInherited languageId.
Proof.
  intros H. destruct (objectPrototypeKeys_not_own _ H) as [El _].
  unfold getCommentTokens, getProperty. rewrite El.
  by rewrite bool_decide_eq_true_2.
Qed.

(** Any other identifier is looked up under the own keys of the tables. *)
Lemma getCommentTokens_own languageId :
  languageId ∉ objectPrototypeKeys →
  getCommentTokens languageId = Typed (tableTokens languageId).
Proof.
  intros H. unfold getCommentTokens, tableTokens, getProperty.
  rewrite (bool_decide_eq_false_2 _ H).
  destruct (lineMap !! languageId) as [l|]; [destruct (truthy l); [done|]|];
    by destruct (blockMap !! languageId) as [[? ?]|].
Qed.

Lemma getCommentTokens_cases languageId :
  (languageId ∈ objectPrototypeKeys
   ∧ getCommentTokens languageId = LineOfInherited languageId)
  ∨ ((languageId ∉ objectPrototypeKeys)
     ∧ getCommentTokens languageId = Typed (tableTokens languageId)).
Proof.
  destruct (decide (languageId ∈ objectPrototypeKeys)) as [H|H].
  - left. split; [done|by apply getCommentTokens_inherited].
  - right. split; [done|by apply getCommentTokens_own].
Qed.

(** A value of the declared type is the one the tables hold. *)
Lemma getCommentTokens_Typed languageId tokens :
  getCommentTokens languageId = Typed tokens →
  tokens = tableTokens languageId ∧ languageId ∉ objectPrototypeKeys.
Proof.
  destruct (getCommentTokens_cases languageId) as [[_ ->]|[H ->]]; [done|].
  by intros [= <-].
Qed.

(** C6: what the resolver does.  For an identifier that names no property
    of [Object.prototype] the lookup is as the claim says: the line style
    of the line mapping when the identifier is a key of it, otherwise the
    block style of the block mapping when it is a key of that one,
    otherwise the default line style with prefix ["// "], which is what
    ["unknown-lang-xyz"] resolves to.  For an identifier that names such
    a property, ["constructor"] for one, which is a key of neither
    mapping, the lookup in the line mapping finds the inherited value,
    which is truthy: the answer is a line style whose prefix is that
    value, no string, and not the default. *)
Theorem getCommentTokens_lookup_order :
  (∀ languageId,
     languageId ∉ objectPrototypeKeys →
     getCommentTokens languageId =
       Typed match lineMap !! languageId with
             | Some line => LineTokens line
             | None =>
                 match blockMap !! languageId with
                 | Some (start, end_) => BlockTokens start end_
                 | None => LineTokens (js "// ")
                 end
             end)
  ∧ getCommentTokens (js "unknown-lang-xyz") = Typed (LineTokens (js "// "))
  ∧ (∀ languageId,
       languageId ∈ objectPrototypeKeys →
       lineMap !! languageId = None ∧ blockMap !! languageId = None
       ∧ getCommentTokens languageId = LineOfInherited languageId)
  ∧ js "constructor" ∈ objectPrototypeKeys
  ∧ getCommentTokens (js "constructor") = LineOfInherited (js "constructor").
Proof.
  split; [|split; [|split; [|split]]].
  - intros languageId H. rewrite getCommentTokens_own by done.
    by rewrite tableTokens_lookup.
  - by vm_compute.
  - intros languageId H. destruct (objectPrototypeKeys_not_own _ H) as [? ?].
    repeat split; try assumption. by apply getCommentTokens_inherited.
  - apply (bool_decide_unpack _). by vm_compute.
  - by vm_compute.
Qed.

Example getCommentTokens_python :
  getCommentTokens (js "python") = Typed (LineTokens (js "# ")).
Proof. by vm_compute. Qed.

Example getCommentTokens_ocaml :
  getCommentTokens (js "ocaml") = Typed (BlockTokens (js "(* ") (js " *)")).
Proof. by vm_compute. Qed.

(** C8: the rendered header is the label, [": "] and the path, wrapped in
    the delimiters of the style and ended by the line break of the
    document, CR LF for a CRLF document and LF for an LF one; for python,
    label [Path] and path [src/app.py] it is ["# Path: src/app.py\n"]. *)
Theorem headerText_rendered :
  (∀ start label rel eol,
     headerText (LineTokens start) label rel eol
     = start ++ (label ++ js ": " ++ rel) ++ eolText eol)
  ∧ (∀ start end_ label rel eol,
     headerText (BlockTokens start end_) label rel eol
     = start ++ (label ++ js ": " ++ rel) ++ end_ ++ eolText eol)
  ∧ eolText CRLF = [Chr.CR; Chr.LF] ∧ eolText LF = [Chr.LF]
  ∧ ∃ tokens,
      getCommentTokens (js "python") = Typed tokens
      ∧ headerText tokens (js "Path") (js "src/app.py") LF
        = js "# Path: src/app.py" ++ [Chr.LF].
Proof.
  split; [|split; [|split; [|split]]].
  - intros. unfold headerText. by rewrite <- ?(assoc_L (++)).
  - intros. unfold headerText. by rewrite <- ?(assoc_L (++)).
  - reflexivity.
  - reflexivity.
  - exists (LineTokens (js "# ")). split; by vm_compute.
Qed.

(** ** No editor, no effect *)

(** C9: when there is no active editor, or the document handed over is
    not the one of the active editor, both revisions of [ensureHeader]
    return normally having asked the host for nothing: no edit, no
    message; the document stays as it was. *)
Theorem ensureHeader_without_editor_is_silent (h : Host) (doc : TextDocument) :
  (activeTextEditor h = None
   ∨ ∃ other, activeTextEditor h = Some other ∧ other ≠ docId doc) →
  ensureHeader h doc = Returned []
  ∧ Rev2.ensureHeader h doc = Returned []
  ∧ afterOutcome doc (ensureHeader h doc) = doc
  ∧ afterOutcome doc (Rev2.ensureHeader h doc) = doc.
Proof.
  intros H.
  assert (ensureHeader h doc = Returned [] ∧ Rev2.ensureHeader h doc = Returned [])
    as [E1 E2].
  { unfold ensureHeader, Rev2.ensureHeader.
    destruct H as [-> | (other & -> & Hne)]; [done|].
    apply Nat.eqb_neq in Hne. by rewrite Hne. }
  by rewrite E1, E2.
Qed.

(** ** The header pattern parses to literal characters

    Both escaping functions put a backslash before every syntax character
    (the second one also before [-] and [/]); the parser reads an escaped
    character and a plain one alike as that character. *)

Lemma classify_plain c : isSyntaxCharacter c = false → classify c = TChar c.
Proof.
  unfold isSyntaxCharacter, classify. intros H.
  repeat (apply orb_false_elim in H as [H ?]).
  repeat match goal with E : (_ =? _)%N = false |- _ => rewrite E; clear E end.
  done.
Qed.

Lemma escapeAtom_identity c :
  isSyntaxCharacter c || (c =? 45)%N || (c =? 47)%N = true →
  escapeAtom c = Some (RChar c).
Proof.
  unfold isSyntaxCharacter. intros H.
  repeat (apply orb_prop in H as [H|H]);
    apply N.eqb_eq in H; subst c; reflexivity.
Qed.

Lemma parse_escaped (f : N → bool) s rest st :
  (∀ c, isSyntaxCharacter c = true → f c = true) →
  (∀ c, f c = true → isSyntaxCharacter c || (c =? 45)%N || (c =? 47)%N = true) →
  parsePattern ((s ≫= λ c, if f c then [Chr.BACKSLASH; c] else [c]) ++ rest) st
  = parsePattern rest (pushChars st s).
Proof.
  intros Hsyn Hid. revert st. induction s as [|c s IH]; intros st; [done|].
  rewrite bind_cons, <- (assoc_L (++)).
  destruct (f c) eqn:E.
  - change (parsePattern ([Chr.BACKSLASH; c] ++ ?x) st)
      with (match escapeAtom c with
            | Some a => parsePattern x (pushAtom a true st)
            | None => None
            end).
    rewrite escapeAtom_identity by auto. apply IH.
  - simpl. rewrite classify_plain; [apply IH|].
    destruct (isSyntaxCharacter c) eqn:E'; [|done]. apply Hsyn in E'. congruence.
Qed.

Lemma parse_esc s rest st :
  parsePattern (esc s ++ rest) st = parsePattern rest (pushChars st s).
Proof. apply parse_escaped; [done|]. intros c ->. done. Qed.

Lemma parse_reEscape s rest st :
  parsePattern (Rev2.reEscape s ++ rest) st = parsePattern rest (pushChars st s).
Proof. apply parse_escaped; [|done]. by intros c ->. Qed.

Lemma p_cur_pushChars st s :
  pushChars st s
  = PState (p_stack st) (reverse (RChar <$> s) ++ p_cur st) (p_groups st)
      (match s with [] => p_quantifiable st | _ => true end).
Proof.
  revert st. induction s as [|c s IH]; intros st; [by destruct st|].
  unfold pushChars in *. simpl. rewrite IH. simpl.
  rewrite reverse_cons, <- (assoc_L (++)). by destruct s.
Qed.

Lemma parse_head rest :
  parsePattern (js "^\s*" ++ rest) (PState [] [] 0 false)
  = parsePattern rest (PState [] [RStar RSpace; RBol] 0 false).
Proof. reflexivity. Qed.

Lemma parse_middle rest stack cur n q :
  parsePattern (js ":\s*(.+)" ++ rest) (PState stack cur n q)
  = parsePattern rest
      (PState stack (RGroup (S n) [RPlus RAny] :: RStar RSpace :: RChar 58%N :: cur)
         (S n) false).
Proof. reflexivity. Qed.

Lemma parse_tail cur n q :
  parsePattern (js "\r?\n?") (PState [] cur n q)
  = Some (reverse (ROpt (RChar Chr.LF) :: ROpt (RChar Chr.CR) :: cur), n).
Proof. reflexivity. Qed.

Lemma headerTerms_reverse start label end_ :
  reverse
    (ROpt (RChar Chr.LF) :: ROpt (RChar Chr.CR)
       :: reverse (RChar <$> end_)
       ++ RGroup 1 [RPlus RAny] :: RStar RSpace :: RChar 58%N
       :: reverse (RChar <$> label) ++ reverse (RChar <$> start)
       ++ [RStar RSpace; RBol])
  = headerTerms start label end_.
Proof.
  unfold headerTerms.
  repeat first [rewrite reverse_cons | rewrite reverse_app
               | rewrite reverse_involutive | rewrite reverse_nil].
  by rewrite <- !(assoc_L (++)).
Qed.

Lemma headerRegex_parses tokens label :
  headerRegex tokens label
  = Some (MkRegExp (headerTerms (tokStart tokens) label (tokEnd tokens)) 1).
Proof.
  unfold headerRegex, RegExp_new, headerPattern.
  destruct tokens as [start|start end_]; cbn [tokStart tokEnd].
  - rewrite parse_head, !parse_esc, !p_cur_pushChars. cbn [p_stack p_cur p_groups].
    change (js ":\s*(.+)\r?\n?") with (js ":\s*(.+)" ++ js "\r?\n?").
    rewrite parse_middle, parse_tail. cbn [mbind option_bind].
    by rewrite <- (headerTerms_reverse start label []).
  - rewrite parse_head, !parse_esc, !p_cur_pushChars. cbn [p_stack p_cur p_groups].
    rewrite parse_middle, parse_esc, p_cur_pushChars. cbn [p_stack p_cur p_groups].
    rewrite parse_tail. cbn [mbind option_bind].
    by rewrite <- (headerTerms_reverse start label end_).
Qed.

Lemma Rev2_headerRegex_parses tokens label :
  Rev2.headerRegex tokens label
  = Some (MkRegExp (headerTerms (tokStart tokens) label (tokEnd tokens)) 1).
Proof.
  unfold Rev2.headerRegex, RegExp_new, Rev2.headerPattern.
  assert (E : (if truthy (tokEnd tokens) then Rev2.reEscape (tokEnd tokens) else [])
              = Rev2.reEscape (tokEnd tokens)) by (by destruct (tokEnd tokens)).
  destruct tokens as [start|start end_]; cbn [tokStart tokEnd] in *; rewrite E.
  - rewrite parse_head, !parse_reEscape, !p_cur_pushChars. cbn [p_stack p_cur p_groups].
    rewrite parse_middle. change (Rev2.reEscape [] ++ ?x) with x.
    rewrite parse_tail. cbn [mbind option_bind].
    by rewrite <- (headerTerms_reverse start label []).
  - rewrite parse_head, !parse_reEscape, !p_cur_pushChars. cbn [p_stack p_cur p_groups].
    rewrite parse_middle, parse_reEscape, p_cur_pushChars. cbn [p_stack p_cur p_groups].
    rewrite parse_tail. cbn [mbind option_bind].
    by rewrite <- (headerTerms_reverse start label end_).
Qed.

(** ** The matcher on character classes and literals *)

Section matcher.
Implicit Types (k : MState → option MState) (caps : list (option (list N))).

Lemma mtchSeq_cons r rs k : mtchSeq (r :: rs) k = mtch r (mtchSeq rs k).
Proof. reflexivity. Qed.

Lemma mtchSeq_app rs1 rs2 k : mtchSeq (rs1 ++ rs2) k = mtchSeq rs1 (mtchSeq rs2 k).
Proof. unfold mtchSeq. by rewrite foldr_app. Qed.

Lemma repeat_class p k fuel i rest caps :
  length rest ≤ fuel →
  repeatMatcher (charMatcher p) k fuel (MkMState i rest caps)
  = starClass p k i rest caps.
Proof.
  revert i rest. induction fuel as [|fuel IH]; intros i rest Hlen.
  - destruct rest; [done | simpl in Hlen; lia].
  - cbn [repeatMatcher]. unfold charMatcher at 1. cbn [remaining].
    destruct rest as [|c rest]; [done|]. cbn [starClass].
    destruct (p c); [|done]. unfold advance. cbn [endIndex remaining captures tail].
    assert ((S i =? i) = false) as -> by (apply Nat.eqb_neq; lia).
    rewrite IH by (simpl in Hlen; lia). done.
Qed.

Lemma mtch_star_space k i rest caps :
  mtch (RStar RSpace) k (MkMState i rest caps) = starClass isSpace k i rest caps.
Proof. apply (repeat_class isSpace). done. Qed.

Lemma mtch_plus_any k i rest caps :
  mtch (RPlus RAny) k (MkMState i rest caps)
  = match rest with
    | c :: rest' =>
        if negb (isLineTerminator c)
        then starClass (λ x, negb (isLineTerminator x)) k (S i) rest' caps
        else None
    | [] => None
    end.
Proof.
  destruct rest as [|c rest]; [done|].
  change (mtch (RPlus RAny) k (MkMState i (c :: rest) caps))
    with (if negb (isLineTerminator c)
          then repeatMatcher (charMatcher (λ x, negb (isLineTerminator x))) k
                 (length rest) (MkMState (S i) rest caps)
          else None).
  destruct (negb (isLineTerminator c)); [|done]. by apply repeat_class.
Qed.

Lemma mtch_lit lit k i rest caps :
  mtchSeq (RChar <$> lit) k (MkMState i (lit ++ rest) caps)
  = k (MkMState (i + length lit) rest caps).
Proof.
  revert i. induction lit as [|c lit IH]; intros i.
  - simpl. by rewrite Nat.add_0_r.
  - rewrite fmap_cons, mtchSeq_cons. cbn [mtch app]. unfold charMatcher.
    cbn [remaining]. rewrite N.eqb_refl. unfold advance.
    cbn [endIndex remaining captures tail]. rewrite IH. f_equal. f_equal.
    simpl. lia.
Qed.

Lemma mtch_lit_Some lit k i rest caps r :
  mtchSeq (RChar <$> lit) k (MkMState i rest caps) = Some r →
  ∃ rest', rest = lit ++ rest'.
Proof.
  revert i rest. induction lit as [|c lit IH]; intros i rest H; [by eexists|].
  rewrite fmap_cons, mtchSeq_cons in H. cbn [mtch] in H. unfold charMatcher in H.
  cbn [remaining] in H. destruct rest as [|d rest]; [done|].
  destruct (d =? c)%N eqn:E; [|done]. apply N.eqb_eq in E as ->.
  unfold advance in H. cbn [endIndex remaining captures tail] in H.
  apply IH in H as [rest' ->]. by eexists.
Qed.

Lemma starClass_Some p k i rest caps r :
  starClass p k i rest caps = Some r →
  ∃ ws rest', rest = ws ++ rest' ∧ Forall (λ c, p c = true) ws
    ∧ k (MkMState (i + length ws) rest' caps) = Some r.
Proof.
  revert i. induction rest as [|c rest IH]; intros i H; simpl in H.
  - exists [], []. by rewrite Nat.add_0_r.
  - destruct (p c) eqn:E.
    + destruct (starClass p k (S i) rest caps) eqn:E'.
      * injection H as ->. apply IH in E' as (ws & rest' & -> & Hws & Hk).
        exists (c :: ws), rest'. split; [done|]. split; [by constructor|].
        simpl. by rewrite Nat.add_succ_r.
      * exists [], (c :: rest). by rewrite Nat.add_0_r.
    + exists [], (c :: rest). by rewrite Nat.add_0_r.
Qed.

Lemma starClass_is_Some p k i ws rest caps :
  Forall (λ c, p c = true) ws →
  is_Some (k (MkMState (i + length ws) rest caps)) →
  is_Some (starClass p k i (ws ++ rest) caps).
Proof.
  intros Hws. revert i. induction Hws as [|c ws Hc _ IH]; intros i Hk; simpl.
  - rewrite Nat.add_0_r in Hk. destruct rest as [|c rest]; simpl; [done|].
    destruct (p c); [|done]. by destruct (starClass p k (S i) rest caps).
  - rewrite Hc. simpl in Hk. rewrite Nat.add_succ_r in Hk.
    destruct (IH (S i) Hk) as [r ->]. done.
Qed.

(** The greedy choice: the longest run whose continuation succeeds. *)
Lemma starClass_pick p k i a b caps r :
  Forall (λ c, p c = true) a →
  (∀ b1 b2, b = b1 ++ b2 → b1 ≠ [] → Forall (λ c, p c = true) b1 →
     k (MkMState (i + length (a ++ b1)) b2 caps) = None) →
  k (MkMState (i + length a) b caps) = Some r →
  starClass p k i (a ++ b) caps = Some r.
Proof.
  intros Ha. revert i. induction Ha as [|c a Hc _ IH]; intros i Hb Hk; simpl.
  - rewrite Nat.add_0_r in Hk. destruct b as [|c b]; simpl; [done|].
    destruct (p c) eqn:E; [|done].
    destruct (starClass p k (S i) b caps) as [r'|] eqn:E'; [|done].
    apply starClass_Some in E' as (ws & rest' & -> & Hws & Hk').
    specialize (Hb (c :: ws) rest' eq_refl ltac:(done) ltac:(by constructor)).
    replace (i + length ([] ++ c :: ws)) with (S i + length ws) in Hb
      by (simpl; lia).
    congruence.
  - rewrite Hc. rewrite (IH (S i)); [done| |].
    + intros b1 b2 E1 E2 E3. rewrite <- (Hb b1 b2 E1 E2 E3). simpl.
      by rewrite Nat.add_succ_r.
    + rewrite <- Hk. simpl. by rewrite Nat.add_succ_r.
Qed.

Lemma mtch_opt_char c k i rest caps :
  mtch (ROpt (RChar c)) k (MkMState i rest caps)
  = match rest with
    | x :: rest' =>
        if (x =? c)%N then
          match k (MkMState (S i) rest' caps) with
          | Some r => Some r
          | None => k (MkMState i rest caps)
          end
        else k (MkMState i rest caps)
    | [] => k (MkMState i rest caps)
    end.
Proof.
  cbn [mtch]. unfold charMatcher. cbn [remaining].
  destruct rest as [|x rest]; [done|].
  destruct (x =? c)%N; [|done]. unfold advance.
  cbn [endIndex remaining captures tail].
  assert ((S i =? i) = false) as -> by (apply Nat.eqb_neq; lia). done.
Qed.

Lemma mtch_line_break i rest caps :
  mtchSeq [ROpt (RChar Chr.CR); ROpt (RChar Chr.LF)] Some (MkMState i rest caps)
  = Some (MkMState (i + length (lineBreakAt rest))
            (drop (length (lineBreakAt rest)) rest) caps).
Proof.
  rewrite !mtchSeq_cons. change (mtchSeq [] Some) with (@Some MState).
  rewrite mtch_opt_char. unfold lineBreakAt.
  destruct rest as [|c rest].
  - rewrite mtch_opt_char. simpl. by rewrite Nat.add_0_r.
  - destruct (c =? Chr.CR)%N eqn:E1.
    + rewrite mtch_opt_char. destruct rest as [|d rest].
      * simpl. by rewrite Nat.add_1_r.
      * destruct (d =? Chr.LF)%N eqn:E2; simpl; f_equal; f_equal; lia.
    + rewrite mtch_opt_char.
      destruct (c =? Chr.LF)%N eqn:E2; simpl; f_equal; f_equal; lia.
Qed.
End matcher.

(** ** Running the header pattern

    Soundness (what a match looks like), completeness (every text that
    starts with a header is matched) and the greedy choice on a text that
    starts with a rendered header. *)

Section header_run.
Context (start label end_ : list N).
Implicit Types (caps : list (option (list N))).

Lemma lineBreakAt_prefix tail :
  lineBreakAt tail ++ drop (length (lineBreakAt tail)) tail = tail.
Proof.
  unfold lineBreakAt. destruct tail as [|c tail]; [done|].
  destruct (c =? Chr.CR)%N eqn:E1.
  - apply N.eqb_eq in E1 as ->. destruct tail as [|d tail]; [done|].
    destruct (d =? Chr.LF)%N eqn:E2; [|done]. by apply N.eqb_eq in E2 as ->.
  - destruct (c =? Chr.LF)%N eqn:E2; [|done]. by apply N.eqb_eq in E2 as ->.
Qed.

Lemma header_run_sound i text caps s :
  mtchSeq (headerTerms start label end_) Some (MkMState i text caps) = Some s →
  i = 0 ∧ ∃ ws1 ws2 path tail,
    text = ws1 ++ start ++ label ++ [58%N] ++ ws2 ++ path ++ end_ ++ tail
    ∧ isSpaces ws1 ∧ isSpaces ws2 ∧ path ≠ [] ∧ noLineTerminator path
    ∧ s = MkMState
            (length (ws1 ++ start ++ label ++ [58%N] ++ ws2 ++ path ++ end_
                     ++ lineBreakAt tail))
            (drop (length (lineBreakAt tail)) tail)
            (<[1 := Some path]> caps).
Proof.
  unfold headerTerms. intros H.
  change ([RBol; RStar RSpace] ++ ?x) with (RBol :: RStar RSpace :: x) in H.
  rewrite mtchSeq_cons in H. cbn [mtch endIndex] in H.
  destruct (i =? 0) eqn:Ei; [|done]. apply Nat.eqb_eq in Ei as ->.
  split; [done|].
  rewrite mtchSeq_cons, mtch_star_space in H.
  apply starClass_Some in H as (ws1 & r1 & -> & Hws1 & H).
  rewrite mtchSeq_app in H.
  destruct (mtch_lit_Some _ _ _ _ _ _ H) as [r2 ->]. rewrite mtch_lit in H.
  rewrite mtchSeq_app in H.
  destruct (mtch_lit_Some _ _ _ _ _ _ H) as [r3 ->]. rewrite mtch_lit in H.
  change ([RChar 58%N; RStar RSpace; RGroup 1 [RPlus RAny]] ++ ?x)
    with ((RChar <$> [58%N]) ++ RStar RSpace :: RGroup 1 [RPlus RAny] :: x) in H.
  rewrite mtchSeq_app in H.
  destruct (mtch_lit_Some _ _ _ _ _ _ H) as [r4 ->]. rewrite mtch_lit in H.
  rewrite mtchSeq_cons, mtch_star_space in H.
  apply starClass_Some in H as (ws2 & r5 & -> & Hws2 & H).
  rewrite mtchSeq_cons in H.
  change (mtch (RGroup 1 [RPlus RAny]) ?k ?s)
    with (mtch (RPlus RAny) (λ s', k (setCapture 1 s s')) s) in H.
  rewrite mtch_plus_any in H. destruct r5 as [|c r5]; [done|].
  destruct (negb (isLineTerminator c)) eqn:Ec; [|done].
  apply starClass_Some in H as (p' & r6 & -> & Hp' & H).
  unfold setCapture in H. cbn [endIndex remaining captures] in H.
  rewrite mtchSeq_app in H.
  destruct (mtch_lit_Some _ _ _ _ _ _ H) as [tail ->]. rewrite mtch_lit in H.
  rewrite mtch_line_break in H. injection H as <-.
  exists ws1, ws2, (c :: p'), tail. split; [done|].
  split; [done|]. split; [done|]. split; [done|]. split.
  { constructor; [by apply negb_true_iff in Ec|].
    eapply Forall_impl; [exact Hp'|]. intros x Hx. by apply negb_true_iff in Hx. }
  f_equal.
  - rewrite !length_app. simpl. rewrite ?length_app. lia.
  - f_equal. f_equal.
    match goal with |- take ?n _ = _ =>
      replace n with (S (length p')) by lia end.
    simpl. f_equal. by rewrite take_app_length.
Qed.

Lemma header_run_complete ws1 ws2 path tail caps :
  isSpaces ws1 → isSpaces ws2 → path ≠ [] → noLineTerminator path →
  is_Some (mtchSeq (headerTerms start label end_) Some
             (MkMState 0 (ws1 ++ start ++ label ++ [58%N] ++ ws2 ++ path
                          ++ end_ ++ tail) caps)).
Proof.
  intros Hws1 Hws2 Hne Hpath. unfold headerTerms.
  change ([RBol; RStar RSpace] ++ ?x) with (RBol :: RStar RSpace :: x).
  rewrite mtchSeq_cons. cbn [mtch endIndex Nat.eqb].
  rewrite mtchSeq_cons, mtch_star_space.
  apply starClass_is_Some; [done|].
  rewrite mtchSeq_app, mtch_lit, mtchSeq_app, mtch_lit.
  change ([RChar 58%N; RStar RSpace; RGroup 1 [RPlus RAny]] ++ ?x)
    with ((RChar <$> [58%N]) ++ RStar RSpace :: RGroup 1 [RPlus RAny] :: x).
  rewrite mtchSeq_app, mtch_lit.
  rewrite mtchSeq_cons, mtch_star_space.
  apply starClass_is_Some; [done|].
  rewrite mtchSeq_cons.
  change (mtch (RGroup 1 [RPlus RAny]) ?k ?s)
    with (mtch (RPlus RAny) (λ s', k (setCapture 1 s s')) s).
  rewrite mtch_plus_any. destruct path as [|c path]; [done|].
  apply Forall_cons in Hpath as [Hc Hpath].
  rewrite <- app_comm_cons, Hc. cbn [negb].
  apply starClass_is_Some.
  { eapply Forall_impl; [exact Hpath|]. intros x Hx. by apply negb_true_iff. }
  unfold setCapture. cbn [endIndex remaining captures].
  rewrite mtchSeq_app, mtch_lit, mtch_line_break. done.
Qed.
End header_run.

Lemma starClass_greedy p k i a b caps r :
  Forall (λ c, p c = true) a →
  (∀ c, head b = Some c → p c = false) →
  k (MkMState (i + length a) b caps) = Some r →
  starClass p k i (a ++ b) caps = Some r.
Proof.
  intros Ha Hb Hk. apply starClass_pick; [done| |done].
  intros b1 b2 -> Hne Hb1. destruct b1 as [|x b1]; [done|].
  apply Forall_cons in Hb1 as [Hx _]. rewrite (Hb x) in Hx; done.
Qed.

(** A literal cannot match where it would have to run into a line
    terminator of the input. *)
Lemma mtch_lit_overrun lit b1 e2 tail k i caps :
  lit = b1 ++ e2 → b1 ≠ [] → noLineTerminator lit →
  (∀ c, head tail = Some c → isLineTerminator c = true) →
  mtchSeq (RChar <$> lit) k (MkMState i (e2 ++ tail) caps) = None.
Proof.
  intros -> Hne Hlit Htail.
  destruct (mtchSeq _ k _) as [r|] eqn:E; [|done]. exfalso.
  apply mtch_lit_Some in E as [rest' E].
  assert (Hlen : length tail = length b1 + length rest').
  { apply (f_equal length) in E. rewrite !length_app in E. lia. }
  destruct tail as [|t tail].
  { destruct b1; [done|]. simpl in Hlen. lia. }
  assert (Ht : ((b1 ++ e2) ++ rest') !! length e2 = Some t).
  { rewrite <- E. rewrite lookup_app_r by lia. by rewrite Nat.sub_diag. }
  rewrite lookup_app_l in Ht.
  2:{ rewrite length_app. destruct b1; [done|]. simpl. lia. }
  apply list_elem_of_lookup_2 in Ht.
  unfold noLineTerminator in Hlit. rewrite Forall_forall in Hlit.
  specialize (Hlit t Ht). simpl in Hlit. rewrite (Htail t) in Hlit; done.
Qed.

Section header_run_exact.
Context (start label end_ : list N).

Lemma header_run_exact ws1 path tail caps :
  isSpaces ws1 →
  (∀ c, head (start ++ label ++ [58%N]) = Some c → isSpace c = false) →
  path ≠ [] → noLineTerminator path →
  (∀ c, head path = Some c → isSpace c = false) →
  noLineTerminator end_ →
  (∀ c, head tail = Some c → isLineTerminator c = true) →
  mtchSeq (headerTerms start label end_) Some
    (MkMState 0 (ws1 ++ start ++ label ++ [58%N; 32%N] ++ path ++ end_ ++ tail) caps)
  = Some (MkMState
            (length (ws1 ++ start ++ label ++ [58%N; 32%N] ++ path ++ end_
                     ++ lineBreakAt tail))
            (drop (length (lineBreakAt tail)) tail)
            (<[1 := Some path]> caps)).
Proof.
  intros Hws1 Hstart Hne Hpath Hhead Hend Htail. unfold headerTerms.
  change ([RBol; RStar RSpace] ++ ?x) with (RBol :: RStar RSpace :: x).
  rewrite mtchSeq_cons. cbn [mtch endIndex Nat.eqb].
  rewrite mtchSeq_cons, mtch_star_space.
  apply starClass_greedy; [done| |].
  { intros c Hc. apply Hstart. rewrite <- Hc.
    rewrite !(assoc_L (++) _ _ (_ ++ _)).
    destruct start; [|done]. destruct label; done. }
  rewrite mtchSeq_app, mtch_lit, mtchSeq_app, mtch_lit.
  change ([RChar 58%N; RStar RSpace; RGroup 1 [RPlus RAny]] ++ ?x)
    with ((RChar <$> [58%N]) ++ RStar RSpace :: RGroup 1 [RPlus RAny] :: x).
  change ([58%N; 32%N] ++ ?x) with ([58%N] ++ [32%N] ++ x).
  rewrite mtchSeq_app, mtch_lit.
  rewrite mtchSeq_cons, mtch_star_space.
  apply starClass_greedy; [by repeat constructor| |].
  { intros c Hc. apply Hhead. rewrite <- Hc. by destruct path. }
  rewrite mtchSeq_cons.
  change (mtch (RGroup 1 [RPlus RAny]) ?k ?s)
    with (mtch (RPlus RAny) (λ s', k (setCapture 1 s s')) s).
  rewrite mtch_plus_any. destruct path as [|c path]; [done|].
  apply Forall_cons in Hpath as [Hc Hpath].
  rewrite <- app_comm_cons, Hc. cbn [negb].
  apply starClass_pick.
  { eapply Forall_impl; [exact Hpath|]. intros x Hx. by apply negb_true_iff. }
  - intros b1 b2 Hb Hb1ne Hb1.
    unfold setCapture. cbn [endIndex remaining captures].
    rewrite mtchSeq_app.
    assert (∃ e2, end_ = b1 ++ e2 ∧ b2 = e2 ++ tail) as (e2 & He & ->).
    { clear -Hb Hb1 Htail. revert end_ Hb.
      induction Hb1 as [|x b1 Hx _ IH]; intros e Hb; [by exists e|].
      destruct e as [|y e].
      - simpl in Hb. rewrite Hb in Htail. apply negb_true_iff in Hx.
        rewrite (Htail x) in Hx; done.
      - simpl in Hb. injection Hb as -> Hb.
        destruct (IH _ Hb) as (e2 & -> & ->). by exists e2. }
    by eapply mtch_lit_overrun.
  - unfold setCapture. cbn [endIndex remaining captures].
    rewrite mtchSeq_app, mtch_lit, mtch_line_break. f_equal. f_equal.
    + rewrite !length_app. simpl. rewrite ?length_app. simpl. lia.
    + f_equal. f_equal.
      match goal with |- take ?n _ = _ =>
        replace n with (S (length path)) by (simpl; lia) end.
      simpl. f_equal. by rewrite take_app_length.
Qed.
End header_run_exact.

(** [exec] on a header pattern: only index 0 is ever a match. *)
Section exec.
Context (start label end_ : list N).
Let re := MkRegExp (headerTerms start label end_) 1.

Lemma matchAt_nonzero i rest : i ≠ 0 → matchAt re i rest = None.
Proof.
  intros Hi. unfold matchAt.
  destruct (mtchSeq _ _ _) as [s|] eqn:E; [|done].
  apply header_run_sound in E as [-> _]. done.
Qed.

Lemma execFrom_nonzero i rest : i ≠ 0 → execFrom re i rest = None.
Proof.
  revert i. induction rest as [|c rest IH]; intros i Hi; simpl;
    rewrite matchAt_nonzero by done; [done|]. by apply IH.
Qed.

Lemma exec_matchAt text : exec re text = matchAt re 0 text.
Proof.
  unfold exec. destruct text as [|c text]; simpl;
    destruct (matchAt re 0 _); try done. by apply execFrom_nonzero.
Qed.
End exec.

(** ** Lines and texts *)

Section lines.
Implicit Types (l nl : list N) (ls : list (list N)).

Lemma joinLines_cons nl l ls :
  ls ≠ [] → joinLines nl (l :: ls) = l ++ nl ++ joinLines nl ls.
Proof. by destruct ls. Qed.

Lemma joinLines_app nl ls1 ls2 :
  ls2 ≠ [] → joinLines nl (ls1 ++ ls2) = withBreaks nl ls1 ++ joinLines nl ls2.
Proof.
  intros Hne. induction ls1 as [|l ls1 IH]; [done|].
  rewrite <- app_comm_cons, joinLines_cons by (by destruct ls1, ls2).
  rewrite IH. unfold withBreaks. simpl. by rewrite <- !(assoc_L (++)).
Qed.

Lemma withBreaks_app nl ls1 ls2 :
  withBreaks nl (ls1 ++ ls2) = withBreaks nl ls1 ++ withBreaks nl ls2.
Proof. unfold withBreaks. by rewrite fmap_app, concat_app. Qed.

Lemma splitLines_nonempty s : splitLines s ≠ [].
Proof.
  destruct s as [|c s]; simpl; [done|].
  destruct (c =? Chr.LF)%N; [done|]. destruct (c =? Chr.CR)%N.
  - destruct s as [|d s]; [done|]. by destruct (d =? Chr.LF)%N.
  - by destruct (splitLines s).
Qed.

Lemma splitLines_noEol l : noEol l → splitLines l = [l].
Proof.
  induction 1 as [|c l Hc _ IH]; [done|]. simpl.
  apply orb_false_elim in Hc as [-> ->]. by rewrite IH.
Qed.

Lemma splitLines_LF l rest :
  noEol l → splitLines (l ++ Chr.LF :: rest) = l :: splitLines rest.
Proof.
  induction 1 as [|c l Hc _ IH]; [done|]. simpl.
  apply orb_false_elim in Hc as [-> ->]. by rewrite IH.
Qed.

Lemma splitLines_CRLF l rest :
  noEol l → splitLines (l ++ Chr.CR :: Chr.LF :: rest) = l :: splitLines rest.
Proof.
  induction 1 as [|c l Hc _ IH]; [done|]. simpl.
  apply orb_false_elim in Hc as [-> ->]. by rewrite IH.
Qed.

Lemma splitLines_break eol l rest :
  noEol l → splitLines (l ++ eolText eol ++ rest) = l :: splitLines rest.
Proof. destruct eol; [apply splitLines_LF | apply splitLines_CRLF]. Qed.

Lemma splitLines_joinLines eol ls :
  ls ≠ [] → Forall noEol ls → splitLines (joinLines (eolText eol) ls) = ls.
Proof.
  intros Hne Hls. induction Hls as [|l ls Hl Hls IH]; [done|].
  destruct ls as [|l' ls]; [by apply splitLines_noEol|].
  rewrite joinLines_cons, splitLines_break by done. f_equal. by apply IH.
Qed.

Lemma length_withBreaks nl ls :
  length (withBreaks nl ls) = sum_list ((λ t, length t + length nl) <$> ls).
Proof.
  induction ls as [|l ls IH]; [done|]. unfold withBreaks in *.
  rewrite !fmap_cons. cbn [concat]. rewrite !length_app, IH. simpl. lia.
Qed.
End lines.

(** ** Offsets of line starts, and the scanned chunk *)

Section doc.
Context (doc : TextDocument).
Let nl := eolText (eol doc).
Let ls := lines doc.

Lemma lineStart_withBreaks j :
  lineStart doc j = length (withBreaks nl (take j (lines doc))).
Proof. unfold lineStart. by rewrite length_withBreaks. Qed.

Lemma lineStart_mono i j : i ≤ j → lineStart doc i ≤ lineStart doc j.
Proof.
  intros Hij. rewrite !lineStart_withBreaks.
  replace j with (i + (j - i)) by lia.
  rewrite <- take_take_drop, withBreaks_app, length_app. lia.
Qed.

Lemma offsetAt_zero : offsetAt doc (MkPosition 0 0) = 0.
Proof.
  unfold offsetAt, validatePosition, lineStart, lineCount, lineText. simpl.
  destruct (lines doc) as [|l ls0]; simpl; [done|]. lia.
Qed.

Lemma getText_split j :
  j < lineCount doc →
  getText doc = withBreaks nl (take j (lines doc)) ++ joinLines nl (drop j (lines doc)).
Proof.
  intros Hj. unfold getText. rewrite <- (take_drop j (lines doc)) at 1.
  apply joinLines_app. intros E. apply (f_equal length) in E.
  rewrite length_drop in E. unfold lineCount in Hj. simpl in E. lia.
Qed.

Lemma offsetAt_line_start j :
  j < lineCount doc → offsetAt doc (MkPosition j 0) = lineStart doc j.
Proof.
  intros Hj. unfold offsetAt, validatePosition. simpl.
  destruct (lineCount doc <=? j) eqn:E; [apply Nat.leb_le in E; lia|].
  simpl. lia.
Qed.

Lemma length_getText :
  lines doc ≠ [] →
  length (getText doc)
  = lineStart doc (lineCount doc - 1) + length (lineText doc (lineCount doc - 1)).
Proof.
  intros Hne. assert (Hn : lineCount doc - 1 < lineCount doc).
  { unfold lineCount. destruct (lines doc); [done|]. simpl. lia. }
  rewrite (getText_split _ Hn), length_app, lineStart_withBreaks. f_equal.
  unfold lineText. destruct (lines doc !! (lineCount doc - 1)) as [x|] eqn:E.
  - rewrite (drop_S _ _ _ E). rewrite drop_ge by (unfold lineCount; lia). done.
  - apply lookup_ge_None in E. unfold lineCount in *. lia.
Qed.

Lemma offsetAt_beyond j c :
  lines doc ≠ [] → lineCount doc ≤ j →
  offsetAt doc (MkPosition j c) = length (getText doc).
Proof.
  intros Hne Hj. rewrite length_getText by done.
  unfold offsetAt, validatePosition. simpl.
  apply Nat.leb_le in Hj. by rewrite Hj.
Qed.

Lemma offsetAt_le p : lines doc ≠ [] → offsetAt doc p ≤ length (getText doc).
Proof.
  intros Hne. rewrite length_getText by done.
  unfold offsetAt, validatePosition.
  destruct (lineCount doc <=? line p) eqn:E; simpl; [done|].
  apply Nat.leb_gt in E.
  destruct (decide (line p = lineCount doc - 1)) as [->|Hlt]; [lia|].
  assert (H1 : S (line p) ≤ lineCount doc - 1) by lia.
  pose proof (lineStart_mono _ _ H1) as Hm.
  rewrite (lineStart_withBreaks (S (line p))) in Hm.
  unfold lineText. destruct (lines doc !! line p) as [x|] eqn:Ex.
  - rewrite (take_S_r _ _ _ Ex), withBreaks_app, length_app in Hm.
    rewrite <- lineStart_withBreaks in Hm. unfold withBreaks in Hm. simpl in Hm.
    rewrite app_nil_r, length_app in Hm. simpl.
    pose proof (Nat.le_min_r (character p) (length x)). lia.
  - apply lookup_ge_None in Ex. unfold lineCount in E. lia.
Qed.

(** The chunk scanned for a header is a prefix of the text that reaches
    the start of every line up to the tenth that the document has. *)
Lemma firstChunk_prefix :
  firstChunk doc
  = take (offsetAt doc (MkPosition (10 `min` lineCount doc) 0)) (getText doc).
Proof.
  unfold firstChunk, getTextRange. cbn [r_start r_end].
  by rewrite offsetAt_zero, Nat.sub_0_r.
Qed.

Lemma firstChunk_covers j :
  lines doc ≠ [] → j ≤ 10 → j < lineCount doc →
  lineStart doc j ≤ offsetAt doc (MkPosition (10 `min` lineCount doc) 0).
Proof.
  intros Hne H10 Hj.
  destruct (decide (lineCount doc ≤ 10)) as [Hn|Hn].
  - rewrite Nat.min_r by done. rewrite offsetAt_beyond by done.
    rewrite length_getText by done.
    pose proof (lineStart_mono j (lineCount doc - 1)). lia.
  - rewrite Nat.min_l by lia. rewrite offsetAt_line_start by lia.
    by apply lineStart_mono.
Qed.
End doc.

(** ** Positions and offsets *)

Section positions.
Implicit Types (ls : list (list N)).

Lemma offsetOf_sum ls nl j c :
  j ≤ length ls →
  offsetOf ls nl j c = sum_list ((λ t, length t + nl) <$> take j ls) + c.
Proof.
  revert j. induction ls as [|l ls IH]; intros [|j] Hj; try done.
  cbn [offsetOf take]. rewrite fmap_cons, IH by (simpl in Hj; lia).
  simpl. lia.
Qed.

Lemma positionAtFrom_valid ls nl k o :
  0 < nl → validOffset ls nl o →
  ∃ j c, positionAtFrom ls nl k o = MkPosition (k + j) c
    ∧ j < length ls ∧ c ≤ length (default [] (ls !! j))
    ∧ offsetOf ls nl j c = o.
Proof.
  intros Hnl. revert k o. induction ls as [|l ls IH]; intros k o Hv; [done|].
  destruct ls as [|l' ls].
  - simpl in *. exists 0, o. rewrite Nat.min_l, Nat.add_0_r by done.
    split; [done|]. split; [lia|]. split; done.
  - cbn [validOffset] in Hv. cbn [positionAtFrom].
    destruct Hv as [Hv|[Hlo Hv]].
    + assert ((o <? length l + nl) = true) as -> by (apply Nat.ltb_lt; lia).
      exists 0, o. rewrite Nat.min_l, Nat.add_0_r by done.
      split; [done|]. split; [simpl; lia|]. split; done.
    + assert ((o <? length l + nl) = false) as -> by (apply Nat.ltb_ge; lia).
      destruct (IH (S k) _ Hv) as (j & c & E & Hj & Hc & Ho).
      exists (S j), c. replace (k + S j) with (S k + j) by lia.
      split; [done|]. split; [simpl in *; lia|]. split; [done|].
      change (offsetOf (l :: l' :: ls) nl (S j) c)
        with (length l + nl + offsetOf (l' :: ls) nl j c).
      rewrite Ho. lia.
Qed.

Lemma offsetOf_valid ls nl j c :
  j < length ls → c ≤ length (default [] (ls !! j)) →
  validOffset ls nl (offsetOf ls nl j c).
Proof.
  revert j. induction ls as [|l ls IH]; intros j Hj Hc; [simpl in Hj; lia|].
  destruct j as [|j].
  - simpl in *. destruct ls; [done|by left].
  - destruct ls as [|l' ls]; [simpl in Hj; lia|].
    change (offsetOf (l :: l' :: ls) nl (S j) c)
      with (length l + nl + offsetOf (l' :: ls) nl j c).
    cbn [validOffset]. right. split; [lia|].
    replace (length l + nl + offsetOf (l' :: ls) nl j c - (length l + nl))
      with (offsetOf (l' :: ls) nl j c) by lia.
    apply IH; [simpl in *; lia|done].
Qed.

(** In a text whose lines hold no CR or LF, an offset within the text
    is valid unless it separates the CR from the LF of a line break. *)
Lemma validOffset_or_inside_break eol ls o :
  ls ≠ [] → Forall noEol ls →
  o ≤ length (joinLines (eolText eol) ls) →
  validOffset ls (length (eolText eol)) o
  ∨ (0 < o ∧ joinLines (eolText eol) ls !! (o - 1) = Some Chr.CR
     ∧ joinLines (eolText eol) ls !! o = Some Chr.LF).
Proof.
  intros Hne Hls. revert o. induction Hls as [|l ls Hl Hls IH]; intros o Ho; [done|].
  destruct ls as [|l' ls]; [by left|].
  rewrite joinLines_cons in * by done. cbn [validOffset].
  destruct (decide (o ≤ length l)) as [?|Hgt]; [by left; left|].
  destruct (decide (length l + length (eolText eol) ≤ o)) as [Hge|Hlt].
  - rewrite !length_app in Ho.
    destruct (IH ltac:(done) (o - (length l + length (eolText eol))) ltac:(lia))
      as [Hv|(Hpos & Hcr & Hlf)]; [by left; right|].
    right. split; [lia|].
    rewrite !(assoc_L (++)), !lookup_app_r by (rewrite length_app; lia).
    rewrite length_app.
    replace (o - 1 - (length l + length (eolText eol)))
      with (o - (length l + length (eolText eol)) - 1) by lia. done.
  - right. destruct eol; simpl in *; [lia|].
    assert (o = length l + 1) as -> by lia. split; [lia|].
    rewrite !lookup_app_r by lia.
    replace (length l + 1 - 1 - length l) with 0 by lia.
    replace (length l + 1 - length l) with 1 by lia. done.
Qed.
End positions.

Section doc_positions.
Context (doc : TextDocument).

Lemma offsetAt_offsetOf j c :
  j < lineCount doc → c ≤ length (lineText doc j) →
  offsetAt doc (MkPosition j c)
  = offsetOf (lines doc) (length (eolText (eol doc))) j c.
Proof.
  intros Hj Hc. unfold offsetAt, validatePosition. cbn [line character].
  assert ((lineCount doc <=? j) = false) as -> by (apply Nat.leb_gt; lia).
  cbn [line character]. rewrite Nat.min_l by done.
  rewrite offsetOf_sum by (unfold lineCount in Hj; lia). done.
Qed.

Lemma validatePosition_in_range p :
  lines doc ≠ [] →
  line (validatePosition doc p) < lineCount doc
  ∧ character (validatePosition doc p)
    ≤ length (lineText doc (line (validatePosition doc p))).
Proof.
  intros Hne. unfold validatePosition.
  assert (0 < lineCount doc) by (unfold lineCount; destruct (lines doc); simpl; [done|lia]).
  destruct (lineCount doc <=? line p) eqn:E; cbn [line character].
  - split; [lia|done].
  - apply Nat.leb_gt in E. split; [done|]. apply Nat.le_min_r.
Qed.

Lemma offsetAt_validOffset p :
  lines doc ≠ [] →
  validOffset (lines doc) (length (eolText (eol doc))) (offsetAt doc p).
Proof.
  intros Hne. destruct (validatePosition_in_range p Hne) as [Hl Hc].
  replace (offsetAt doc p) with
    (offsetOf (lines doc) (length (eolText (eol doc)))
       (line (validatePosition doc p)) (character (validatePosition doc p))).
  - by apply offsetOf_valid.
  - unfold offsetAt. rewrite offsetOf_sum by (unfold lineCount in Hl; lia). done.
Qed.

Lemma offsetAt_positionAt o :
  validOffset (lines doc) (length (eolText (eol doc))) o →
  offsetAt doc (positionAt doc o) = o.
Proof.
  intros Hv. unfold positionAt.
  assert (Hnl : 0 < length (eolText (eol doc))) by (destruct (eol doc); simpl; lia).
  destruct (positionAtFrom_valid _ _ 0 _ Hnl Hv) as (j & c & -> & Hj & Hc & Ho).
  rewrite Nat.add_0_l. by rewrite offsetAt_offsetOf.
Qed.
End doc_positions.

(** ** The delimiters of the two tables *)

Section tokens.
Lemma blockMap_values_ok id se :
  blockMap !! id = Some se → tokensOkb (BlockTokens se.1 se.2) = true.
Proof.
  intros H. apply elem_of_list_to_map_2 in H.
  assert (HF : Forall (λ kv, tokensOkb (BlockTokens kv.2.1 kv.2.2) = true)
                 blockMapEntries) by (vm_compute; repeat constructor).
  rewrite Forall_forall in HF. exact (HF _ H).
Qed.

Lemma lineMap_values_ok id l :
  lineMap !! id = Some l → tokensOkb (LineTokens l) = true.
Proof.
  intros H. apply elem_of_list_to_map_2 in H.
  assert (HF : Forall (λ kv, tokensOkb (LineTokens kv.2) = true) lineMapEntries)
    by (vm_compute; repeat constructor).
  rewrite Forall_forall in HF. exact (HF _ H).
Qed.

Lemma tableTokens_ok id : tokensOkb (tableTokens id) = true.
Proof.
  rewrite tableTokens_lookup.
  destruct (lineMap !! id) as [l|] eqn:E1; [by eapply lineMap_values_ok|].
  destruct (blockMap !! id) as [[s e]|] eqn:E2; [|done].
  by apply (blockMap_values_ok _ _ E2).
Qed.

Lemma forallb_noLineTerminator s :
  forallb (λ c, negb (isLineTerminator c)) s = true → noLineTerminator s.
Proof.
  induction s as [|c s IH]; simpl; [by constructor|].
  intros H. apply andb_prop in H as [Hc H].
  constructor; [by apply negb_true_iff in Hc|by apply IH].
Qed.

Lemma tokensOkb_spec t :
  tokensOkb t = true →
  (∃ c s, tokStart t = c :: s ∧ isSpace c = false)
  ∧ noLineTerminator (tokStart t) ∧ noLineTerminator (tokEnd t).
Proof.
  unfold tokensOkb. intros H.
  apply andb_prop in H as [H H3]. apply andb_prop in H as [H1 H2].
  split; [|split; by apply forallb_noLineTerminator].
  destruct (tokStart t) as [|c s]; [done|]. exists c, s.
  by apply negb_true_iff in H1.
Qed.

Lemma noLineTerminator_noEol s : noLineTerminator s → noEol s.
Proof.
  intros H. eapply Forall_impl; [exact H|].
  intros c. unfold isLineTerminator, isEolChar.
  destruct (c =? Chr.LF)%N, (c =? Chr.CR)%N; done.
Qed.

Lemma isEolChar_isLineTerminator c : isEolChar c = true → isLineTerminator c = true.
Proof.
  unfold isLineTerminator, isEolChar.
  destruct (c =? Chr.LF)%N, (c =? Chr.CR)%N; done.
Qed.

Lemma isLineTerminator_isSpace c : isLineTerminator c = true → isSpace c = true.
Proof. unfold isSpace. intros ->. by rewrite orb_true_r. Qed.

Lemma isSpaces_eolText eol : isSpaces (eolText eol).
Proof. destruct eol; repeat constructor. Qed.
End tokens.

(** ** Blank lines and the insertion position *)

Section blank.
Lemma dropWhile_nil_iff {A} (p : A → bool) l :
  dropWhile p l = [] ↔ Forall (λ x, p x = true) l.
Proof.
  induction l as [|x l IH]; simpl; [by split|].
  destruct (p x) eqn:E.
  - rewrite IH. split; [by constructor|]. by inversion 1.
  - split; [done|]. inversion 1. congruence.
Qed.

Lemma trim_nil_iff l : trim l = [] ↔ isSpaces l.
Proof.
  unfold trim, trimEnd, trimStart, isSpaces. split.
  - intros H. apply dropWhile_nil_iff.
    apply (f_equal reverse) in H. rewrite reverse_involutive in H.
    change (reverse []) with (@nil N) in H.
    apply dropWhile_nil_iff in H.
    destruct (dropWhile isSpace l) as [|x l'] eqn:E; [done|].
    exfalso. rewrite reverse_cons, Forall_app, Forall_singleton in H.
    destruct H as [_ H].
    assert (Hx : isSpace x = false).
    { clear -E. induction l as [|y l IH]; [done|]. simpl in E.
      destruct (isSpace y) eqn:Ey; [by apply IH|]. by injection E as -> _. }
    congruence.
  - intros H. apply dropWhile_nil_iff in H. by rewrite H.
Qed.

Lemma isBlank_isSpaces l : isBlank l = true ↔ isSpaces l.
Proof.
  rewrite <- trim_nil_iff. unfold isBlank. by destruct (trim l).
Qed.

Lemma takeWhile_Forall {A} (p : A → bool) l :
  Forall (λ x, p x = true) (takeWhile p l).
Proof.
  induction l as [|x l IH]; simpl; [done|].
  destruct (p x) eqn:E; [by constructor|done].
Qed.

Lemma takeWhile_prefix {A} (p : A → bool) l :
  takeWhile p l = take (length (takeWhile p l)) l.
Proof.
  induction l as [|x l IH]; simpl; [done|].
  destruct (p x); simpl; [by f_equal|done].
Qed.

Lemma takeWhile_length_le {A} (p : A → bool) l :
  length (takeWhile p l) ≤ length l.
Proof.
  induction l as [|x l IH]; simpl; [done|]. destruct (p x); simpl; lia.
Qed.

Lemma takeWhile_stop {A} (p : A → bool) l x :
  l !! length (takeWhile p l) = Some x → p x = false.
Proof.
  induction l as [|y l IH]; simpl; [done|].
  destruct (p y) eqn:E; simpl; [done|]. by intros [= ->].
Qed.
End blank.

Section insertion.
Context (doc : TextDocument).

Lemma skipBlankLines_spec fuel line :
  lineCount doc - line ≤ fuel →
  skipBlankLines doc fuel line
  = line + length (takeWhile isBlank (drop line (lines doc))).
Proof.
  revert line. induction fuel as [|fuel IH]; intros line Hf.
  - simpl. rewrite drop_ge by (unfold lineCount in Hf; lia). simpl. lia.
  - cbn [skipBlankLines]. destruct (line <? lineCount doc) eqn:E.
    + apply Nat.ltb_lt in E. unfold lineText.
      destruct (lines doc !! line) as [x|] eqn:Ex.
      2:{ apply lookup_ge_None in Ex. unfold lineCount in E. lia. }
      rewrite (drop_S _ _ _ Ex). cbn [default from_option id takeWhile andb].
      fold (isBlank x). destruct (isBlank x).
      * rewrite IH by lia. simpl. lia.
      * simpl. lia.
    + apply Nat.ltb_ge in E. rewrite drop_ge by (unfold lineCount in E; lia).
      simpl. lia.
Qed.

Lemma insertionPosition_line :
  insertionPosition doc
  = MkPosition
      ((if hasShebang doc then 1 else 0)
       + length (takeWhile isBlank
                   (drop (if hasShebang doc then 1 else 0) (lines doc)))) 0.
Proof.
  unfold insertionPosition. fold (hasShebang doc).
  rewrite skipBlankLines_spec; [done|]. lia.
Qed.
End insertion.

(** ** The search on a document that holds the rendered header *)

Lemma headerText_headerLine tokens label rel eol :
  headerText tokens label rel eol = headerLine tokens label rel ++ eolText eol.
Proof.
  unfold headerText, headerLine.
  destruct tokens; cbn [tokStart tokEnd]; by rewrite <- ?(assoc_L (++)).
Qed.

Lemma isSpaces_withBreaks nl ls :
  isSpaces nl → Forall isSpaces ls → isSpaces (withBreaks nl ls).
Proof.
  intros Hnl Hls. unfold withBreaks, isSpaces.
  induction Hls as [|l ls Hl _ IH]; [constructor|].
  rewrite fmap_cons. cbn [concat]. rewrite !Forall_app. done.
Qed.

Lemma withBreaks_singleton nl l : withBreaks nl [l] = l ++ nl.
Proof. unfold withBreaks. simpl. by rewrite app_nil_r. Qed.

Lemma head_eolText_lineTerminator eol rest c :
  head (eolText eol ++ rest) = Some c → isLineTerminator c = true.
Proof. destruct eol; simpl; by intros [= <-]. Qed.

Section second_run.
Context (doc' : TextDocument) (tokens : CommentTokens) (label rel : list N).
Let re := MkRegExp (headerTerms (tokStart tokens) label (tokEnd tokens)) 1.
Let nl := eolText (eol doc').

(** A document that holds the header line, after white space only and
    within its first ten lines: the search finds it and captures the
    path. *)
Lemma exec_sees_header Lp Lq ws1 :
  tokensOkb tokens = true →
  rel ≠ [] → noLineTerminator rel → (∀ c, head rel = Some c → isSpace c = false) →
  lines doc' = Lp ++ Lq → Lq ≠ [] → length Lp ≤ 10 →
  withBreaks nl Lp = ws1 ++ headerLine tokens label rel ++ nl →
  isSpaces ws1 →
  ∃ m0, exec re (firstChunk doc') = Some (MkMatch 0 [Some m0; Some rel]).
Proof.
  intros Htok Hne Hrel Hhead Hlines HLq HLp Hhdr Hws1.
  apply tokensOkb_spec in Htok as ((c0 & s0 & Hstart & Hc0) & Hs & He).
  assert (Hdne : lines doc' ≠ []) by (rewrite Hlines; by destruct Lp, Lq).
  assert (Hj : length Lp < lineCount doc').
  { unfold lineCount. rewrite Hlines, length_app. destruct Lq; [done|simpl; lia]. }
  pose proof (firstChunk_covers doc' (length Lp) Hdne HLp Hj) as Hcov.
  rewrite lineStart_withBreaks, Hlines, take_app_length in Hcov.
  rewrite firstChunk_prefix.
  assert (HT : getText doc' = withBreaks nl Lp ++ joinLines nl Lq).
  { unfold getText. rewrite Hlines. by apply joinLines_app. }
  rewrite HT, take_app_ge by done. fold nl. rewrite Hhdr.
  set (tail' := take _ (joinLines nl Lq)).
  unfold headerLine. rewrite <- !(assoc_L (++)).
  unfold re. rewrite exec_matchAt. unfold matchAt. cbn [re_terms re_groups replicate].
  rewrite header_run_exact; try done.
  - cbn [mbind option_bind endIndex captures]. eexists. f_equal.
  - intros c. rewrite Hstart. simpl. by intros [= <-].
  - intros c. apply head_eolText_lineTerminator.
Qed.
End second_run.

Lemma headerEdits_noop doc m0 captured rel txt :
  captured ≠ [] → trim captured = rel →
  headerEdits doc (Some (MkMatch 0 [Some m0; Some captured])) rel txt = [].
Proof.
  intros Hne Htrim. unfold headerEdits.
  change (group (MkMatch 0 [Some m0; Some captured]) 1) with (Some captured).
  cbv beta iota zeta.
  assert (truthy captured = true) as -> by (by destruct captured).
  rewrite Htrim. by rewrite decide_False by (by intros []).
Qed.

Lemma trim_fixed_head rel c :
  trim rel = rel → head rel = Some c → isSpace c = false.
Proof.
  intros Htrim Hc. destruct rel as [|x rel]; [done|]. injection Hc as ->.
  destruct (isSpace c) eqn:E; [|done]. exfalso.
  assert (Hd : ∀ p (l : list N), length (dropWhile p l) ≤ length l).
  { intros p l. induction l as [|y l IH]; simpl; [done|].
    destruct (p y); simpl; lia. }
  apply (f_equal length) in Htrim. unfold trim, trimEnd, trimStart in Htrim.
  rewrite length_reverse in Htrim. simpl in Htrim. rewrite E in Htrim.
  pose proof (Hd isSpace (reverse (dropWhile isSpace rel))) as H1.
  rewrite length_reverse in H1. pose proof (Hd isSpace rel). lia.
Qed.

(** ** The document after an edit *)

Lemma splitLines_through_LF t :
  ∃ X, X ≠ [] ∧ ∀ b, splitLines (t ++ Chr.LF :: b) = X ++ splitLines b.
Proof.
  remember (length t) as n eqn:Hn. revert t Hn.
  induction n as [n IH] using lt_wf_ind. intros t ->.
  destruct t as [|c t].
  { exists [[]]. split; [done|]. intros b. reflexivity. }
  destruct (IH (length t) ltac:(simpl; lia) t eq_refl) as (X & HX & HXb).
  destruct (c =? Chr.LF)%N eqn:E1.
  { exists ([] :: X). split; [done|]. intros b. simpl. by rewrite E1, HXb. }
  destruct (c =? Chr.CR)%N eqn:E2.
  - destruct t as [|d t].
    { exists [[]]. split; [done|]. intros b. simpl. by rewrite E1, E2. }
    destruct (d =? Chr.LF)%N eqn:E3.
    + destruct (IH (length t) ltac:(simpl; lia) t eq_refl) as (X' & HX' & HXb').
      exists ([] :: X'). split; [done|]. intros b. simpl.
      by rewrite E1, E2, E3, HXb'.
    + exists ([] :: X). split; [done|]. intros b.
      change (splitLines ((c :: d :: t) ++ Chr.LF :: b))
        with (if (c =? Chr.LF)%N then [] :: splitLines ((d :: t) ++ Chr.LF :: b)
              else if (c =? Chr.CR)%N
                   then if (d =? Chr.LF)%N then [] :: splitLines (t ++ Chr.LF :: b)
                        else [] :: splitLines ((d :: t) ++ Chr.LF :: b)
                   else match splitLines ((d :: t) ++ Chr.LF :: b) with
                        | l :: ls => (c :: l) :: ls
                        | [] => [[c]]
                        end).
      by rewrite E1, E2, E3, HXb.
  - destruct X as [|l0 X0]; [done|].
    exists ((c :: l0) :: X0). split; [done|]. intros b.
    change (splitLines ((c :: t) ++ Chr.LF :: b))
      with (if (c =? Chr.LF)%N then [] :: splitLines (t ++ Chr.LF :: b)
            else if (c =? Chr.CR)%N
                 then match t ++ Chr.LF :: b with
                      | d :: s'' => if (d =? Chr.LF)%N then [] :: splitLines s''
                                    else [] :: splitLines (t ++ Chr.LF :: b)
                      | [] => [] :: splitLines (t ++ Chr.LF :: b)
                      end
                 else match splitLines (t ++ Chr.LF :: b) with
                      | l :: ls => (c :: l) :: ls
                      | [] => [[c]]
                      end).
    by rewrite E1, E2, HXb.
Qed.

Section edits.
Context (doc : TextDocument) (Hwf : wfDoc doc).
Let nl := eolText (eol doc).

Lemma drop_offsetAt p :
  ∃ Lq, Lq ≠ [] ∧ Forall noEol Lq
    ∧ drop (offsetAt doc p) (getText doc) = joinLines nl Lq.
Proof using Hwf.
  destruct Hwf as [Hne Hls].
  destruct (validatePosition_in_range doc p Hne) as [Hl Hc].
  unfold offsetAt. set (l := line (validatePosition doc p)) in *.
  set (c := character (validatePosition doc p)) in *.
  rewrite (getText_split doc l Hl), lineStart_withBreaks, drop_app_add.
  unfold lineText in Hc.
  destruct (lines doc !! l) as [x|] eqn:Ex.
  2:{ apply lookup_ge_None in Ex. unfold lineCount in Hl. lia. }
  simpl in Hc. rewrite (drop_S _ _ _ Ex).
  exists (drop c x :: drop (S l) (lines doc)). split; [done|]. split.
  - constructor; [|by apply Forall_drop].
    apply Forall_drop. rewrite Forall_lookup in Hls. by eapply Hls.
  - destruct (drop (S l) (lines doc)) as [|y rest] eqn:Ed; [done|].
    rewrite !joinLines_cons by done. by rewrite drop_app_le.
Qed.

Lemma replace_lines p hdr :
  noEol hdr →
  ∃ Lq, Lq ≠ []
    ∧ lines (applyEdit doc (EditReplace (MkRange (MkPosition 0 0) p) (hdr ++ nl)))
      = [hdr] ++ Lq
    ∧ joinLines nl Lq = drop (offsetAt doc p) (getText doc).
Proof using Hwf.
  intros Hhdr. destruct (drop_offsetAt p) as (Lq & HLq & Hno & Hdrop).
  exists Lq. split; [done|]. split; [|done].
  cbn [applyEdit lines setText r_start r_end].
  rewrite offsetAt_zero, Hdrop, take_0, app_nil_l, <- (assoc_L (++)).
  unfold nl. rewrite splitLines_break by done.
  by rewrite splitLines_joinLines.
Qed.

(** Replacing up to a position leaves everything from that position on
    as it was, whatever the new text is, if it ends in the line break. *)
Lemma replace_text p body :
  ∃ new,
    getText (applyEdit doc (EditReplace (MkRange (MkPosition 0 0) p) (body ++ nl)))
    = new ++ drop (offsetAt doc p) (getText doc)
    ∧ (noEol body → new = body ++ nl).
Proof using Hwf.
  destruct (drop_offsetAt p) as (Lq & HLq & Hno & Hdrop).
  assert (∃ t, body ++ nl = t ++ [Chr.LF]) as [t Ht].
  { unfold nl. destruct (eol doc); simpl; [by exists body|].
    exists (body ++ [Chr.CR]). by rewrite <- (assoc_L (++)). }
  destruct (splitLines_through_LF t) as (X & HX & HXb).
  exists (withBreaks nl X). split.
  - unfold getText at 1. cbn [applyEdit lines setText r_start r_end eol].
    rewrite offsetAt_zero, Hdrop, take_0, app_nil_l.
    rewrite Ht, <- (assoc_L (++)). cbn [app]. rewrite HXb.
    unfold nl. rewrite splitLines_joinLines by done.
    by rewrite joinLines_app.
  - intros Hbody. specialize (HXb []). rewrite <- Ht in HXb.
    rewrite <- (app_nil_r nl) in HXb at 1. unfold nl in HXb.
    rewrite splitLines_break in HXb by done.
    change (body :: splitLines []) with ([body] ++ [[]]) in HXb.
    change (splitLines []) with ([[]] : list (list N)) in HXb.
    apply app_inj_tail in HXb as [<- _]. by rewrite withBreaks_singleton.
Qed.
End edits.

Section insert.
Context (doc : TextDocument) (Hwf : wfDoc doc) (Hsh : hasShebang doc = false).
Let nl := eolText (eol doc).

Lemma insert_lines hdr :
  noEol hdr →
  ∃ Lp Lq ws1,
    lines (applyEdit doc (EditInsert (insertionPosition doc) (hdr ++ nl))) = Lp ++ Lq
    ∧ Lq ≠ []
    ∧ length Lp = S (line (validatePosition doc (insertionPosition doc)))
    ∧ withBreaks nl Lp = ws1 ++ hdr ++ nl ∧ isSpaces ws1.
Proof using Hwf Hsh.
  intros Hhdr. destruct Hwf as [Hne Hls].
  rewrite insertionPosition_line, Hsh, drop_0, Nat.add_0_l.
  set (k := length (takeWhile isBlank (lines doc))).
  assert (Hk : take k (lines doc) = takeWhile isBlank (lines doc))
    by (symmetry; apply takeWhile_prefix).
  assert (Hblank : Forall isSpaces (take k (lines doc))).
  { rewrite Hk. eapply Forall_impl; [apply takeWhile_Forall|].
    intros l Hl. by apply isBlank_isSpaces. }
  assert (Hnl : isSpaces nl) by apply isSpaces_eolText.
  cbn [applyEdit lines setText].
  destruct (decide (k < lineCount doc)) as [Hlt|Hge].
  - assert (Hv : validatePosition doc (MkPosition k 0) = MkPosition k 0).
    { unfold validatePosition. cbn [line character].
      by assert ((lineCount doc <=? k) = false) as -> by (apply Nat.leb_gt; lia). }
    rewrite Hv. cbn [line]. rewrite offsetAt_line_start by done.
    rewrite (getText_split doc k Hlt), lineStart_withBreaks.
    rewrite take_app_length, drop_app_length.
    assert (Hd : drop k (lines doc) ≠ []).
    { intros E. apply (f_equal length) in E. rewrite length_drop in E.
      unfold lineCount in Hlt. simpl in E. lia. }
    exists (take k (lines doc) ++ [hdr]), (drop k (lines doc)),
      (withBreaks nl (take k (lines doc))).
    split; [|split; [done|split; [|split]]].
    + rewrite <- (splitLines_joinLines (eol doc)
                    ((take k (lines doc) ++ [hdr]) ++ drop k (lines doc))).
      * f_equal. rewrite joinLines_app, withBreaks_app, withBreaks_singleton by done.
        by rewrite <- !(assoc_L (++)).
      * by destruct (take k (lines doc)).
      * rewrite !Forall_app. split; [split|].
        -- by apply Forall_take.
        -- by constructor.
        -- by apply Forall_drop.
    + rewrite length_app, length_take. unfold lineCount in Hlt. simpl. lia.
    + by rewrite withBreaks_app, withBreaks_singleton.
    + by apply isSpaces_withBreaks.
  - assert (Hkn : k = lineCount doc).
    { pose proof (takeWhile_length_le isBlank (lines doc)). unfold lineCount, k in *. lia. }
    assert (Hall : Forall isSpaces (lines doc)).
    { rewrite <- (take_ge (lines doc) k) by (unfold lineCount in Hkn; lia). done. }
    rewrite offsetAt_beyond by (done || lia).
    rewrite take_ge, drop_ge, app_nil_r by lia.
    assert (Hvl : line (validatePosition doc (MkPosition k 0)) = lineCount doc - 1).
    { unfold validatePosition. cbn [line character].
      by assert ((lineCount doc <=? k) = true) as -> by (apply Nat.leb_le; lia). }
    rewrite Hvl.
    assert (∃ ls0 l0, lines doc = ls0 ++ [l0]) as (ls0 & l0 & El).
    { exists (removelast (lines doc)), (List.last (lines doc) []).
      by apply app_removelast_last. }
    unfold getText, lineCount. rewrite El in *. rewrite length_app. simpl.
    rewrite Forall_app, Forall_singleton in Hls. destruct Hls as [Hls1 Hls2].
    rewrite Forall_app, Forall_singleton in Hall. destruct Hall as [Ha1 Ha2].
    exists (ls0 ++ [l0 ++ hdr]), [[]], (withBreaks nl ls0 ++ l0).
    split; [|split; [done|split; [|split]]].
    + rewrite <- (splitLines_joinLines (eol doc) ((ls0 ++ [l0 ++ hdr]) ++ [[]])).
      * f_equal. rewrite !joinLines_app, withBreaks_app, withBreaks_singleton by done.
        simpl. by rewrite <- !(assoc_L (++)), app_nil_r.
      * by destruct ls0.
      * rewrite !Forall_app. split; [split|]; [done| |by repeat constructor].
        constructor; [|done]. unfold noEol in *. by rewrite Forall_app.
    + rewrite length_app. simpl. lia.
    + rewrite withBreaks_app, withBreaks_singleton. by rewrite <- !(assoc_L (++)).
    + apply Forall_app. split; [by apply isSpaces_withBreaks|done].
Qed.
End insert.

(** ** What [exec] finds *)

Section exec_header.
Context (start label end_ : list N).
Let re := MkRegExp (headerTerms start label end_) 1.

Lemma exec_header_sound text m :
  exec re text = Some m →
  ∃ ws1 ws2 path tail,
    text = ws1 ++ start ++ label ++ [58%N] ++ ws2 ++ path ++ end_ ++ tail
    ∧ isSpaces ws1 ∧ isSpaces ws2 ∧ path ≠ [] ∧ noLineTerminator path
    ∧ m = MkMatch 0
            [Some (ws1 ++ start ++ label ++ [58%N] ++ ws2 ++ path ++ end_
                   ++ lineBreakAt tail);
             Some path].
Proof.
  unfold re. rewrite exec_matchAt. unfold matchAt.
  cbn [re_terms re_groups replicate].
  destruct (mtchSeq _ _ _) as [s|] eqn:E; [|done].
  apply header_run_sound in E
    as (_ & ws1 & ws2 & path & tail & -> & H1 & H2 & H3 & H4 & ->).
  intros [= <-]. exists ws1, ws2, path, tail. repeat split; try done.
  cbn [endIndex captures]. f_equal. rewrite Nat.sub_0_r.
  rewrite <- (lineBreakAt_prefix tail) at 2. simpl. f_equal. f_equal.
  match goal with |- take (length ?a) ?b = _ =>
    replace b with (a ++ drop (length (lineBreakAt tail)) tail)
      by (repeat (rewrite <- !(assoc_L (++)) || rewrite <- !app_comm_cons); done)
  end.
  apply take_app_length.
Qed.

Lemma exec_header_complete ws1 ws2 path tail :
  isSpaces ws1 → isSpaces ws2 → path ≠ [] → noLineTerminator path →
  is_Some (exec re (ws1 ++ start ++ label ++ [58%N] ++ ws2 ++ path ++ end_ ++ tail)).
Proof.
  intros H1 H2 H3 H4. unfold re. rewrite exec_matchAt. unfold matchAt.
  cbn [re_terms re_groups replicate].
  destruct (header_run_complete start label end_ ws1 ws2 path tail
              [None; None] H1 H2 H3 H4) as [s ->].
  by eexists.
Qed.
End exec_header.

Lemma lineBreakAt_eolText eol rest :
  lineBreakAt (eolText eol ++ rest) = eolText eol.
Proof. by destruct eol. Qed.

Lemma lineBreakAt_cases tail :
  lineBreakAt tail = []
  ∨ last (lineBreakAt tail) = Some Chr.LF
  ∨ (lineBreakAt tail = [Chr.CR]
     ∧ head (drop (length (lineBreakAt tail)) tail) ≠ Some Chr.LF).
Proof.
  unfold lineBreakAt. destruct tail as [|c tail]; [by left|].
  destruct (c =? Chr.CR)%N eqn:E1.
  - destruct tail as [|d tail]; [right; right; by split|].
    destruct (d =? Chr.LF)%N eqn:E2; [right; by left|].
    right; right. split; [done|]. simpl. intros [= ->]. done.
  - destruct (c =? Chr.LF)%N; [right|]; by left.
Qed.

(** ** The synchronizer in the active editor *)

Section sync.
Context (h : Host) (doc : TextDocument).
Let label := configuredLabel h.
Let tokens := tableTokens (languageId doc).
Let re := MkRegExp (headerTerms (tokStart tokens) label (tokEnd tokens)) 1.

Lemma ensureHeader_active :
  languageId doc ∉ objectPrototypeKeys →
  activeTextEditor h = Some (docId doc) →
  ensureHeader h doc
  = Returned
      [EditorEdit (docId doc)
         (headerEdits doc (exec re (firstChunk doc)) (asRelativePath h (uri doc))
            (headerText tokens label (asRelativePath h (uri doc)) (eol doc)))].
Proof.
  intros Hk Ha. unfold ensureHeader. rewrite Ha, Nat.eqb_refl. cbn [negb].
  rewrite (getCommentTokens_own _ Hk). by rewrite headerRegex_parses.
Qed.

(** In the active editor, an identifier that names a property of
    [Object.prototype] makes both revisions throw. *)
Lemma ensureHeader_inherited :
  languageId doc ∈ objectPrototypeKeys →
  activeTextEditor h = Some (docId doc) →
  ensureHeader h doc = Threw ∧ Rev2.ensureHeader h doc = Threw.
Proof.
  intros Hk Ha. unfold ensureHeader, Rev2.ensureHeader.
  rewrite Ha, Nat.eqb_refl. cbn [negb].
  by rewrite (getCommentTokens_inherited _ Hk).
Qed.

Lemma ensureHeader_returned :
  activeTextEditor h = Some (docId doc) →
  ensureHeader h doc ≠ Threw ∨ Rev2.ensureHeader h doc ≠ Threw →
  languageId doc ∉ objectPrototypeKeys.
Proof.
  intros Ha Hr Hk. destruct (ensureHeader_inherited Hk Ha) as [E1 E2].
  by destruct Hr.
Qed.

Lemma afterOutcome_edit edits :
  afterOutcome doc (Returned [EditorEdit (docId doc) edits]) = applyEdits doc edits.
Proof. unfold afterOutcome. simpl. by rewrite Nat.eqb_refl. Qed.

(** The end of the matched text is the offset of a position. *)
Lemma match_end_valid m :
  wfDoc doc → exec re (firstChunk doc) = Some m →
  ∃ m0 path,
    m = MkMatch 0 [Some m0; Some path] ∧ path ≠ []
    ∧ take (length m0) (getText doc) = m0
    ∧ validOffset (lines doc) (length (eolText (eol doc))) (length m0).
Proof.
  intros [Hne Hls] Hm.
  apply exec_header_sound in Hm
    as (ws1 & ws2 & path & tail & Hchunk & _ & _ & Hpne & Hpath & ->).
  eexists _, path. split; [done|]. split; [done|].
  set (pre := ws1 ++ tokStart tokens ++ label ++ [58%N] ++ ws2 ++ path
              ++ tokEnd tokens) in *.
  assert (Hm0 : ws1 ++ tokStart tokens ++ label ++ [58%N] ++ ws2 ++ path
                ++ tokEnd tokens ++ lineBreakAt tail = pre ++ lineBreakAt tail)
    by (unfold pre; by rewrite <- !(assoc_L (++))).
  rewrite Hm0. clear Hm0.
  assert (Hc : firstChunk doc = (pre ++ lineBreakAt tail)
                                ++ drop (length (lineBreakAt tail)) tail).
  { rewrite Hchunk. unfold pre. rewrite <- !(assoc_L (++)).
    by rewrite lineBreakAt_prefix. }
  set (m0 := pre ++ lineBreakAt tail) in *.
  set (tail' := drop (length (lineBreakAt tail)) tail) in *.
  set (M := offsetAt doc (MkPosition (10 `min` lineCount doc) 0)).
  assert (HM : M ≤ length (getText doc)) by (by apply offsetAt_le).
  assert (HT : getText doc = m0 ++ tail' ++ drop M (getText doc)).
  { rewrite <- (take_drop M (getText doc)) at 1.
    unfold M at 1. rewrite <- firstChunk_prefix, Hc. by rewrite <- (assoc_L (++)). }
  split; [by rewrite HT, take_app_length|].
  assert (Hlen : length m0 + length tail' = M).
  { apply (f_equal length) in Hc. rewrite firstChunk_prefix in Hc. fold M in Hc.
    rewrite length_take_le, length_app in Hc by done. lia. }
  destruct (decide (tail' = [])) as [Ht|Ht].
  { rewrite Ht in Hlen. simpl in Hlen. rewrite Nat.add_0_r in Hlen.
    rewrite Hlen. by apply offsetAt_validOffset. }
  destruct (validOffset_or_inside_break (eol doc) (lines doc) (length m0) Hne Hls)
    as [Hv|(Hpos & Hcr & Hlf)]; [|done|exfalso].
  { fold (getText doc). lia. }
  fold (getText doc) in Hcr, Hlf. rewrite HT in Hcr, Hlf.
  rewrite lookup_app_l in Hcr by lia.
  rewrite lookup_app_r, Nat.sub_diag in Hlf by lia.
  rewrite lookup_app_l in Hlf by (destruct tail'; [done|simpl; lia]).
  replace (length m0 - 1) with (Init.Nat.pred (length m0)) in Hcr by lia.
  rewrite <- last_lookup in Hcr.
  assert (Hlast : ∃ c, last pre = Some c ∧ isLineTerminator c = false).
  { pose proof (tableTokens_ok (languageId doc)) as Hok.
    apply tokensOkb_spec in Hok as (_ & _ & Hend). fold tokens in Hend.
    unfold pre. rewrite !(assoc_L (++)).
    rewrite last_app. destruct (last (tokEnd tokens)) as [c|] eqn:El.
    - exists c. split; [done|]. apply last_Some in El as [l' El].
      unfold noLineTerminator in Hend.
      rewrite El, Forall_app, Forall_singleton in Hend. by destruct Hend.
    - rewrite last_app. destruct (last path) as [c|] eqn:Ep.
      + exists c. split; [done|]. apply last_Some in Ep as [l' Ep].
        unfold noLineTerminator in Hpath.
        rewrite Ep, Forall_app, Forall_singleton in Hpath. by destruct Hpath.
      + apply last_None in Ep. done. }
  destruct Hlast as (c & Hc1 & Hc2).
  unfold m0 in Hcr. rewrite last_app in Hcr.
  destruct (lineBreakAt_cases tail) as [E|[E|[E1 E2]]].
  - rewrite E in Hcr. simpl in Hcr. rewrite Hc1 in Hcr. by injection Hcr as ->.
  - rewrite E in Hcr. done.
  - fold tail' in E2. apply E2. by destruct tail'.
Qed.
End sync.

(** ** Running the synchronizer twice *)

Lemma applyEdit_meta doc e :
  docId (applyEdit doc e) = docId doc ∧ uri (applyEdit doc e) = uri doc
  ∧ languageId (applyEdit doc e) = languageId doc
  ∧ eol (applyEdit doc e) = eol doc.
Proof. by destruct e. Qed.

Lemma noEol_headerLine tokens label rel :
  tokensOkb tokens = true → noEol label → noLineTerminator rel →
  noEol (headerLine tokens label rel).
Proof.
  intros Htok Hl Hr. apply tokensOkb_spec in Htok as (_ & Hs & He).
  unfold headerLine, noEol. rewrite !Forall_app.
  repeat split; try (by apply noLineTerminator_noEol); try done.
  by repeat constructor.
Qed.

Lemma noEol_tokens languageId :
  noEol (tokStart (tableTokens languageId))
  ∧ noEol (tokEnd (tableTokens languageId)).
Proof.
  pose proof (tableTokens_ok languageId) as Hok.
  apply tokensOkb_spec in Hok as (_ & Hs & He).
  split; by apply noLineTerminator_noEol.
Qed.

Lemma noEol_headerLine_eol languageId label rel :
  noEol label → noEol rel →
  noEol (headerLine (tableTokens languageId) label rel).
Proof.
  intros Hl Hr. destruct (noEol_tokens languageId) as [Hs He].
  unfold headerLine, noEol in *. rewrite !Forall_app.
  repeat split; try done. by repeat constructor.
Qed.

Lemma second_run_noop (h : Host) (doc doc1 : TextDocument) m0 captured :
  languageId doc ∉ objectPrototypeKeys →
  activeTextEditor h = Some (docId doc) →
  docId doc1 = docId doc → uri doc1 = uri doc → languageId doc1 = languageId doc →
  exec (MkRegExp (headerTerms (tokStart (tableTokens (languageId doc)))
                    (configuredLabel h)
                    (tokEnd (tableTokens (languageId doc)))) 1)
    (firstChunk doc1)
  = Some (MkMatch 0 [Some m0; Some captured]) →
  captured ≠ [] → trim captured = asRelativePath h (uri doc) →
  ensureHeader h doc1 = Returned [EditorEdit (docId doc) []].
Proof.
  intros Hk Ha Hid Huri Hlang Hex Hne Htrim.
  rewrite ensureHeader_active by (by rewrite ?Hid, ?Hlang).
  rewrite Hid, Huri, Hlang, Hex. by rewrite headerEdits_noop.
Qed.

(** C1, as amended: for a document whose lines hold no line break, shown
    in the active editor, a label without CR or LF and a target path that
    is not empty, holds no line terminator and has no white space at
    either end: when the first run returned, and replaced a header or
    left it alone, or inserted one on one of the first ten lines of a
    document that does not start with a shebang line, the comment tokens
    of the language are of the declared type and the second run finds a
    header whose captured path, trimmed, is the target path, registers no
    edit, and the document stays as the first run left it. *)
Theorem ensureHeader_twice_registers_no_edit (h : Host) (doc : TextDocument) :
  wfDoc doc → activeTextEditor h = Some (docId doc) →
  ensureHeader h doc ≠ Threw →
  asRelativePath h (uri doc) ≠ [] →
  noLineTerminator (asRelativePath h (uri doc)) →
  trim (asRelativePath h (uri doc)) = asRelativePath h (uri doc) →
  noEol (configuredLabel h) →
  (∀ p t, ensureHeader h doc = Returned [EditorEdit (docId doc) [EditInsert p t]] →
          hasShebang doc = false ∧ line (validatePosition doc p) < 10) →
  (∃ tokens re matched captured,
     getCommentTokens (languageId doc) = Typed tokens
     ∧ headerRegex tokens (configuredLabel h) = Some re
     ∧ exec re (firstChunk (afterOutcome doc (ensureHeader h doc)))
       = Some (MkMatch 0 [Some matched; Some captured])
     ∧ trim captured = asRelativePath h (uri doc))
  ∧ ensureHeader h (afterOutcome doc (ensureHeader h doc))
    = Returned [EditorEdit (docId doc) []]
  ∧ afterOutcome (afterOutcome doc (ensureHeader h doc))
      (ensureHeader h (afterOutcome doc (ensureHeader h doc)))
    = afterOutcome doc (ensureHeader h doc).
Proof.
  intros Hwf Ha Hret Hne Hrel Htrim Hlabel Hins.
  assert (Hk : languageId doc ∉ objectPrototypeKeys)
    by (apply (ensureHeader_returned h doc Ha); by left).
  clear Hret.
  set (rel := asRelativePath h (uri doc)) in *.
  set (label := configuredLabel h) in *.
  set (tokens := tableTokens (languageId doc)).
  set (re := MkRegExp (headerTerms (tokStart tokens) label (tokEnd tokens)) 1).
  set (doc' := afterOutcome doc (ensureHeader h doc)).
  assert (Hok : tokensOkb tokens = true) by apply tableTokens_ok.
  assert (Hhdr : noEol (headerLine tokens label rel)) by (by apply noEol_headerLine).
  assert (Hhead : ∀ c, head rel = Some c → isSpace c = false)
    by (intros c; by apply trim_fixed_head).
  assert (Hmeta : docId doc' = docId doc ∧ uri doc' = uri doc
                  ∧ languageId doc' = languageId doc).
  { unfold doc'. rewrite (ensureHeader_active h doc Hk Ha), afterOutcome_edit.
    destruct (headerEdits _ _ _ _) as [|e [|e' es]] eqn:Ee.
    - done.
    - cbn [applyEdits foldl]. by destruct (applyEdit_meta doc e) as (? & ? & ? & _).
    - unfold headerEdits in Ee. destruct (exec _ _); [|done].
      by destruct (decide _). }
  destruct Hmeta as (Hid & Huri & Hlang).
  assert (E3 : ∃ matched captured,
             exec re (firstChunk doc') = Some (MkMatch 0 [Some matched; Some captured])
             ∧ captured ≠ [] ∧ trim captured = rel).
  { pose proof (ensureHeader_active h doc Hk Ha) as E1.
    fold rel label tokens re in E1. rewrite headerText_headerLine in E1.
    unfold doc'.
    destruct (exec re (firstChunk doc)) as [m|] eqn:Em.
    - destruct (match_end_valid h doc m Hwf Em) as (m0 & path & -> & Hp & _ & _).
      unfold headerEdits in E1.
      change (group (MkMatch 0 [Some m0; Some path]) 1) with (Some path) in E1.
      change (group (MkMatch 0 [Some m0; Some path]) 0) with (Some m0) in E1.
      cbv beta iota zeta in E1.
      assert (truthy path = true) as Htr by (by destruct path).
      rewrite Htr in E1.
      destruct (decide (trim path ≠ rel)) as [Hd|Hd].
      + rewrite E1, afterOutcome_edit. cbn [applyEdits foldl].
        destruct (replace_lines doc Hwf (positionAt doc (length (default [] (Some m0))))
                    _ Hhdr) as (Lq & HLq & Hl & _).
        assert (Heol : eol (applyEdit doc
                  (EditReplace (MkRange (MkPosition 0 0)
                     (positionAt doc (length (default [] (Some m0)))))
                     (headerLine tokens label rel ++ eolText (eol doc)))) = eol doc)
          by done.
        set (d1 := applyEdit doc _) in *.
        destruct (exec_sees_header d1 tokens label rel [headerLine tokens label rel]
                    Lq [] Hok Hne Hrel Hhead Hl HLq) as [m1 Hm1].
        { simpl. lia. }
        { rewrite Heol. by rewrite withBreaks_singleton. }
        { constructor. }
        by exists m1, rel.
      + rewrite E1, afterOutcome_edit. cbn [applyEdits foldl].
        exists m0, path. split; [done|]. split; [done|].
        by destruct (decide (trim path = rel)).
    - cbn [headerEdits] in E1.
      destruct (Hins _ _ E1) as [Hsh H10].
      rewrite E1, afterOutcome_edit. cbn [applyEdits foldl].
      destruct (insert_lines doc Hwf Hsh _ Hhdr)
        as (Lp & Lq & ws1 & Hl & HLq & HLp & Hw & Hws).
      assert (Heol : eol (applyEdit doc
                (EditInsert (insertionPosition doc)
                   (headerLine tokens label rel ++ eolText (eol doc)))) = eol doc)
        by done.
      set (d1 := applyEdit doc _) in *.
      destruct (exec_sees_header d1 tokens label rel Lp Lq ws1
                  Hok Hne Hrel Hhead Hl HLq) as [m1 Hm1].
      { lia. }
      { by rewrite Heol. }
      { done. }
      by exists m1, rel. }
  destruct E3 as (matched & captured & Hex & Hcne & Hcap).
  assert (E2 : ensureHeader h doc' = Returned [EditorEdit (docId doc) []])
    by (by eapply second_run_noop).
  split.
  { exists tokens, re, matched, captured.
    split; [apply (getCommentTokens_own _ Hk)|].
    split; [apply headerRegex_parses|done]. }
  split; [done|]. rewrite E2. unfold afterOutcome at 1. simpl.
  by destruct (docId doc =? docId doc').
Qed.

(** ** The pattern and its matches *)

Lemma lineBreakAt_isLineBreak tail : isLineBreak (lineBreakAt tail).
Proof.
  unfold lineBreakAt, isLineBreak. destruct tail as [|c tail]; [by left|].
  destruct (c =? Chr.CR)%N.
  - destruct tail as [|d tail]; [by right; left|].
    destruct (d =? Chr.LF)%N; [by right; right; right|by right; left].
  - destruct (c =? Chr.LF)%N; [by right; right; left|by left].
Qed.

Lemma firstChunk_lines doc :
  lines doc ≠ [] →
  firstChunk doc
  = if decide (lineCount doc ≤ 10) then getText doc
    else withBreaks (eolText (eol doc)) (take 10 (lines doc)).
Proof.
  intros Hne. rewrite firstChunk_prefix. case_decide as Hn.
  - rewrite Nat.min_r by done. rewrite offsetAt_beyond by done. by rewrite take_ge.
  - rewrite Nat.min_l by lia. rewrite offsetAt_line_start by lia.
    rewrite (getText_split doc 10) by lia.
    by rewrite lineStart_withBreaks, take_app_length.
Qed.

(** C7, as amended: both revisions build, for every prefix, label and
    suffix, a pattern that parses to the same terms, in which every
    character of the three literals stands for itself ([headerTerms]); it
    accepts a text exactly when the text begins with a segment made of
    optional white space, the prefix, the label, a colon, optional white
    space, a non-empty path without line terminators, the suffix of a
    block style and an optional line break; the matched text is such a
    segment at index 0, with the path as group 1.  What follows the
    segment is not looked at. *)
Theorem headerRegex_accepts_exactly_header_prefixes tokens label :
  ∃ re,
    headerRegex tokens label = Some re ∧ Rev2.headerRegex tokens label = Some re
    ∧ re_terms re = headerTerms (tokStart tokens) label (tokEnd tokens)
    ∧ (∀ text, is_Some (exec re text)
               ↔ ∃ pre post, text = pre ++ post ∧ headerForm tokens label pre)
    ∧ (∀ text m, exec re text = Some m →
         ∃ pre post path,
           text = pre ++ post ∧ headerForm tokens label pre
           ∧ m = MkMatch 0 [Some pre; Some path]).
Proof.
  eexists. split; [apply headerRegex_parses|].
  split; [apply Rev2_headerRegex_parses|]. split; [done|].
  assert (Hsound : ∀ text m,
    exec (MkRegExp (headerTerms (tokStart tokens) label (tokEnd tokens)) 1) text
    = Some m →
    ∃ pre post path, text = pre ++ post ∧ headerForm tokens label pre
                     ∧ m = MkMatch 0 [Some pre; Some path]).
  { intros text m Hm.
    apply exec_header_sound in Hm
      as (ws1 & ws2 & path & tail & -> & H1 & H2 & H3 & H4 & ->).
    eexists _, (drop (length (lineBreakAt tail)) tail), path.
    split; [|split; [|done]].
    - rewrite <- !(assoc_L (++)). by rewrite lineBreakAt_prefix.
    - exists ws1, ws2, path, (lineBreakAt tail).
      split; [done|]. repeat split; try done. apply lineBreakAt_isLineBreak. }
  split; [|done]. intros text. split.
  - intros [m Hm]. destruct (Hsound _ _ Hm) as (pre & post & _ & -> & Hf & _).
    by exists pre, post.
  - intros (pre & post & -> & ws1 & ws2 & path & nl & -> & H1 & H2 & H3 & H4 & _).
    rewrite <- !(assoc_L (++)). by apply exec_header_complete.
Qed.

(** Where a header pattern matches: at index 0, after white space only. *)
Lemma header_match_anchored start label end_ text m :
  exec (MkRegExp (headerTerms start label end_) 1) text = Some m →
  m_index m = 0
  ∧ ∃ ws body post,
      isSpaces ws
      ∧ text = ws ++ body ++ post
      ∧ group m 0 = Some (ws ++ body)
      ∧ (start ++ label ++ [58%N]) `prefix_of` body
      ∧ ∀ before rest, text = before ++ rest → ¬ isSpaces before →
          length before ≠ length ws.
Proof.
  intros Hm.
  apply exec_header_sound in Hm
    as (ws1 & ws2 & path & tail & -> & H1 & H2 & H3 & H4 & ->).
  split; [done|].
  exists ws1, (start ++ label ++ [58%N] ++ ws2 ++ path ++ end_ ++ lineBreakAt tail),
    (drop (length (lineBreakAt tail)) tail).
  split; [done|]. split.
  { rewrite <- !(assoc_L (++)). by rewrite lineBreakAt_prefix. }
  split; [done|]. split.
  { eexists. by rewrite <- !(assoc_L (++)). }
  intros before rest E Hns Hlen. apply Hns.
  apply (f_equal (take (length ws1))) in E.
  rewrite take_app_length, <- Hlen, take_app_length in E. by subst.
Qed.

(** C5: the search for an existing header (either revision's pattern) can
    only succeed at index 0: the pattern is anchored with [^], there is no
    multiline flag, and what precedes the prefix inside the match is white
    space only, line breaks included.  So the matched span starts at
    offset 0 and takes in the white space and blank lines above the
    header, and a header that comes after any character that is not white
    space (a shebang line, a line of code) is not the one found, wherever
    it lies in the scanned chunk. *)
Theorem header_search_starts_at_offset_zero tokens label re text m :
  headerRegex tokens label = Some re ∨ Rev2.headerRegex tokens label = Some re →
  exec re text = Some m →
  m_index m = 0
  ∧ ∃ ws body post,
      isSpaces ws
      ∧ text = ws ++ body ++ post
      ∧ group m 0 = Some (ws ++ body)
      ∧ (tokStart tokens ++ label ++ [58%N]) `prefix_of` body
      ∧ ∀ before rest, text = before ++ rest → ¬ isSpaces before →
          length before ≠ length ws.
Proof.
  intros Hre Hm.
  assert (re = MkRegExp (headerTerms (tokStart tokens) label (tokEnd tokens)) 1) as ->.
  { rewrite headerRegex_parses, Rev2_headerRegex_parses in Hre.
    by destruct Hre as [[= <-]|[= <-]]. }
  by apply (header_match_anchored _ _ (tokEnd tokens)).
Qed.

(** ** The decision, the replaced span, the insertion position *)

(** C2: for a document as the editor keeps it, shown in the active editor,
    in a language whose comment tokens are of the declared type, the chunk
    searched is the text of the first min(10, lineCount) lines, and the
    edit registered is: with no match, the insertion of the rendered text
    at [insertionPosition]; with a match whose captured path, trimmed, is
    the target path, none; with a match whose captured path differs, the
    replacement by the rendered text of the range that starts at offset 0
    and ends at the offset that is the length of the matched text.  The
    matched text is a prefix of the document and takes in the line break
    that directly follows the header: the white space in front, prefix,
    label, colon, white space, the captured path, the suffix, and then the
    CR and the LF found there, which is the document's line break when
    the header is followed by one. *)
Theorem ensureHeader_decision (h : Host) (doc : TextDocument) tokens :
  wfDoc doc → activeTextEditor h = Some (docId doc) →
  getCommentTokens (languageId doc) = Typed tokens →
  let label := configuredLabel h in
  let rel := asRelativePath h (uri doc) in
  let txt := headerText tokens label rel (eol doc) in
  ∃ re,
    headerRegex tokens label = Some re
    ∧ firstChunk doc
      = (if decide (lineCount doc ≤ 10) then getText doc
         else withBreaks (eolText (eol doc)) (take 10 (lines doc)))
    ∧ match exec re (firstChunk doc) with
      | None =>
          ensureHeader h doc
          = Returned [EditorEdit (docId doc) [EditInsert (insertionPosition doc) txt]]
      | Some m =>
          ∃ matched captured,
            m = MkMatch 0 [Some matched; Some captured]
            ∧ take (length matched) (getText doc) = matched
            ∧ (∃ ws1 ws2 tail,
                 firstChunk doc
                 = ws1 ++ tokStart tokens ++ label ++ [58%N] ++ ws2 ++ captured
                   ++ tokEnd tokens ++ tail
                 ∧ matched
                   = ws1 ++ tokStart tokens ++ label ++ [58%N] ++ ws2 ++ captured
                     ++ tokEnd tokens ++ lineBreakAt tail
                 ∧ (tail = [] → lineBreakAt tail = [])
                 ∧ (∀ rest, tail = eolText (eol doc) ++ rest →
                      lineBreakAt tail = eolText (eol doc)))
            ∧ if decide (trim captured = rel)
              then ensureHeader h doc = Returned [EditorEdit (docId doc) []]
              else ∃ end_,
                ensureHeader h doc
                = Returned [EditorEdit (docId doc)
                              [EditReplace (MkRange (MkPosition 0 0) end_) txt]]
                ∧ offsetAt doc (MkPosition 0 0) = 0
                ∧ offsetAt doc end_ = length matched
      end.
Proof.
  intros Hwf Ha Htok label rel txt.
  destruct (getCommentTokens_Typed _ _ Htok) as [Heq Hk].
  eexists. split; [apply headerRegex_parses|].
  split; [apply firstChunk_lines, Hwf|].
  rewrite (ensureHeader_active h doc Hk Ha), <- Heq. fold label rel txt.
  destruct (exec _ (firstChunk doc)) as [m|] eqn:Em; [|done].
  destruct (exec_header_sound _ _ _ _ _ Em)
    as (ws1 & ws2 & path & tail & Hc & _ & _ & _ & _ & Hm).
  rewrite Heq in Em.
  destruct (match_end_valid h doc m Hwf Em) as (m0 & path' & Hm' & Hp & Hpre & Hv).
  assert (Hm0 : Some m0 = Some (ws1 ++ tokStart tokens ++ label ++ [58%N] ++ ws2 ++ path
                            ++ tokEnd tokens ++ lineBreakAt tail)
                ∧ Some path' = Some path).
  { rewrite Hm in Hm'. clear -Hm'.
    split; [exact (f_equal (λ x, default None (m_groups x !! 0)) (eq_sym Hm'))
           |exact (f_equal (λ x, default None (m_groups x !! 1)) (eq_sym Hm'))]. }
  destruct Hm0 as [Hm0 Hpath]. apply (inj Some) in Hm0, Hpath. subst path'.
  exists m0, path. split; [done|]. split; [done|].
  split.
  { exists ws1, ws2, tail. split; [done|]. split; [done|].
    split; [by intros ->|]. intros rest ->. apply lineBreakAt_eolText. }
  unfold headerEdits. rewrite Hm'.
  change (group (MkMatch 0 [Some m0; Some path]) 1) with (Some path).
  change (group (MkMatch 0 [Some m0; Some path]) 0) with (Some m0).
  cbv beta iota zeta.
  assert (truthy path = true) as -> by (by destruct path).
  destruct (decide (trim path = rel)) as [He|He].
  - by rewrite decide_False by (by intros []).
  - rewrite decide_True by done. eexists. split; [done|].
    split; [apply offsetAt_zero|]. by apply offsetAt_positionAt.
Qed.

Lemma dropLastIf_snoc p a c :
  dropLastIf p (a ++ [c]) = if p c then a else a ++ [c].
Proof.
  unfold dropLastIf. rewrite reverse_app. cbn [reverse rev_append app].
  destruct (p c); [apply reverse_involutive|done].
Qed.

Lemma matchedHeader_match ws hdr tail c d rest :
  isSpaces ws → hdr = c :: rest → isSpace c = false →
  last hdr = Some d → isLineTerminator d = false →
  matchedHeader (ws ++ hdr ++ lineBreakAt tail) = hdr.
Proof.
  intros Hws Hhd Hc Hlast Hd.
  assert (Hd' : (d =? Chr.LF)%N = false ∧ (d =? Chr.CR)%N = false).
  { unfold isLineTerminator in Hd. apply orb_false_elim in Hd as [Hd _].
    apply orb_false_elim in Hd as [Hd _]. apply orb_false_elim in Hd as [H1 H2].
    by split. }
  destruct Hd' as [Hlf Hcr].
  apply last_Some in Hlast as [pre Hpre].
  assert (E : dropLastIf (λ c, c =? Chr.CR)%N
                (dropLastIf (λ c, c =? Chr.LF)%N (ws ++ hdr ++ lineBreakAt tail))
              = ws ++ hdr).
  { destruct (lineBreakAt_isLineBreak tail) as [-> | [-> | [-> | ->]]].
    - rewrite app_nil_r, Hpre, (assoc_L (++)), dropLastIf_snoc. cbv beta.
      rewrite Hlf, dropLastIf_snoc. cbv beta. by rewrite Hcr.
    - rewrite (assoc_L (++) ws), dropLastIf_snoc. cbv beta.
      change (Chr.CR =? Chr.LF)%N with false. cbv iota.
      rewrite dropLastIf_snoc. cbv beta. by rewrite N.eqb_refl.
    - rewrite (assoc_L (++) ws), dropLastIf_snoc. cbv beta.
      rewrite N.eqb_refl, Hpre, (assoc_L (++)), dropLastIf_snoc. cbv beta.
      by rewrite Hcr.
    - change [Chr.CR; Chr.LF] with ([Chr.CR] ++ [Chr.LF]).
      rewrite !(assoc_L (++)), dropLastIf_snoc. cbv beta.
      rewrite N.eqb_refl, dropLastIf_snoc. cbv beta. by rewrite N.eqb_refl. }
  unfold matchedHeader. rewrite E. clear E Hpre. unfold trimStart.
  induction Hws as [|x ws Hx _ IH]; [by rewrite Hhd; cbn; rewrite Hc|].
  cbn. by rewrite Hx.
Qed.

(** C3, as amended: when the search finds a header that lies on one line
    and whose path differs from the target path, the run replaces the
    matched span and nothing else: the span is a prefix of the text and
    holds the white space and blank lines in front of the header, the
    header (prefix, label, colon, white space, path, suffix, none of them
    with a line terminator) and the line break that the scanned text has
    directly after it; every character after the span is as it was; the
    span is replaced by the rendered header text when the target path
    holds no CR or LF (which the editor would turn into line breaks of
    its own). *)
Theorem replace_leaves_text_after_match (h : Host) (doc : TextDocument) tokens re m :
  wfDoc doc → activeTextEditor h = Some (docId doc) →
  getCommentTokens (languageId doc) = Typed tokens →
  headerRegex tokens (configuredLabel h) = Some re →
  exec re (firstChunk doc) = Some m →
  trim (default [] (group m 1)) ≠ asRelativePath h (uri doc) →
  noLineTerminator (matchedHeader (default [] (group m 0))) →
  ∃ ws1 ws2 path tail post new,
    let header := tokStart tokens ++ configuredLabel h ++ [58%N] ++ ws2 ++ path
                  ++ tokEnd tokens in
    firstChunk doc = ws1 ++ header ++ tail
    ∧ isSpaces ws1 ∧ isSpaces ws2 ∧ path ≠ []
    ∧ noLineTerminator header
    ∧ group m 0 = Some (ws1 ++ header ++ lineBreakAt tail)
    ∧ group m 1 = Some path
    ∧ getText doc = (ws1 ++ header ++ lineBreakAt tail) ++ post
    ∧ getText (afterOutcome doc (ensureHeader h doc)) = new ++ post
    ∧ (noEol (asRelativePath h (uri doc)) →
       new = headerText tokens (configuredLabel h)
               (asRelativePath h (uri doc)) (eol doc)).
Proof.
  intros Hwf Ha Htok Hre Hm Hdiff Hone.
  destruct (getCommentTokens_Typed _ _ Htok) as [Heq Hk].
  assert (Hok : tokensOkb tokens = true) by (rewrite Heq; apply tableTokens_ok).
  apply tokensOkb_spec in Hok as ((c & srest & Hstart & Hc) & Hs & He).
  rewrite headerRegex_parses in Hre. apply (inj Some) in Hre. subst re.
  destruct (exec_header_sound _ _ _ _ _ Hm)
    as (ws1 & ws2 & path & tail & Hchunk & Hws1 & Hws2 & Hpne & Hpath & Hmm).
  set (label := configuredLabel h) in *.
  set (rel := asRelativePath h (uri doc)) in *.
  set (header := tokStart tokens ++ label ++ [58%N] ++ ws2 ++ path ++ tokEnd tokens) in *.
  assert (Hg0 : group m 0 = Some (ws1 ++ header ++ lineBreakAt tail)).
  { rewrite Hmm. unfold header. by rewrite <- !(assoc_L (++)). }
  assert (Hg1 : group m 1 = Some path) by (by rewrite Hmm).
  assert (Hlast : ∃ d, last header = Some d ∧ isLineTerminator d = false).
  { unfold header. rewrite !(assoc_L (++)).
    rewrite last_app. destruct (last (tokEnd tokens)) as [d|] eqn:El.
    - exists d. split; [done|]. apply last_Some in El as [l' El].
      unfold noLineTerminator in He.
      rewrite El, Forall_app, Forall_singleton in He. by destruct He.
    - rewrite last_app. destruct (last path) as [d|] eqn:Ep.
      + exists d. split; [done|]. apply last_Some in Ep as [l' Ep].
        unfold noLineTerminator in Hpath.
        rewrite Ep, Forall_app, Forall_singleton in Hpath. by destruct Hpath.
      + apply last_None in Ep. done. }
  destruct Hlast as (d & Hd1 & Hd2).
  assert (Hhdr : noLineTerminator header).
  { rewrite Hg0 in Hone. cbn [default from_option id] in Hone.
    rewrite (matchedHeader_match ws1 header tail c d
               (srest ++ label ++ [58%N] ++ ws2 ++ path ++ tokEnd tokens)) in Hone;
      try assumption.
    unfold header. by rewrite Hstart. }
  rewrite Heq in Hm.
  destruct (match_end_valid h doc m Hwf Hm) as (m0 & path' & Hm' & Hp & Htake & Hv).
  assert (Hm0 : m0 = ws1 ++ header ++ lineBreakAt tail ∧ path' = path).
  { rewrite Hm' in Hg0, Hg1.
    change (group (MkMatch 0 [Some m0; Some path']) 0) with (Some m0) in Hg0.
    change (group (MkMatch 0 [Some m0; Some path']) 1) with (Some path') in Hg1.
    split; by apply (inj Some). }
  destruct Hm0 as [Hm0 ->].
  rewrite Hg1 in Hdiff. cbn [default from_option id] in Hdiff.
  pose proof (ensureHeader_active h doc Hk Ha) as E.
  fold label rel in E. rewrite Hm, Hm' in E. unfold headerEdits in E.
  change (group (MkMatch 0 [Some m0; Some path]) 1) with (Some path) in E.
  change (group (MkMatch 0 [Some m0; Some path]) 0) with (Some m0) in E.
  cbv beta iota zeta in E.
  assert (truthy path = true) as Htr by (by destruct path).
  rewrite Htr, <- Heq in E. fold label rel in E.
  rewrite decide_True in E by done.
  rewrite E, afterOutcome_edit. cbn [applyEdits foldl].
  rewrite headerText_headerLine.
  destruct (replace_text doc Hwf (positionAt doc (length (default [] (Some m0))))
              (headerLine tokens label rel)) as (new & Hnew & Hsame).
  cbn [default from_option id] in Hnew, Hsame |- *.
  rewrite offsetAt_positionAt in Hnew by done.
  exists ws1, ws2, path, tail, (drop (length m0) (getText doc)), new.
  cbv zeta. fold header.
  split; [rewrite Hchunk; unfold header; by rewrite <- !(assoc_L (++))|].
  split; [exact Hws1|]. split; [exact Hws2|].
  split; [exact Hpne|]. split; [exact Hhdr|]. split; [exact Hg0|].
  split; [exact Hg1|].
  split. { rewrite <- Hm0. rewrite <- Htake at 1. by rewrite take_drop. }
  split; [exact Hnew|].
  intros Hr. apply Hsame.
  unfold header in Hhdr. unfold noLineTerminator in Hhdr.
  rewrite !Forall_app in Hhdr. destruct Hhdr as (_ & Hl & _).
  unfold headerLine, noEol. rewrite !Forall_app.
  repeat split; try (by apply noLineTerminator_noEol); try done.
  by repeat constructor.
Qed.

(** When the white space after the colon runs over the line break, the
    pattern takes the next line for the path and the run replaces both
    lines. *)
Example path_taken_from_the_next_line :
  lines Ex.headerWithoutPath = [js "# Path:"; js "print(1)"; js "x = 2"]
  ∧ lines (Ex.afterFirstRun Ex.headerWithoutPath)
    = [js "# Path: src/app.py"; js "x = 2"].
Proof. by vm_compute. Qed.


(** ** Inserting text at a position *)

Section insert_at.
Context (doc : TextDocument) (Hwf : wfDoc doc).
Let nl := eolText (eol doc).

Lemma text_around p :
  let j := line (validatePosition doc p) in
  let c := character (validatePosition doc p) in
  take (offsetAt doc p) (getText doc)
  = withBreaks nl (take j (lines doc)) ++ take c (lineText doc j)
  ∧ ∃ after,
      drop (offsetAt doc p) (getText doc) = drop c (lineText doc j) ++ after
      ∧ ∀ l, joinLines nl (l :: drop (S j) (lines doc)) = l ++ after.
Proof using Hwf.
  intros j c. destruct Hwf as [Hne Hls].
  destruct (validatePosition_in_range doc p Hne) as [Hl Hc].
  fold j c in Hl, Hc. unfold offsetAt. fold j c.
  rewrite (getText_split doc j Hl), lineStart_withBreaks.
  unfold lineText in *.
  destruct (lines doc !! j) as [x|] eqn:Ex.
  2:{ apply lookup_ge_None in Ex. unfold lineCount in Hl. lia. }
  cbn [default from_option id] in *. rewrite (drop_S _ _ _ Ex).
  fold nl. split.
  - rewrite take_app_add'; [|done].
    f_equal. destruct (drop (S j) (lines doc)) as [|y rest]; [done|].
    rewrite joinLines_cons by done. by rewrite take_app_le.
  - rewrite drop_app_add'; [|done].
    destruct (drop (S j) (lines doc)) as [|y rest] eqn:Ed.
    + exists []. split; [by rewrite app_nil_r|]. intros l. by rewrite app_nil_r.
    + exists (nl ++ joinLines nl (y :: rest)). split.
      * rewrite joinLines_cons by done. by rewrite drop_app_le.
      * intros l. by rewrite joinLines_cons.
Qed.

(** Text without a line break, inserted at a position, changes the line
    of the position and no other. *)
Lemma insert_in_line p text :
  noEol text →
  let j := line (validatePosition doc p) in
  let c := character (validatePosition doc p) in
  lines (applyEdit doc (EditInsert p text))
  = take j (lines doc)
    ++ [take c (lineText doc j) ++ text ++ drop c (lineText doc j)]
    ++ drop (S j) (lines doc).
Proof using Hwf.
  intros Ht j c. destruct (text_around p) as (Htake & after & Hdrop & Hjoin).
  fold j c in Htake, Hdrop, Hjoin. destruct Hwf as [Hne Hls].
  destruct (validatePosition_in_range doc p Hne) as [Hl Hc]. fold j c in Hl, Hc.
  cbn [applyEdit lines setText]. rewrite Htake, Hdrop.
  set (new := take c (lineText doc j) ++ text ++ drop c (lineText doc j)).
  rewrite <- (splitLines_joinLines (eol doc)
                (take j (lines doc) ++ [new] ++ drop (S j) (lines doc))).
  - f_equal. rewrite joinLines_app by done. fold nl.
    change ([new] ++ ?x) with (new :: x). rewrite Hjoin. unfold new.
    by rewrite <- !(assoc_L (++)).
  - by destruct (take j (lines doc)).
  - assert (Hx : noEol (lineText doc j)).
    { unfold lineText. destruct (lines doc !! j) as [x|] eqn:Ex; [|constructor].
      rewrite Forall_lookup in Hls. by eapply Hls. }
    rewrite !Forall_app. split; [by apply Forall_take|]. split.
    + constructor; [|constructor]. unfold new, noEol in *. rewrite !Forall_app.
      split; [by apply Forall_take|]. split; [done|by apply Forall_drop].
    + by apply Forall_drop.
Qed.

(** A line and its line break, inserted at the start of a line, is a new
    line above it. *)
Lemma insert_line_at k hdr :
  noEol hdr → k < lineCount doc →
  lines (applyEdit doc (EditInsert (MkPosition k 0) (hdr ++ nl)))
  = take k (lines doc) ++ [hdr] ++ drop k (lines doc).
Proof using Hwf.
  intros Hhdr Hlt. destruct Hwf as [Hne Hls].
  cbn [applyEdit lines setText].
  rewrite offsetAt_line_start by done.
  rewrite (getText_split doc k Hlt), lineStart_withBreaks.
  rewrite take_app_length, drop_app_length.
  assert (Hd : drop k (lines doc) ≠ []).
  { intros E. apply (f_equal length) in E. rewrite length_drop in E.
    unfold lineCount in Hlt. simpl in E. lia. }
  rewrite <- (splitLines_joinLines (eol doc)
                (take k (lines doc) ++ [hdr] ++ drop k (lines doc))).
  - f_equal. rewrite (assoc_L (++) (take k (lines doc))).
    rewrite joinLines_app, withBreaks_app, withBreaks_singleton by done.
    by rewrite <- !(assoc_L (++)).
  - by destruct (take k (lines doc)).
  - rewrite !Forall_app. split; [by apply Forall_take|]. split.
    + by constructor.
    + by apply Forall_drop.
Qed.

(** Past the last line the editor moves the position to the end of the
    document: the line is appended to the last line, and an empty line
    follows. *)
Lemma insert_line_beyond k c hdr :
  noEol hdr → lineCount doc ≤ k →
  lines (applyEdit doc (EditInsert (MkPosition k c) (hdr ++ nl)))
  = take (lineCount doc - 1) (lines doc)
    ++ [lineText doc (lineCount doc - 1) ++ hdr; []].
Proof using Hwf.
  intros Hhdr Hge. destruct Hwf as [Hne Hls].
  cbn [applyEdit lines setText].
  rewrite offsetAt_beyond by done.
  rewrite take_ge, drop_ge, app_nil_r by lia.
  assert (∃ ls0 l0, lines doc = ls0 ++ [l0]) as (ls0 & l0 & El).
  { exists (removelast (lines doc)), (List.last (lines doc) []).
    by apply app_removelast_last. }
  unfold getText, lineCount, lineText. rewrite El in *.
  rewrite length_app. cbn [length]. rewrite Nat.add_sub.
  rewrite take_app_length.
  rewrite lookup_app_r, Nat.sub_diag by lia. cbn [lookup list_lookup default from_option id].
  rewrite Forall_app, Forall_singleton in Hls. destruct Hls as [Hls1 Hls2].
  rewrite <- (splitLines_joinLines (eol doc) (ls0 ++ [l0 ++ hdr; []])).
  - f_equal.
    change [l0 ++ hdr; []] with ([l0 ++ hdr] ++ [[]]).
    rewrite (assoc_L (++) ls0).
    rewrite !joinLines_app, withBreaks_app, withBreaks_singleton by done.
    fold nl. simpl. by rewrite <- !(assoc_L (++)), app_nil_r.
  - by destruct ls0.
  - rewrite Forall_app. split; [done|].
    constructor; [|by repeat constructor].
    unfold noEol in *. by rewrite Forall_app.
Qed.
End insert_at.


(** ** The two revisions *)

(** C10, as amended: the two revisions build the same pattern for every
    style and label.  They compute the same target path exactly when the
    document is in a workspace folder and [includeWorkspaceFolder] is
    false, or is in none and the relative path the host gives for it is
    its file name; then the rendered text and the edits are the same
    too. *)
Theorem revisions_agree_without_folder_prefix (h : Host) (doc : TextDocument) :
  (∀ tokens label, Rev2.headerRegex tokens label = headerRegex tokens label)
  ∧ (Rev2.getRelPathOrAbs h doc = asRelativePath h (uri doc)
     ↔ plainRelativePath h doc)
  ∧ (plainRelativePath h doc → Rev2.ensureHeader h doc = ensureHeader h doc).
Proof.
  assert (E' : ∀ t l, Rev2.headerRegex t l = headerRegex t l)
    by (intros; by rewrite headerRegex_parses, Rev2_headerRegex_parses).
  assert (E : Rev2.getRelPathOrAbs h doc = asRelativePath h (uri doc)
              ↔ plainRelativePath h doc).
  { unfold Rev2.getRelPathOrAbs, plainRelativePath.
    destruct (getWorkspaceFolder h (uri doc)) as [ws|].
    - destruct (cfg_includeWorkspaceFolder h) as [[]|]; cbn [default from_option id].
      + split; [|by intros [[_ [=]]|[[=] _]]].
        intros Hl. apply (f_equal length) in Hl.
        rewrite !length_app in Hl. simpl in Hl. lia.
      + split; [intros _; left; split; [by eexists|done]|done].
      + split; [|by intros [[_ [=]]|[[=] _]]].
        intros Hl. apply (f_equal length) in Hl.
        rewrite !length_app in Hl. simpl in Hl. lia.
    - split; [by right|]. by intros [[[? [=]] _]|[_ ?]]. }
  split; [done|]. split; [done|]. intros Hp.
  unfold Rev2.ensureHeader, ensureHeader. rewrite (proj2 E Hp).
  destruct (activeTextEditor h) as [editorDoc|]; [|reflexivity].
  destruct (negb _); [reflexivity|].
  destruct (getCommentTokens _) as [tokens| |]; [|reflexivity..].
  by rewrite E'.
Qed.

(** ** Examples and counterexamples *)

Example python_header_inserted_at_line_0 :
  ensureHeader Ex.hostPy Ex.oneLine
  = Returned [EditorEdit 1 [EditInsert (MkPosition 0 0)
                              (js "# Path: src/app.py" ++ [Chr.LF])]].
Proof. by vm_compute. Qed.

Example html_header_replaced :
  lines (afterOutcome Ex.staleHtml (ensureHeader (Ex.host "new/loc.html") Ex.staleHtml))
  = [js "<!-- Path: new/loc.html -->"; js "<p>hi</p>"].
Proof. by vm_compute. Qed.

(** The pattern cannot see a header that was put below a shebang line: the
    second run inserts a second header. *)
Example second_run_below_shebang_inserts_again :
  lines (Ex.afterFirstRun Ex.shebangScript)
  = [js "#!/bin/sh"; js "# Path: src/app.py"; js "echo hi"]
  ∧ ensureHeader Ex.hostPy (Ex.afterFirstRun Ex.shebangScript)
    = Returned [EditorEdit 1 [EditInsert (MkPosition 1 0)
                                (js "# Path: src/app.py" ++ [Chr.LF])]]
  ∧ lines (Ex.afterFirstRun (Ex.afterFirstRun Ex.shebangScript))
    = [js "#!/bin/sh"; js "# Path: src/app.py"; js "# Path: src/app.py";
       js "echo hi"].
Proof. by vm_compute. Qed.

(** C1 as stated fails: below ten blank lines the header lies outside the
    scanned chunk, and the second run inserts it once more. *)
Lemma second_run_below_ten_blank_lines_inserts_again :
  ensureHeader Ex.hostPy (Ex.afterFirstRun Ex.tenBlankLines)
  = Returned [EditorEdit 1 [EditInsert (MkPosition 10 0)
                              (js "# Path: src/app.py" ++ [Chr.LF])]]
  ∧ ensureHeader Ex.hostPy (Ex.afterFirstRun Ex.tenBlankLines)
    ≠ Returned [EditorEdit 1 []]
  ∧ drop 10 (lines (Ex.afterFirstRun (Ex.afterFirstRun Ex.tenBlankLines)))
    = [js "# Path: src/app.py"; js "# Path: src/app.py"; js "print(1)"].
Proof. by vm_compute. Qed.

(** C3 as stated fails: the blank line above the header is part of the
    replaced span, so a line other than the header line is deleted. *)
Lemma replace_deletes_blank_line_above_header :
  lines Ex.staleHeader = [[]; js "# Path: old/app.py"; js "print(1)"]
  ∧ lines (Ex.afterFirstRun Ex.staleHeader)
    = [js "# Path: src/app.py"; js "print(1)"]
  ∧ ¬ ∃ k new,
        lines (Ex.afterFirstRun Ex.staleHeader) = <[k := new]> (lines Ex.staleHeader).
Proof.
  split; [by vm_compute|]. split; [by vm_compute|].
  intros (k & new & E). apply (f_equal length) in E.
  rewrite length_insert in E. by vm_compute in E.
Qed.


(** C7 as stated fails: text after the suffix does not stop the pattern
    from accepting the line. *)
Lemma pattern_accepts_text_after_suffix :
  ∃ tokens,
    getCommentTokens (js "html") = Typed tokens
    ∧ (∃ re, headerRegex tokens (js "Path") = Some re
             ∧ is_Some (exec re (js "<!-- Path: a --> junk")))
    ∧ ¬ headerForm tokens (js "Path") (js "<!-- Path: a --> junk").
Proof.
  exists (BlockTokens (js "<!-- ") (js " -->")).
  split; [by vm_compute|]. split.
  - eexists. split; [by vm_compute|]. vm_compute. by eexists.
  - intros (ws1 & ws2 & path & nl & E & _ & _ & _ & _ & Hnl).
    apply (f_equal last) in E.
    change (tokEnd (BlockTokens (js "<!-- ") (js " -->")))
      with [32%N; 45%N; 45%N; 62%N] in E.
    rewrite !(assoc_L (++)) in E. rewrite last_app in E.
    destruct Hnl as [-> | [-> | [-> | ->]]].
    + cbn [last] in E. rewrite last_app in E. by vm_compute in E.
    + by vm_compute in E.
    + by vm_compute in E.
    + by vm_compute in E.
Qed.

(** C10 as stated fails: by default the second revision prefixes the path
    with the name of the workspace folder. *)
Lemma revisions_differ_on_folder_prefix :
  Rev2.getRelPathOrAbs Ex.hostInFolder Ex.oneLine
  = js "proj/src/app.py"
  ∧ asRelativePath Ex.hostInFolder (uri Ex.oneLine)
    = js "src/app.py"
  ∧ Rev2.ensureHeader Ex.hostInFolder Ex.oneLine
    ≠ ensureHeader Ex.hostInFolder Ex.oneLine.
Proof. by vm_compute. Qed.

(** ** Instances of the theorems above *)

Lemma ensureHeader_twice_registers_no_edit_witness :
  (∃ tokens re matched captured,
     getCommentTokens (languageId Ex.blankThenCode) = Typed tokens
     ∧ headerRegex tokens (configuredLabel Ex.hostPy) = Some re
     ∧ exec re (firstChunk (afterOutcome Ex.blankThenCode
                              (ensureHeader Ex.hostPy Ex.blankThenCode)))
       = Some (MkMatch 0 [Some matched; Some captured])
     ∧ trim captured = asRelativePath Ex.hostPy (uri Ex.blankThenCode))
  ∧ ensureHeader Ex.hostPy
      (afterOutcome Ex.blankThenCode (ensureHeader Ex.hostPy Ex.blankThenCode))
    = Returned [EditorEdit (docId Ex.blankThenCode) []]
  ∧ afterOutcome (afterOutcome Ex.blankThenCode (ensureHeader Ex.hostPy Ex.blankThenCode))
      (ensureHeader Ex.hostPy
         (afterOutcome Ex.blankThenCode (ensureHeader Ex.hostPy Ex.blankThenCode)))
    = afterOutcome Ex.blankThenCode (ensureHeader Ex.hostPy Ex.blankThenCode).
Proof.
  apply (ensureHeader_twice_registers_no_edit Ex.hostPy Ex.blankThenCode).
  - split; [done|]. repeat constructor.
  - reflexivity.
  - intros E. vm_compute in E. discriminate E.
  - done.
  - repeat constructor.
  - by vm_compute.
  - vm_compute. repeat constructor.
  - intros p t E. vm_compute in E. injection E as <- _.
    split; [by vm_compute|]. vm_compute. lia.
Defined.

Lemma ensureHeader_decision_witness :
  ∃ re,
    headerRegex (LineTokens (js "# ")) (configuredLabel Ex.hostPy) = Some re
    ∧ firstChunk Ex.staleHeader
      = (if decide (lineCount Ex.staleHeader ≤ 10) then getText Ex.staleHeader
         else withBreaks (eolText (eol Ex.staleHeader)) (take 10 (lines Ex.staleHeader)))
    ∧ match exec re (firstChunk Ex.staleHeader) with
      | None =>
          ensureHeader Ex.hostPy Ex.staleHeader
          = Returned [EditorEdit (docId Ex.staleHeader)
                        [EditInsert (insertionPosition Ex.staleHeader)
                           (headerText (LineTokens (js "# "))
                              (configuredLabel Ex.hostPy)
                              (asRelativePath Ex.hostPy (uri Ex.staleHeader))
                              (eol Ex.staleHeader))]]
      | Some m =>
          ∃ matched captured,
            m = MkMatch 0 [Some matched; Some captured]
            ∧ take (length matched) (getText Ex.staleHeader) = matched
            ∧ (∃ ws1 ws2 tail,
                 firstChunk Ex.staleHeader
                 = ws1 ++ tokStart (LineTokens (js "# ")) ++ configuredLabel Ex.hostPy
                   ++ [58%N] ++ ws2 ++ captured ++ tokEnd (LineTokens (js "# "))
                   ++ tail
                 ∧ matched
                   = ws1 ++ tokStart (LineTokens (js "# ")) ++ configuredLabel Ex.hostPy
                     ++ [58%N] ++ ws2 ++ captured ++ tokEnd (LineTokens (js "# "))
                     ++ lineBreakAt tail
                 ∧ (tail = [] → lineBreakAt tail = [])
                 ∧ (∀ rest, tail = eolText (eol Ex.staleHeader) ++ rest →
                      lineBreakAt tail = eolText (eol Ex.staleHeader)))
            ∧ if decide (trim captured = asRelativePath Ex.hostPy (uri Ex.staleHeader))
              then ensureHeader Ex.hostPy Ex.staleHeader
                   = Returned [EditorEdit (docId Ex.staleHeader) []]
              else ∃ end_,
                ensureHeader Ex.hostPy Ex.staleHeader
                = Returned [EditorEdit (docId Ex.staleHeader)
                              [EditReplace (MkRange (MkPosition 0 0) end_)
                                 (headerText (LineTokens (js "# "))
                                    (configuredLabel Ex.hostPy)
                                    (asRelativePath Ex.hostPy (uri Ex.staleHeader))
                                    (eol Ex.staleHeader))]]
                ∧ offsetAt Ex.staleHeader (MkPosition 0 0) = 0
                ∧ offsetAt Ex.staleHeader end_ = length matched
      end.
Proof.
  apply (ensureHeader_decision Ex.hostPy Ex.staleHeader (LineTokens (js "# "))).
  - split; [done|]. repeat constructor.
  - reflexivity.
  - by vm_compute.
Defined.

Lemma replace_leaves_text_after_match_witness :
  ∃ ws1 ws2 path tail post new,
    let header := tokStart (LineTokens (js "# ")) ++ configuredLabel Ex.hostPy
                  ++ [58%N] ++ ws2 ++ path ++ tokEnd (LineTokens (js "# ")) in
    firstChunk Ex.staleHeader = ws1 ++ header ++ tail
    ∧ isSpaces ws1 ∧ isSpaces ws2 ∧ path ≠ []
    ∧ noLineTerminator header
    ∧ group Ex.staleMatch 0 = Some (ws1 ++ header ++ lineBreakAt tail)
    ∧ group Ex.staleMatch 1 = Some path
    ∧ getText Ex.staleHeader = (ws1 ++ header ++ lineBreakAt tail) ++ post
    ∧ getText (afterOutcome Ex.staleHeader (ensureHeader Ex.hostPy Ex.staleHeader))
      = new ++ post
    ∧ (noEol (asRelativePath Ex.hostPy (uri Ex.staleHeader)) →
       new = headerText (LineTokens (js "# ")) (configuredLabel Ex.hostPy)
               (asRelativePath Ex.hostPy (uri Ex.staleHeader)) (eol Ex.staleHeader)).
Proof.
  apply (replace_leaves_text_after_match Ex.hostPy Ex.staleHeader
           (LineTokens (js "# ")) Ex.pyRegExp Ex.staleMatch).
  - split; [done|]. repeat constructor.
  - reflexivity.
  - by vm_compute.
  - by vm_compute.
  - by vm_compute.
  - by vm_compute.
  - vm_compute. repeat constructor.
Defined.

Lemma header_search_starts_at_offset_zero_witness :
  m_index Ex.staleMatch = 0
  ∧ ∃ ws body post,
      isSpaces ws
      ∧ getText Ex.staleHeader = ws ++ body ++ post
      ∧ group Ex.staleMatch 0 = Some (ws ++ body)
      ∧ (tokStart (LineTokens (js "# ")) ++ js "Path" ++ [58%N]) `prefix_of` body
      ∧ ∀ before rest, getText Ex.staleHeader = before ++ rest → ¬ isSpaces before →
          length before ≠ length ws.
Proof.
  apply (header_search_starts_at_offset_zero (LineTokens (js "# ")) (js "Path")
           Ex.pyRegExp (getText Ex.staleHeader) Ex.staleMatch).
  - left. by vm_compute.
  - by vm_compute.
Defined.

Lemma ensureHeader_without_editor_is_silent_witness :
  ensureHeader Ex.hostNoEditor Ex.oneLine = Returned []
  ∧ Rev2.ensureHeader Ex.hostNoEditor Ex.oneLine = Returned []
  ∧ afterOutcome Ex.oneLine (ensureHeader Ex.hostNoEditor Ex.oneLine) = Ex.oneLine
  ∧ afterOutcome Ex.oneLine (Rev2.ensureHeader Ex.hostNoEditor Ex.oneLine) = Ex.oneLine.
Proof.
  apply (ensureHeader_without_editor_is_silent Ex.hostNoEditor Ex.oneLine).
  left. reflexivity.
Defined.

Lemma revisions_agree_without_folder_prefix_witness :
  Rev2.ensureHeader Ex.hostInFolderNoPrefix Ex.oneLine
  = ensureHeader Ex.hostInFolderNoPrefix Ex.oneLine.
Proof.
  apply (revisions_agree_without_folder_prefix Ex.hostInFolderNoPrefix Ex.oneLine).
  left. split; [|reflexivity]. eexists. reflexivity.
Defined.


(** * Further properties of the extension *)

(** ** White space at the ends of a string *)

Section trim.
Lemma dropWhile_head {A} (p : A → bool) l x l' :
  dropWhile p l = x :: l' → p x = false.
Proof.
  induction l as [|y l IH]; [done|]. simpl.
  destruct (p y) eqn:E; [done|]. by intros [= -> _].
Qed.

Lemma dropWhile_stop {A} (p : A → bool) x l :
  p x = false → dropWhile p (x :: l) = x :: l.
Proof. intros E. simpl. by rewrite E. Qed.

Lemma dropWhile_snoc {A} (p : A → bool) l x :
  p x = false → dropWhile p (l ++ [x]) = dropWhile p l ++ [x].
Proof.
  intros E. induction l as [|y l IH]; simpl; [by rewrite E|].
  by destruct (p y).
Qed.

Lemma trim_idemp s : trim (trim s) = trim s.
Proof.
  unfold trim, trimEnd, trimStart.
  destruct (dropWhile isSpace s) as [|c t] eqn:Et; [done|].
  pose proof (dropWhile_head _ _ _ _ Et) as Hc.
  rewrite reverse_cons, dropWhile_snoc by done.
  rewrite reverse_app. change (reverse [c]) with [c]. cbn [app].
  rewrite dropWhile_stop by done.
  rewrite reverse_cons, reverse_involutive.
  destruct (dropWhile isSpace (reverse t)) as [|d u] eqn:Eu.
  - simpl. by rewrite Hc.
  - pose proof (dropWhile_head _ _ _ _ Eu) as Hd.
    rewrite <- app_comm_cons, dropWhile_stop by done.
    by rewrite app_comm_cons, reverse_app.
Qed.

Lemma trim_Path : trim (js "Path") = js "Path".
Proof. reflexivity. Qed.
End trim.

(** X1: the label the synchronizer uses, [(get('relpath.label') || 'Path')
    .trim() || 'Path'], is never empty and has no white space at either
    end; it is the setting trimmed when the setting holds a character
    that is not white space, and [Path] when the setting is missing, empty
    or white space only. *)
Theorem configuredLabel_is_trimmed_and_not_empty (h : Host) :
  configuredLabel h ≠ []
  ∧ trim (configuredLabel h) = configuredLabel h
  ∧ (∀ s, cfg_label h = Some s → ¬ isSpaces s → configuredLabel h = trim s)
  ∧ (cfg_label h = None ∨ (∃ s, cfg_label h = Some s ∧ isSpaces s) →
     configuredLabel h = js "Path").
Proof.
  unfold configuredLabel.
  set (s0 := match cfg_label h with
             | Some s => if truthy s then s else js "Path"
             | None => js "Path"
             end).
  assert (H1 : ∀ t, (if truthy (trim t) then trim t else js "Path") ≠ []).
  { intros t. by destruct (trim t). }
  assert (H2 : ∀ t, trim (if truthy (trim t) then trim t else js "Path")
                    = if truthy (trim t) then trim t else js "Path").
  { intros t. destruct (truthy (trim t)); [apply trim_idemp|apply trim_Path]. }
  split; [apply H1|]. split; [apply H2|]. split.
  - intros s Hs Hns. unfold s0. rewrite Hs.
    assert (trim s ≠ []) as Ht by (by rewrite trim_nil_iff).
    assert (truthy s = true) as ->.
    { destruct s; [|done]. destruct Hns. constructor. }
    by destruct (trim s).
  - intros [Hn | (s & Hs & Hsp)]; unfold s0.
    + by rewrite Hn.
    + rewrite Hs. destruct (truthy s); [|done].
      apply trim_nil_iff in Hsp. by rewrite Hsp.
Qed.

(** ** The delimiters of the tables *)

Lemma lineMap_prefix_shape id l :
  lineMap !! id = Some l →
  (∃ c s, l = c :: s ++ [Chr.SP] ∧ isSpace c = false) ∧ blockMap !! id = None.
Proof.
  intros H. apply elem_of_list_to_map_2, list_elem_of_In in H.
  assert (HF : forallb
                 (λ kv : list N * list N,
                    match kv.2 with
                    | c :: s => negb (isSpace c) && bool_decide (last s = Some Chr.SP)
                    | [] => false
                    end && bool_decide (blockMap !! kv.1 = None))
                 lineMapEntries = true) by (by vm_compute).
  rewrite forallb_forall in HF. specialize (HF _ H). cbn [fst snd] in HF.
  apply andb_prop in HF as [H1 H2]. apply bool_decide_eq_true in H2.
  split; [|done]. destruct l as [|c s]; [done|].
  apply andb_prop in H1 as [H1 H3]. apply bool_decide_eq_true in H3.
  apply last_Some in H3 as [s' ->]. exists c, s'. split; [done|].
  by apply negb_true_iff.
Qed.

Lemma blockMap_delimiters_shape id s e :
  blockMap !! id = Some (s, e) →
  (∃ c s', s = c :: s' ++ [Chr.SP] ∧ isSpace c = false)
  ∧ (∃ e' d, e = Chr.SP :: e' ++ [d] ∧ isSpace d = false).
Proof.
  intros H. apply elem_of_list_to_map_2, list_elem_of_In in H.
  assert (HF : forallb
                 (λ kv : list N * (list N * list N),
                    match kv.2.1 with
                    | c :: s => negb (isSpace c) && bool_decide (last s = Some Chr.SP)
                    | [] => false
                    end
                    && match kv.2.2 with
                       | c :: e' => (c =? Chr.SP)%N
                                    && match last e' with
                                       | Some d => negb (isSpace d)
                                       | None => false
                                       end
                       | [] => false
                       end)
                 blockMapEntries = true) by (by vm_compute).
  rewrite forallb_forall in HF. specialize (HF _ H). cbn [fst snd] in HF.
  apply andb_prop in HF as [H1 H2]. split.
  - destruct s as [|c s]; [done|].
    apply andb_prop in H1 as [H1 H3]. apply bool_decide_eq_true in H3.
    apply last_Some in H3 as [s' ->]. exists c, s'. split; [done|].
    by apply negb_true_iff.
  - destruct e as [|c e]; [done|].
    apply andb_prop in H2 as [H2 H3]. apply N.eqb_eq in H2 as ->.
    destruct (last e) as [d|] eqn:El; [|done].
    apply last_Some in El as [e' ->]. exists e', d. split; [done|].
    by apply negb_true_iff.
Qed.

(** X2: whenever [getCommentTokens] answers tokens of the declared type,
    the prefix starts with a character that is not white space and ends
    in a space, neither delimiter holds a line terminator, the suffix of
    a block style is a space followed by text that ends in a character
    that is not white space, and a block style is answered only where
    the line table has no entry; a key of the line table is no property
    of the block table, and the identifier names no property of
    [Object.prototype]. *)
Theorem getCommentTokens_delimiters languageId tokens :
  getCommentTokens languageId = Typed tokens →
  (∃ c s, tokStart tokens = c :: s ++ [Chr.SP] ∧ isSpace c = false)
  ∧ noLineTerminator (tokStart tokens)
  ∧ noLineTerminator (tokEnd tokens)
  ∧ (∀ s e, tokens = BlockTokens s e →
       getProperty lineMap languageId = Undefined
       ∧ getProperty blockMap languageId = Own (s, e)
       ∧ ∃ e' d, e = Chr.SP :: e' ++ [d] ∧ isSpace d = false)
  ∧ (∀ line, getProperty lineMap languageId = Own line →
       tokens = LineTokens line ∧ getProperty blockMap languageId = Undefined)
  ∧ languageId ∉ objectPrototypeKeys.
Proof.
  intros Htok. destruct (getCommentTokens_Typed _ _ Htok) as [-> Hk].
  pose proof (tableTokens_ok languageId) as Hok.
  apply tokensOkb_spec in Hok as (_ & Hs & He).
  assert (Hu : ∀ A (m : gmap (list N) A),
            m !! languageId = None → getProperty m languageId = Undefined).
  { intros A m Hm. unfold getProperty. rewrite Hm.
    by rewrite bool_decide_eq_false_2. }
  split; [|split; [done|split; [done|split; [|split; [|done]]]]].
  - rewrite tableTokens_lookup.
    destruct (lineMap !! languageId) as [l|] eqn:El.
    + by destruct (lineMap_prefix_shape _ _ El).
    + destruct (blockMap !! languageId) as [[s e]|] eqn:Eb.
      * by destruct (blockMap_delimiters_shape _ _ _ Eb).
      * exists 47%N, [47%N]. split; reflexivity.
  - intros s e. rewrite tableTokens_lookup.
    destruct (lineMap !! languageId) as [l|] eqn:El; [done|].
    destruct (blockMap !! languageId) as [[s' e']|] eqn:Eb; [|done].
    intros [= <- <-]. split; [by apply Hu|].
    split; [unfold getProperty; by rewrite Eb|].
    by destruct (blockMap_delimiters_shape _ _ _ Eb).
  - intros l Hl. unfold getProperty in Hl.
    destruct (lineMap !! languageId) as [l'|] eqn:El.
    + injection Hl as ->.
      destruct (lineMap_prefix_shape _ _ El) as [_ Hb].
      split; [|by apply Hu]. rewrite tableTokens_lookup. by rewrite El.
    + by destruct (bool_decide _).
Qed.

(** X3: for every language whose comment tokens are of the declared type
    and every end-of-line sequence, a label and a path without CR and LF
    render to one line: the editor reads the rendered text as the header
    line followed by an empty rest. *)
Theorem headerText_is_one_line languageId tokens label rel eol :
  getCommentTokens languageId = Typed tokens →
  noEol label → noEol rel →
  noEol (headerLine tokens label rel)
  ∧ splitLines (headerText tokens label rel eol) = [headerLine tokens label rel; []].
Proof.
  intros Htok Hl Hr. destruct (getCommentTokens_Typed _ _ Htok) as [-> _].
  pose proof (noEol_headerLine_eol languageId label rel Hl Hr) as Hh.
  split; [done|]. rewrite headerText_headerLine.
  rewrite <- (app_nil_r (eolText eol)). by rewrite splitLines_break.
Qed.

(** ** What the pattern reads back *)


(** X4: the pattern of either revision reads back what [headerText]
    wrote.  For every language whose comment tokens are of the declared
    type, every label and end-of-line sequence, and every path that is
    not empty, holds no line terminator and does not start with white
    space: in a text made of white space, the rendered header and
    anything after it, [exec] matches at index 0, the matched text is the
    white space and the rendered header with its line break, and group 1
    is the path. *)
Theorem headerRegex_reads_back_headerText languageId tokens label rel eol ws rest :
  getCommentTokens languageId = Typed tokens →
  isSpaces ws → rel ≠ [] → noLineTerminator rel →
  (∀ c, head rel = Some c → isSpace c = false) →
  ∃ re,
    headerRegex tokens label = Some re
    ∧ Rev2.headerRegex tokens label = Some re
    ∧ exec re (ws ++ headerText tokens label rel eol ++ rest)
      = Some (MkMatch 0 [Some (ws ++ headerText tokens label rel eol); Some rel]).
Proof.
  intros Htok Hws Hne Hrel Hhead.
  assert (Hok : tokensOkb tokens = true).
  { destruct (getCommentTokens_Typed _ _ Htok) as [-> _]. apply tableTokens_ok. }
  clear Htok.
  eexists. split; [apply headerRegex_parses|].
  split; [apply Rev2_headerRegex_parses|].
  apply tokensOkb_spec in Hok as ((c0 & s0 & Hstart & Hc0) & Hs & He).
  rewrite exec_matchAt. unfold matchAt. cbn [re_terms re_groups replicate].
  rewrite headerText_headerLine. unfold headerLine.
  rewrite <- !(assoc_L (++)).
  rewrite header_run_exact; try assumption.
  - cbn [mbind option_bind endIndex captures]. f_equal. f_equal.
    rewrite lineBreakAt_eolText, Nat.sub_0_r.
    change (<[0:=?a]> (<[1:=?b]> [None; None])) with [a; b].
    f_equal. f_equal.
    rewrite !(assoc_L (++)). by rewrite take_app_length.
  - intros c. rewrite Hstart. simpl. by intros [= <-].
  - intros c. apply head_eolText_lineTerminator.
Qed.

(** ** When the synchronizer returns *)

Lemma Rev2_ensureHeader_active h doc :
  languageId doc ∉ objectPrototypeKeys →
  activeTextEditor h = Some (docId doc) →
  Rev2.ensureHeader h doc
  = Returned
      [EditorEdit (docId doc)
         (headerEdits doc
            (exec (MkRegExp (headerTerms (tokStart (tableTokens (languageId doc)))
                               (configuredLabel h)
                               (tokEnd (tableTokens (languageId doc)))) 1)
               (firstChunk doc))
            (Rev2.getRelPathOrAbs h doc)
            (headerText (tableTokens (languageId doc)) (configuredLabel h)
               (Rev2.getRelPathOrAbs h doc) (eol doc)))].
Proof.
  intros Hk Ha. unfold Rev2.ensureHeader. rewrite Ha, Nat.eqb_refl. cbn [negb].
  rewrite (getCommentTokens_own _ Hk). by rewrite Rev2_headerRegex_parses.
Qed.

Lemma headerEdits_at_most_one doc m rel txt : length (headerEdits doc m rel txt) ≤ 1.
Proof.
  unfold headerEdits. destruct m; [|simpl; lia].
  destruct (decide _); simpl; lia.
Qed.

Lemma ensureHeader_inactive h doc :
  activeTextEditor h ≠ Some (docId doc) →
  ensureHeader h doc = Returned [] ∧ Rev2.ensureHeader h doc = Returned [].
Proof.
  intros Hn. unfold ensureHeader, Rev2.ensureHeader.
  destruct (activeTextEditor h) as [d|]; [|done].
  destruct (d =? docId doc) eqn:E; [|done].
  apply Nat.eqb_eq in E. by subst.
Qed.

(** X5: either revision of [ensureHeader] throws in one case only: the
    document is the one of the active editor and its language identifier
    names a property of [Object.prototype] (the table lookup then answers
    that property, and escaping it fails before [editor.edit]).  For
    every other host, setting and document [new RegExp] accepts the
    pattern and the run returns having changed nothing, or after one
    [editor.edit] on the document it was given, in which it registers at
    most one edit; it shows no message. *)
Theorem ensureHeader_throws_only_on_inherited_languageId
    (h : Host) (doc : TextDocument) :
  (ensureHeader h doc = Threw
   ↔ activeTextEditor h = Some (docId doc) ∧ languageId doc ∈ objectPrototypeKeys)
  ∧ (Rev2.ensureHeader h doc = Threw
     ↔ activeTextEditor h = Some (docId doc) ∧ languageId doc ∈ objectPrototypeKeys)
  ∧ (∃ edits,
     (ensureHeader h doc = Threw ∨ ensureHeader h doc = Returned []
      ∨ ensureHeader h doc = Returned [EditorEdit (docId doc) edits])
     ∧ length edits ≤ 1)
  ∧ (∃ edits,
     (Rev2.ensureHeader h doc = Threw ∨ Rev2.ensureHeader h doc = Returned []
      ∨ Rev2.ensureHeader h doc = Returned [EditorEdit (docId doc) edits])
     ∧ length edits ≤ 1).
Proof.
  destruct (decide (activeTextEditor h = Some (docId doc))) as [Ha|Hn].
  - destruct (decide (languageId doc ∈ objectPrototypeKeys)) as [Hk|Hk].
    + destruct (ensureHeader_inherited h doc Hk Ha) as [E1 E2].
      rewrite E1, E2.
      split; [split; [by intros _|reflexivity]|].
      split; [split; [by intros _|reflexivity]|].
      split; exists []; (split; [by left|simpl; lia]).
    + rewrite (ensureHeader_active h doc Hk Ha), (Rev2_ensureHeader_active h doc Hk Ha).
      split; [split; [discriminate|by intros [_ ?]]|].
      split; [split; [discriminate|by intros [_ ?]]|].
      split; eexists; (split; [right; right; reflexivity|]);
        apply headerEdits_at_most_one.
  - destruct (ensureHeader_inactive h doc Hn) as [-> ->].
    split; [split; [discriminate|by intros [? _]]|].
    split; [split; [discriminate|by intros [? _]]|].
    split; exists []; (split; [right; by left|simpl; lia]).
Qed.

(** ** A document that starts with a shebang line *)

Lemma tokStart_not_shebang languageId :
  ∃ c1 c2 s,
    tokStart (tableTokens languageId) = c1 :: c2 :: s
    ∧ (c1 =? 35)%N && (c2 =? 33)%N = false.
Proof.
  assert (Hb : ∀ t : list N,
            match t with
            | c1 :: c2 :: _ => negb ((c1 =? 35)%N && (c2 =? 33)%N)
            | _ => false
            end = true →
            ∃ c1 c2 s, t = c1 :: c2 :: s ∧ (c1 =? 35)%N && (c2 =? 33)%N = false).
  { intros [|c1 [|c2 s]] Ht; try done. exists c1, c2, s. split; [done|].
    by apply negb_true_iff. }
  apply Hb. rewrite tableTokens_lookup.
  destruct (lineMap !! languageId) as [l|] eqn:El.
  - apply elem_of_list_to_map_2, list_elem_of_In in El.
    assert (HF : forallb (λ kv : list N * list N,
                            match kv.2 with
                            | c1 :: c2 :: _ => negb ((c1 =? 35)%N && (c2 =? 33)%N)
                            | _ => false
                            end) lineMapEntries = true) by (by vm_compute).
    rewrite forallb_forall in HF. exact (HF _ El).
  - destruct (blockMap !! languageId) as [[st e]|] eqn:Eb; [|reflexivity].
    apply elem_of_list_to_map_2, list_elem_of_In in Eb.
    assert (HF : forallb (λ kv : list N * (list N * list N),
                            match kv.2.1 with
                            | c1 :: c2 :: _ => negb ((c1 =? 35)%N && (c2 =? 33)%N)
                            | _ => false
                            end) blockMapEntries = true) by (by vm_compute).
    rewrite forallb_forall in HF. exact (HF _ Eb).
Qed.

Lemma firstChunk_first_line doc :
  lines doc ≠ [] → ∃ rest, firstChunk doc = lineText doc 0 ++ rest.
Proof.
  intros Hne. rewrite firstChunk_lines by done. unfold lineText, getText.
  destruct (lines doc) as [|l ls] eqn:El; [done|].
  cbn [lookup list_lookup default from_option id].
  case_decide.
  - destruct ls as [|l' ls]; [exists []; by rewrite app_nil_r|].
    rewrite joinLines_cons by done. by eexists.
  - unfold lineCount in *. rewrite El in *. cbn [take length] in *.
    unfold withBreaks. rewrite fmap_cons. cbn [concat].
    rewrite <- (assoc_L (++)). by eexists.
Qed.

Lemma hasShebang_first_line doc :
  hasShebang doc = true → ∃ l, lineText doc 0 = 35%N :: 33%N :: l.
Proof.
  unfold hasShebang. intros H. apply andb_prop in H as [_ H].
  change (js "#!") with [35%N; 33%N] in H.
  destruct (lineText doc 0) as [|c1 [|c2 l]]; cbn [startsWith] in H.
  - done.
  - by destruct (35 =? c1)%N.
  - apply andb_prop in H as [H1 H2]. apply andb_prop in H2 as [H2 _].
    apply N.eqb_eq in H1, H2. subst. by exists l.
Qed.

Lemma cons_eq_inv {A} (x y : A) (l k : list A) : x :: l = y :: k → x = y ∧ l = k.
Proof. by intros [= -> ->]. Qed.

Lemma exec_after_shebang doc label :
  lines doc ≠ [] → hasShebang doc = true →
  exec (MkRegExp (headerTerms (tokStart (tableTokens (languageId doc))) label
                    (tokEnd (tableTokens (languageId doc)))) 1)
    (firstChunk doc) = None.
Proof.
  intros Hne Hsh.
  destruct (exec _ _) as [m|] eqn:Em; [exfalso|done].
  apply exec_header_sound in Em
    as (ws1 & ws2 & path & tail & Hc & Hws1 & _).
  destruct (firstChunk_first_line doc Hne) as [rest Hf].
  destruct (hasShebang_first_line doc Hsh) as [l Hl].
  rewrite Hf, Hl in Hc.
  destruct ws1 as [|c ws1].
  - destruct (tokStart_not_shebang (languageId doc)) as (c1 & c2 & s & Es & Hn).
    rewrite Es in Hc. cbn [app] in Hc.
    apply cons_eq_inv in Hc as [<- Hc]. apply cons_eq_inv in Hc as [<- _].
    vm_compute in Hn. discriminate Hn.
  - cbn [app] in Hc. apply cons_eq_inv in Hc as [<- _].
    apply Forall_cons in Hws1 as [Hsp _]. vm_compute in Hsp. discriminate Hsp.
Qed.

(** X6: a document that starts with a shebang line gets an insertion
    whenever the synchronizer returns.  The pattern is anchored at offset
    0 and no prefix of the tables starts with [#!], so the search never
    succeeds on such a document: in the active editor, for a language
    whose comment tokens are of the declared type, both revisions
    register the insertion of the rendered header at [insertionPosition],
    on line 1 or later, whether or not the document already holds a
    header. *)
Theorem shebang_document_always_gets_an_insert (h : Host) (doc : TextDocument) tokens :
  lines doc ≠ [] → activeTextEditor h = Some (docId doc) → hasShebang doc = true →
  getCommentTokens (languageId doc) = Typed tokens →
  ensureHeader h doc
  = Returned [EditorEdit (docId doc)
                [EditInsert (insertionPosition doc)
                   (headerText tokens (configuredLabel h)
                      (asRelativePath h (uri doc)) (eol doc))]]
  ∧ Rev2.ensureHeader h doc
    = Returned [EditorEdit (docId doc)
                  [EditInsert (insertionPosition doc)
                     (headerText tokens (configuredLabel h)
                        (Rev2.getRelPathOrAbs h doc) (eol doc))]]
  ∧ 1 ≤ line (insertionPosition doc).
Proof.
  intros Hne Ha Hsh Htok. destruct (getCommentTokens_Typed _ _ Htok) as [-> Hk].
  rewrite (ensureHeader_active h doc Hk Ha), (Rev2_ensureHeader_active h doc Hk Ha).
  rewrite (exec_after_shebang doc (configuredLabel h) Hne Hsh).
  split; [done|]. split; [done|].
  rewrite insertionPosition_line, Hsh. cbn [line]. lia.
Qed.

(** ** What either revision inserts *)

Lemma headerEdits_insert doc m rel txt p t :
  headerEdits doc m rel txt = [EditInsert p t] →
  m = None ∧ p = insertionPosition doc ∧ t = txt.
Proof.
  unfold headerEdits. destruct m as [m|].
  - by destruct (decide _).
  - by intros [= <- <-].
Qed.

Lemma ensureHeader_insert h doc p t :
  ensureHeader h doc = Returned [EditorEdit (docId doc) [EditInsert p t]] →
  (languageId doc ∉ objectPrototypeKeys)
  ∧ activeTextEditor h = Some (docId doc)
  ∧ exec (MkRegExp (headerTerms (tokStart (tableTokens (languageId doc)))
                      (configuredLabel h)
                      (tokEnd (tableTokens (languageId doc)))) 1)
      (firstChunk doc) = None
  ∧ p = insertionPosition doc
  ∧ t = headerText (tableTokens (languageId doc)) (configuredLabel h)
          (asRelativePath h (uri doc)) (eol doc).
Proof.
  intros E. destruct (decide (activeTextEditor h = Some (docId doc))) as [Ha|Hn].
  - assert (Hk : languageId doc ∉ objectPrototypeKeys).
    { apply (ensureHeader_returned h doc Ha). left. by rewrite E. }
    split; [done|]. split; [done|]. rewrite (ensureHeader_active h doc Hk Ha) in E.
    remember (headerEdits _ _ _ _) as es eqn:Hes in E.
    assert (es = [EditInsert p t]) as -> by congruence.
    symmetry in Hes. by apply headerEdits_insert in Hes.
  - destruct (ensureHeader_inactive h doc Hn) as [E1 _]. by rewrite E1 in E.
Qed.

Lemma Rev2_ensureHeader_insert h doc p t :
  Rev2.ensureHeader h doc = Returned [EditorEdit (docId doc) [EditInsert p t]] →
  (languageId doc ∉ objectPrototypeKeys)
  ∧ activeTextEditor h = Some (docId doc)
  ∧ exec (MkRegExp (headerTerms (tokStart (tableTokens (languageId doc)))
                      (configuredLabel h)
                      (tokEnd (tableTokens (languageId doc)))) 1)
      (firstChunk doc) = None
  ∧ p = insertionPosition doc
  ∧ t = headerText (tableTokens (languageId doc)) (configuredLabel h)
          (Rev2.getRelPathOrAbs h doc) (eol doc).
Proof.
  intros E. destruct (decide (activeTextEditor h = Some (docId doc))) as [Ha|Hn].
  - assert (Hk : languageId doc ∉ objectPrototypeKeys).
    { apply (ensureHeader_returned h doc Ha). right. by rewrite E. }
    split; [done|]. split; [done|].
    rewrite (Rev2_ensureHeader_active h doc Hk Ha) in E.
    remember (headerEdits _ _ _ _) as es eqn:Hes in E.
    assert (es = [EditInsert p t]) as -> by congruence.
    symmetry in Hes. by apply headerEdits_insert in Hes.
  - destruct (ensureHeader_inactive h doc Hn) as [_ E2]. by rewrite E2 in E.
Qed.

(** X7: when either revision registers an insertion, with a label and a
    target path free of CR and LF, it is at [insertionPosition], the
    comment tokens of the language are of the declared type, and the
    document afterwards has the header as a line of its own above the line
    of that position, every line it had unchanged and in place.  When the
    position is past the last line (the document ends with the shebang
    line or with blank lines) the editor moves it to the end of the
    document: the header is appended to the last line and an empty line
    follows. *)
Theorem inserted_header_is_a_line_of_its_own (h : Host) (doc : TextDocument)
    (rel : list N) (p : Position) (t : list N) :
  wfDoc doc → noEol (configuredLabel h) → noEol rel →
  (ensureHeader h doc = Returned [EditorEdit (docId doc) [EditInsert p t]]
   ∧ rel = asRelativePath h (uri doc))
  ∨ (Rev2.ensureHeader h doc = Returned [EditorEdit (docId doc) [EditInsert p t]]
     ∧ rel = Rev2.getRelPathOrAbs h doc) →
  p = insertionPosition doc
  ∧ ∃ tokens,
      getCommentTokens (languageId doc) = Typed tokens
      ∧ lines (afterOutcome doc (Returned [EditorEdit (docId doc) [EditInsert p t]]))
        = if decide (line p < lineCount doc)
          then take (line p) (lines doc)
               ++ [headerLine tokens (configuredLabel h) rel]
               ++ drop (line p) (lines doc)
          else take (lineCount doc - 1) (lines doc)
               ++ [lineText doc (lineCount doc - 1)
                   ++ headerLine tokens (configuredLabel h) rel;
                   []].
Proof.
  intros Hwf Hl Hr Hrun.
  assert ((languageId doc ∉ objectPrototypeKeys)
          ∧ p = insertionPosition doc
          ∧ t = headerText (tableTokens (languageId doc)) (configuredLabel h)
                  rel (eol doc)) as (Hk & Hp & ->).
  { destruct Hrun as [[E ->]|[E ->]].
    - apply ensureHeader_insert in E as (H0 & _ & _ & H1 & H2).
      exact (conj H0 (conj H1 H2)).
    - apply Rev2_ensureHeader_insert in E as (H0 & _ & _ & H1 & H2).
      exact (conj H0 (conj H1 H2)). }
  split; [done|]. exists (tableTokens (languageId doc)).
  split; [exact (getCommentTokens_own _ Hk)|].
  rewrite afterOutcome_edit. cbn [applyEdits foldl].
  rewrite headerText_headerLine.
  pose proof (noEol_headerLine_eol (languageId doc) _ _ Hl Hr) as Hh.
  assert (Hc : character p = 0) by (by rewrite Hp).
  destruct p as [k c]. cbn [line character] in *. subst c.
  case_decide as Hk'.
  - by apply insert_line_at.
  - apply insert_line_beyond; [done..|lia].
Qed.

(** ** Running the second revision twice *)

Lemma applyEdit_fileName doc e : fileName (applyEdit doc e) = fileName doc.
Proof. by destruct e. Qed.

Lemma applyEdits_headerEdits_meta doc m rel txt :
  let doc' := applyEdits doc (headerEdits doc m rel txt) in
  docId doc' = docId doc ∧ uri doc' = uri doc ∧ fileName doc' = fileName doc
  ∧ languageId doc' = languageId doc.
Proof.
  unfold headerEdits. destruct m as [m|].
  - destruct (decide _); cbn [applyEdits foldl]; [|done].
    destruct (applyEdit_meta doc
                (EditReplace (MkRange (MkPosition 0 0)
                                (positionAt doc (length (default [] (group m 0)))))
                   txt)) as (? & ? & ? & _).
    repeat split; assumption || apply applyEdit_fileName.
  - cbn [applyEdits foldl].
    destruct (applyEdit_meta doc (EditInsert (insertionPosition doc) txt))
      as (? & ? & ? & _).
    repeat split; assumption || apply applyEdit_fileName.
Qed.

Section first_run.
Context (h : Host) (doc : TextDocument) (rel : list N).
Let label := configuredLabel h.
Let tokens := tableTokens (languageId doc).
Let re := MkRegExp (headerTerms (tokStart tokens) label (tokEnd tokens)) 1.
Let txt := headerText tokens label rel (eol doc).

(** After the edit either revision registers for the target path [rel],
    the search finds a header that holds [rel]. *)
Lemma first_run_leaves_header :
  wfDoc doc → rel ≠ [] → noLineTerminator rel → trim rel = rel → noEol label →
  (exec re (firstChunk doc) = None →
   hasShebang doc = false
   ∧ line (validatePosition doc (insertionPosition doc)) < 10) →
  ∃ matched captured,
    exec re (firstChunk (applyEdits doc (headerEdits doc (exec re (firstChunk doc))
                                           rel txt)))
    = Some (MkMatch 0 [Some matched; Some captured])
    ∧ captured ≠ [] ∧ trim captured = rel.
Proof.
  intros Hwf Hne Hrel Htrim Hlabel Hins.
  assert (Hok : tokensOkb tokens = true) by apply tableTokens_ok.
  assert (Hhdr : noEol (headerLine tokens label rel)) by (by apply noEol_headerLine).
  assert (Hhead : ∀ c, head rel = Some c → isSpace c = false)
    by (intros c; by apply trim_fixed_head).
  unfold txt. rewrite headerText_headerLine.
  destruct (exec re (firstChunk doc)) as [m|] eqn:Em.
  - destruct (match_end_valid h doc m Hwf Em) as (m0 & path & -> & Hp & _ & _).
    unfold headerEdits.
    change (group (MkMatch 0 [Some m0; Some path]) 1) with (Some path).
    change (group (MkMatch 0 [Some m0; Some path]) 0) with (Some m0).
    cbv beta iota zeta.
    assert (truthy path = true) as -> by (destruct path; [by destruct Hp|reflexivity]).
    destruct (decide (trim path ≠ rel)) as [Hd|Hd].
    + cbn [applyEdits foldl].
      destruct (replace_lines doc Hwf (positionAt doc (length (default [] (Some m0))))
                  _ Hhdr) as (Lq & HLq & Hl & _).
      set (d1 := applyEdit doc _) in *.
      assert (Heol : eol d1 = eol doc) by apply applyEdit_meta.
      destruct (exec_sees_header d1 tokens label rel [headerLine tokens label rel]
                  Lq [] Hok Hne Hrel Hhead Hl HLq) as [m1 Hm1].
      { simpl. lia. }
      { rewrite Heol. by rewrite withBreaks_singleton. }
      { constructor. }
      exists m1, rel. split; [exact Hm1|]. split; assumption.
    + cbn [applyEdits foldl]. exists m0, path. split; [exact Em|]. split; [exact Hp|].
      destruct (decide (trim path = rel)) as [E|E]; [exact E|destruct (Hd E)].
  - cbn [headerEdits applyEdits foldl].
    destruct (Hins eq_refl) as [Hsh H10].
    destruct (insert_lines doc Hwf Hsh _ Hhdr)
      as (Lp & Lq & ws1 & Hl & HLq & HLp & Hw & Hws).
    set (d1 := applyEdit doc _) in *.
    assert (Heol : eol d1 = eol doc) by apply applyEdit_meta.
    destruct (exec_sees_header d1 tokens label rel Lp Lq ws1
                Hok Hne Hrel Hhead Hl HLq) as [m1 Hm1].
    { lia. }
    { by rewrite Heol. }
    { done. }
    exists m1, rel. split; [exact Hm1|]. split; assumption.
Qed.
End first_run.

Lemma getRelPathOrAbs_same h doc doc' :
  uri doc' = uri doc → fileName doc' = fileName doc →
  Rev2.getRelPathOrAbs h doc' = Rev2.getRelPathOrAbs h doc.
Proof. intros Hu Hf. unfold Rev2.getRelPathOrAbs. by rewrite Hu, Hf. Qed.

Lemma Rev2_second_run_noop (h : Host) (doc doc1 : TextDocument) m0 captured :
  languageId doc ∉ objectPrototypeKeys →
  activeTextEditor h = Some (docId doc) →
  docId doc1 = docId doc → uri doc1 = uri doc → fileName doc1 = fileName doc →
  languageId doc1 = languageId doc →
  exec (MkRegExp (headerTerms (tokStart (tableTokens (languageId doc)))
                    (configuredLabel h)
                    (tokEnd (tableTokens (languageId doc)))) 1)
    (firstChunk doc1)
  = Some (MkMatch 0 [Some m0; Some captured]) →
  captured ≠ [] → trim captured = Rev2.getRelPathOrAbs h doc →
  Rev2.ensureHeader h doc1 = Returned [EditorEdit (docId doc) []].
Proof.
  intros Hk Ha Hid Huri Hfile Hlang Hex Hne Htrim.
  rewrite Rev2_ensureHeader_active by (by rewrite ?Hid, ?Hlang).
  rewrite (getRelPathOrAbs_same h doc doc1 Huri Hfile).
  rewrite Hid, Hlang, Hex. by rewrite headerEdits_noop.
Qed.

(** X8: the second revision, run twice.  For a document whose lines hold
    no line break, shown in the active editor, a label without CR or LF
    and a target path [getRelPathOrAbs] that is not empty, holds no line
    terminator and has no white space at either end: when the first run
    returned, and replaced a header or left it alone, or inserted one on
    one of the first ten lines of a document that does not start with a
    shebang line, the second run registers no edit and the document stays
    as the first run left it. *)
Theorem Rev2_ensureHeader_twice_registers_no_edit (h : Host) (doc : TextDocument) :
  wfDoc doc → activeTextEditor h = Some (docId doc) →
  Rev2.ensureHeader h doc ≠ Threw →
  Rev2.getRelPathOrAbs h doc ≠ [] →
  noLineTerminator (Rev2.getRelPathOrAbs h doc) →
  trim (Rev2.getRelPathOrAbs h doc) = Rev2.getRelPathOrAbs h doc →
  noEol (configuredLabel h) →
  (∀ p t, Rev2.ensureHeader h doc = Returned [EditorEdit (docId doc) [EditInsert p t]] →
          hasShebang doc = false ∧ line (validatePosition doc p) < 10) →
  Rev2.ensureHeader h (afterOutcome doc (Rev2.ensureHeader h doc))
  = Returned [EditorEdit (docId doc) []]
  ∧ afterOutcome (afterOutcome doc (Rev2.ensureHeader h doc))
      (Rev2.ensureHeader h (afterOutcome doc (Rev2.ensureHeader h doc)))
    = afterOutcome doc (Rev2.ensureHeader h doc).
Proof.
  intros Hwf Ha Hret Hne Hrel Htrim Hlabel Hins.
  assert (Hk : languageId doc ∉ objectPrototypeKeys)
    by (apply (ensureHeader_returned h doc Ha); by right).
  clear Hret.
  pose proof (Rev2_ensureHeader_active h doc Hk Ha) as E1.
  assert (Hins' : exec (MkRegExp (headerTerms (tokStart (tableTokens (languageId doc)))
                                    (configuredLabel h)
                                    (tokEnd (tableTokens (languageId doc)))) 1)
                    (firstChunk doc) = None →
                  hasShebang doc = false
                  ∧ line (validatePosition doc (insertionPosition doc)) < 10).
  { intros En. rewrite En in E1. exact (Hins _ _ E1). }
  destruct (first_run_leaves_header h doc _ Hwf Hne Hrel Htrim Hlabel Hins')
    as (matched & captured & Hex & Hcne & Hcap).
  rewrite E1, afterOutcome_edit.
  match type of Hex with
  | exec _ (firstChunk (applyEdits doc ?es)) = _ =>
      destruct (applyEdits_headerEdits_meta doc
                  (exec (MkRegExp (headerTerms (tokStart (tableTokens (languageId doc)))
                                     (configuredLabel h)
                                     (tokEnd (tableTokens (languageId doc)))) 1)
                     (firstChunk doc))
                  (Rev2.getRelPathOrAbs h doc)
                  (headerText (tableTokens (languageId doc)) (configuredLabel h)
                     (Rev2.getRelPathOrAbs h doc) (eol doc)))
        as (Hid & Huri & Hfile & Hlang);
      set (doc' := applyEdits doc es) in *
  end.
  pose proof (Rev2_second_run_noop h doc doc' matched captured
                Hk Ha Hid Huri Hfile Hlang Hex Hcne Hcap) as E2.
  split; [exact E2|]. rewrite E2. unfold afterOutcome. cbn [foldl applyEdits].
  by destruct (docId doc =? docId doc').
Qed.

(** ** An escaped literal as a pattern of its own *)

Lemma startsWith_spec s p : startsWith s p = true ↔ ∃ rest, s = p ++ rest.
Proof.
  revert s. induction p as [|c p IH]; intros s.
  - split; [intros _; by exists s|by destruct s].
  - destruct s as [|d s]; cbn [startsWith]; [split; [done|by intros [? [=]]]|].
    rewrite andb_true_iff, N.eqb_eq, IH. split.
    + intros [-> [rest ->]]. by exists rest.
    + intros [rest [= -> ->]]. split; [done|by exists rest].
Qed.

Lemma RegExp_new_literal lit :
  RegExp_new (esc lit) = Some (MkRegExp (RChar <$> lit) 0)
  ∧ RegExp_new (Rev2.reEscape lit) = Some (MkRegExp (RChar <$> lit) 0).
Proof.
  unfold RegExp_new.
  rewrite <- (app_nil_r (esc lit)), <- (app_nil_r (Rev2.reEscape lit)).
  rewrite parse_esc, parse_reEscape, p_cur_pushChars.
  cbn [parsePattern p_stack p_cur p_groups mbind option_bind].
  by rewrite app_nil_r, reverse_involutive.
Qed.

Lemma matchAt_literal lit i rest :
  matchAt (MkRegExp (RChar <$> lit) 0) i rest
  = if startsWith rest lit then Some (MkMatch i [Some lit]) else None.
Proof.
  unfold matchAt. cbn [re_terms re_groups replicate].
  destruct (startsWith rest lit) eqn:E.
  - apply startsWith_spec in E as [rest' ->]. rewrite mtch_lit.
    cbn [mbind option_bind endIndex captures]. f_equal. f_equal.
    replace (i + length lit - i) with (length lit) by lia.
    by rewrite take_app_length.
  - destruct (mtchSeq _ _ _) as [r|] eqn:Er; [|done].
    apply mtch_lit_Some in Er. apply startsWith_spec in Er. congruence.
Qed.

Lemma execFrom_literal lit i text :
  execFrom (MkRegExp (RChar <$> lit) 0) i text
  = (λ j, MkMatch (i + j) [Some lit]) <$> indexOf text lit.
Proof.
  revert i. induction text as [|c text IH]; intros i.
  - cbn [execFrom indexOf]. rewrite matchAt_literal.
    destruct (startsWith [] lit); [|done]. simpl. by rewrite Nat.add_0_r.
  - cbn [execFrom indexOf]. rewrite matchAt_literal.
    destruct (startsWith (c :: text) lit).
    + simpl. by rewrite Nat.add_0_r.
    + rewrite IH. destruct (indexOf text lit) as [j|]; [|done].
      simpl. do 2 f_equal. lia.
Qed.

(** X9: a literal escaped by either revision is a pattern for that
    literal and nothing else.  [new RegExp(esc(lit))] and
    [new RegExp(reEscape(lit))] are the same pattern for every string
    [lit], and its [exec] on a text is [text.indexOf(lit)]: no match when
    [lit] does not occur, otherwise a match at the first occurrence whose
    matched text is [lit]. *)
Theorem escaped_literal_finds_first_occurrence (lit text : list N) :
  ∃ re,
    RegExp_new (esc lit) = Some re
    ∧ RegExp_new (Rev2.reEscape lit) = Some re
    ∧ exec re text = (λ i, MkMatch i [Some lit]) <$> indexOf text lit
    ∧ (∀ m, exec re text = Some m →
         ∃ before after,
           text = before ++ lit ++ after ∧ m_index m = length before
           ∧ group m 0 = Some lit).
Proof.
  destruct (RegExp_new_literal lit) as [E1 E2].
  eexists. split; [exact E1|]. split; [exact E2|].
  assert (Hex : exec (MkRegExp (RChar <$> lit) 0) text
                = (λ i, MkMatch i [Some lit]) <$> indexOf text lit).
  { unfold exec. by rewrite execFrom_literal. }
  split; [exact Hex|]. intros m. rewrite Hex. clear.
  assert (H : ∀ i, indexOf text lit = Some i →
                   ∃ before after, text = before ++ lit ++ after ∧ i = length before).
  { induction text as [|c text IH]; intros i; cbn [indexOf].
    - destruct (startsWith [] lit) eqn:E; [|done]. intros [= <-].
      apply startsWith_spec in E as [rest E]. by exists [], rest.
    - destruct (startsWith (c :: text) lit) eqn:E.
      + intros [= <-]. apply startsWith_spec in E as [rest E]. by exists [], rest.
      + destruct (indexOf text lit) as [j|]; [|done]. intros [= <-].
        destruct (IH j eq_refl) as (before & after & -> & ->).
        by exists (c :: before), after. }
  destruct (indexOf text lit) as [i|]; [|done]. intros [= <-].
  destruct (H i eq_refl) as (before & after & -> & ->).
  by exists before, after.
Qed.

(** ** Commands *)

Lemma commands_activate wb0 :
  commands (activate wb0 emptyExtensionHost)
  = [(js "relpath.insert", relpath_insert);
     (js "relpath.insertHeader", relpath_insertHeader)].
Proof. unfold activate. by destruct (default false (wb_autoInsertOnOpen wb0)). Qed.

Lemma commands_Rev2_activate wb0 :
  commands (Rev2.activate wb0 emptyExtensionHost)
  = [(js "relpath.insertAtCursor", Rev2.relpath_insertAtCursor);
     (js "relpath.insertHeader", Rev2.relpath_insertHeader);
     (js "relpath.copyRelativePath", Rev2.relpath_copyRelativePath)].
Proof.
  unfold Rev2.activate.
  by destruct (default false (wb_autoInsertOnOpen wb0)),
       (default true (wb_statusBarEnabled wb0)).
Qed.

(** X10: the command [relpath.insert] of the first revision is registered
    whatever the settings are, edits nothing and returns a string:
    the empty string without an active editor, the workspace-relative
    path (the path the header of that revision records) for a document in
    a workspace folder, the file name for a document in none; that is
    what [getRelPathOrAbs] of the second revision answers when
    [includeWorkspaceFolder] is false.  The second revision registers no
    command of that name. *)
Theorem relpath_insert_returns_the_path (wb0 wb : Workbench) :
  ∃ value,
    executeCommand (activate wb0 emptyExtensionHost) (js "relpath.insert") wb
    = Some (Completed (Some value) [])
    ∧ match wb_activeTextEditor wb with
      | None => value = []
      | Some ed =>
          (is_Some (wb_getWorkspaceFolder wb (uri (document ed))) →
           value = asRelativePath (hostOf wb) (uri (document ed)))
          ∧ (wb_getWorkspaceFolder wb (uri (document ed)) = None →
             value = fileName (document ed))
          ∧ (wb_includeWorkspaceFolder wb = Some false →
             value = Rev2.getRelPathOrAbs (hostOf wb) (document ed))
      end
    ∧ executeCommand (Rev2.activate wb0 emptyExtensionHost) (js "relpath.insert") wb
      = None.
Proof.
  unfold executeCommand. rewrite commands_activate, commands_Rev2_activate.
  change (lookupCommand (js "relpath.insert")
            [(js "relpath.insert", relpath_insert);
             (js "relpath.insertHeader", relpath_insertHeader)])
    with (Some relpath_insert).
  change (lookupCommand (js "relpath.insert") _) with (@None (Workbench → Completion)).
  cbn [fmap option_fmap option_map]. unfold relpath_insert.
  destruct (wb_activeTextEditor wb) as [ed|]; [|by eexists].
  eexists. split; [done|]. split; [|done]. unfold Rev2.getRelPathOrAbs.
  cbn [hostOf getWorkspaceFolder asRelativePath cfg_includeWorkspaceFolder].
  destruct (wb_getWorkspaceFolder wb (uri (document ed))) as [ws|].
  - split; [done|]. split; [done|]. by intros ->.
  - split; [by intros [? [=]]|]. done.
Qed.

Lemma insertHeader_command wb ed :
  wb_activeTextEditor wb = Some ed →
  activeTextEditor (hostOf wb) = Some (docId (document ed)).
Proof. intros E. cbn [hostOf activeTextEditor]. by rewrite E. Qed.

(** X11: the command [relpath.insertHeader], in both revisions: without
    an active editor it returns having changed nothing; with one it
    hands the document of the editor to [ensureHeader].  When the comment
    tokens of the language are of the declared type, [ensureHeader]
    reaches its one [editor.edit] on that document, with at most one edit
    registered, and the command completes; when the language identifier
    names a property of [Object.prototype], [ensureHeader] throws and the
    command rejects without any edit. *)
Theorem insertHeader_command_reaches_the_edit (wb0 wb : Workbench) :
  match wb_activeTextEditor wb with
  | None =>
      executeCommand (activate wb0 emptyExtensionHost) (js "relpath.insertHeader") wb
      = Some (Completed None [])
      ∧ executeCommand (Rev2.activate wb0 emptyExtensionHost)
          (js "relpath.insertHeader") wb
        = Some (Completed None [])
  | Some ed =>
      match getCommentTokens (languageId (document ed)) with
      | Typed _ =>
          (∃ edits,
             executeCommand (activate wb0 emptyExtensionHost)
               (js "relpath.insertHeader") wb
             = Some (Completed None [Did (EditorEdit (docId (document ed)) edits)])
             ∧ ensureHeader (hostOf wb) (document ed)
               = Returned [EditorEdit (docId (document ed)) edits]
             ∧ length edits ≤ 1)
          ∧ (∃ edits,
             executeCommand (Rev2.activate wb0 emptyExtensionHost)
               (js "relpath.insertHeader") wb
             = Some (Completed None [Did (EditorEdit (docId (document ed)) edits)])
             ∧ Rev2.ensureHeader (hostOf wb) (document ed)
               = Returned [EditorEdit (docId (document ed)) edits]
             ∧ length edits ≤ 1)
      | LineOfInherited _ | BlockOfInherited _ =>
          languageId (document ed) ∈ objectPrototypeKeys
          ∧ ensureHeader (hostOf wb) (document ed) = Threw
          ∧ Rev2.ensureHeader (hostOf wb) (document ed) = Threw
          ∧ executeCommand (activate wb0 emptyExtensionHost)
              (js "relpath.insertHeader") wb
            = Some Rejected
          ∧ executeCommand (Rev2.activate wb0 emptyExtensionHost)
              (js "relpath.insertHeader") wb
            = Some Rejected
      end
  end.
Proof.
  unfold executeCommand. rewrite commands_activate, commands_Rev2_activate.
  change (lookupCommand (js "relpath.insertHeader")
            [(js "relpath.insert", relpath_insert);
             (js "relpath.insertHeader", relpath_insertHeader)])
    with (Some relpath_insertHeader).
  change (lookupCommand (js "relpath.insertHeader") _)
    with (Some Rev2.relpath_insertHeader).
  cbn [fmap option_fmap option_map].
  unfold relpath_insertHeader, Rev2.relpath_insertHeader.
  destruct (wb_activeTextEditor wb) as [ed|] eqn:Eed; [|done].
  pose proof (insertHeader_command wb ed Eed) as Ha.
  destruct (getCommentTokens_cases (languageId (document ed))) as [[Hk E]|[Hk E]];
    rewrite E.
  - destruct (ensureHeader_inherited _ _ Hk Ha) as [E1 E2]. rewrite E1, E2.
    split; [exact Hk|]. by repeat split.
  - rewrite (ensureHeader_active _ _ Hk Ha), (Rev2_ensureHeader_active _ _ Hk Ha).
    split; eexists; (split; [reflexivity|split; [reflexivity|]]);
      apply headerEdits_at_most_one.
Qed.

(** X12: [relpath.insertAtCursor] with one cursor, in a document whose
    lines hold no line break and for a path without CR and LF: the one
    edit registered inserts [getRelPathOrAbs] at the cursor, and
    afterwards the line of the cursor holds the path between what was
    before and what was after the cursor, every other line being as it
    was.  [relpath.copyRelativePath] puts that same path on the clipboard
    and shows [RelPath copied: ] followed by it for 2000 ms, without any
    edit. *)
Theorem insertAtCursor_changes_only_the_cursor_line (wb0 wb : Workbench)
    (ed : TextEditor) (sel : Selection) :
  wb_activeTextEditor wb = Some ed → selections ed = [sel] →
  wfDoc (document ed) →
  noEol (Rev2.getRelPathOrAbs (hostOf wb) (document ed)) →
  let doc := document ed in
  let text := Rev2.getRelPathOrAbs (hostOf wb) doc in
  let j := line (validatePosition doc (active sel)) in
  let c := character (validatePosition doc (active sel)) in
  executeCommand (Rev2.activate wb0 emptyExtensionHost) (js "relpath.insertAtCursor") wb
  = Some (Completed None [Did (EditorEdit (docId doc) [EditInsert (active sel) text])])
  ∧ lines (afterCompletion doc
             (Completed None [Did (EditorEdit (docId doc) [EditInsert (active sel) text])]))
    = take j (lines doc)
      ++ [take c (lineText doc j) ++ text ++ drop c (lineText doc j)]
      ++ drop (S j) (lines doc)
  ∧ executeCommand (Rev2.activate wb0 emptyExtensionHost)
      (js "relpath.copyRelativePath") wb
    = Some (Completed None
              [ClipboardWriteText text;
               SetStatusBarMessage (js "RelPath copied: " ++ text) 2000]).
Proof.
  intros Eed Hsel Hwf Htext doc text j c.
  unfold executeCommand. rewrite commands_Rev2_activate.
  change (lookupCommand (js "relpath.insertAtCursor") _)
    with (Some Rev2.relpath_insertAtCursor).
  change (lookupCommand (js "relpath.copyRelativePath") _)
    with (Some Rev2.relpath_copyRelativePath).
  cbn [fmap option_fmap option_map].
  unfold Rev2.relpath_insertAtCursor, Rev2.relpath_copyRelativePath.
  rewrite Eed, Hsel. split; [done|]. split; [|done].
  unfold afterCompletion.
  change (effectsOf _) with [EditorEdit (docId doc) [EditInsert (active sel) text]].
  rewrite afterOutcome_edit. cbn [applyEdits foldl].
  by apply insert_in_line.
Qed.

(** ** Events *)

Section events.
Implicit Types (x : ExtensionHost) (wb : Workbench) (ev : Event).

Lemma fire_registries x wb ev :
  commands (fire x wb ev).2 = commands x
  ∧ listeners (fire x wb ev).2 = listeners x
  ∧ subscriptions (fire x wb ev).2 = subscriptions x.
Proof. unfold fire. by destruct (foldl _ _ _). Qed.

Lemma fireAll_snoc x evs wb ev :
  fireAll x (evs ++ [(wb, ev)]) = (fire (fireAll x evs) wb ev).2.
Proof. unfold fireAll. by rewrite foldl_app. Qed.

Lemma fireAll_registries x evs :
  commands (fireAll x evs) = commands x
  ∧ listeners (fireAll x evs) = listeners x
  ∧ subscriptions (fireAll x evs) = subscriptions x.
Proof.
  induction evs as [|[wb ev] evs IH] using rev_ind; [done|].
  rewrite fireAll_snoc. destruct (fire_registries (fireAll x evs) wb ev) as (-> & -> & ->).
  exact IH.
Qed.

(** What a run of [fire] over the listeners [ls] gives, by the listeners
    of the event among them. *)
Lemma fire_fold wb ev ls cs sb :
  foldl (λ '(cs, sb) l,
           match handlerFor ev l with
           | Some f => let '(c, sb') := f wb sb in (cs ++ [c], sb')
           | None => (cs, sb)
           end) (cs, sb) ls
  = foldl (λ '(cs, sb) f, let '(c, sb') := f wb sb in (cs ++ [c], sb'))
      (cs, sb) (omap (handlerFor ev) ls).
Proof.
  revert cs sb. induction ls as [|l ls IH]; intros cs sb; [done|].
  cbn [foldl omap list_omap]. destruct (handlerFor ev l) as [f|]; [|apply IH].
  cbn [foldl]. destruct (f wb sb) as [c sb']. apply IH.
Qed.

Lemma fire_handlers x wb ev :
  fire x wb ev
  = let '(cs, sb) :=
      foldl (λ '(cs, sb) f, let '(c, sb') := f wb sb in (cs ++ [c], sb'))
        ([], statusBarItem x) (omap (handlerFor ev) (listeners x)) in
    (cs, MkExtensionHost (commands x) (listeners x) sb (subscriptions x)).
Proof. unfold fire. by rewrite fire_fold. Qed.
End events.

Lemma listeners_activate wb0 :
  listeners (activate wb0 emptyExtensionHost)
  = if default false (wb_autoInsertOnOpen wb0)
    then [OnDidChangeActiveTextEditor
            (λ ed wb, plainHandler (onEditorEnsureHeader ed wb));
          OnDidSaveTextDocument (λ doc wb, plainHandler (onSaveEnsureHeader doc wb))]
    else [].
Proof. unfold activate. by destruct (default false (wb_autoInsertOnOpen wb0)). Qed.

Lemma listeners_Rev2_activate wb0 :
  listeners (Rev2.activate wb0 emptyExtensionHost)
  = (if default false (wb_autoInsertOnOpen wb0)
     then [OnDidChangeActiveTextEditor
             (λ ed wb, plainHandler (Rev2.onEditorEnsureHeader ed wb));
           OnDidSaveTextDocument
             (λ doc wb, plainHandler (Rev2.onSaveEnsureHeader doc wb))]
     else [])
    ++ (if default true (wb_statusBarEnabled wb0)
        then [OnDidChangeActiveTextEditor (λ _, Rev2.onUpdateSb);
              OnDidOpenTextDocument (λ _, Rev2.onUpdateSb);
              OnDidSaveTextDocument (λ _, Rev2.onUpdateSb);
              OnDidCloseTextDocument (λ _, Rev2.onUpdateSb)]
        else []).
Proof.
  unfold Rev2.activate.
  by destruct (default false (wb_autoInsertOnOpen wb0)),
       (default true (wb_statusBarEnabled wb0)).
Qed.

(** X13: auto-insert is off unless asked for.  When the setting
    [relpath.autoInsertOnOpen] is unset or false at activation, no event
    (editor change, open, save, close), after any run of earlier events,
    makes a listener of either revision edit a document, write to the
    clipboard or show a message: the first revision has no listener at
    all, those of the second only update the status bar item. *)
Theorem events_are_silent_unless_auto_insert_is_on (wb0 : Workbench)
    (evs : list (Workbench * Event)) (wb : Workbench) (ev : Event) :
  default false (wb_autoInsertOnOpen wb0) = false →
  (fire (fireAll (activate wb0 emptyExtensionHost) evs) wb ev).1 = []
  ∧ Forall silent (fire (fireAll (Rev2.activate wb0 emptyExtensionHost) evs) wb ev).1.
Proof.
  intros Hoff. rewrite !fire_handlers.
  destruct (fireAll_registries (activate wb0 emptyExtensionHost) evs) as (_ & -> & _).
  destruct (fireAll_registries (Rev2.activate wb0 emptyExtensionHost) evs)
    as (_ & -> & _).
  rewrite listeners_activate, listeners_Rev2_activate, Hoff.
  split; [done|].
  generalize (statusBarItem (fireAll (Rev2.activate wb0 emptyExtensionHost) evs)).
  intros sb.
  destruct (default true (wb_statusBarEnabled wb0)); [|constructor].
  destruct ev; cbn; by repeat constructor.
Qed.

(** X14: with [relpath.autoInsertOnOpen] on at activation, an editor
    change hands the document of the new editor, and a save the saved
    document, to [ensureHeader], once; every other listener edits
    nothing, and neither does [ensureHeader] itself when the document it
    gets is not the one of the active editor (a save in the background). *)
Theorem auto_insert_hands_the_event_document_to_ensureHeader (wb0 : Workbench)
    (evs : list (Workbench * Event)) (wb : Workbench) (ev : Event) :
  default false (wb_autoInsertOnOpen wb0) = true →
  (∃ rest,
     (fire (fireAll (activate wb0 emptyExtensionHost) evs) wb ev).1
     = match synchronized ev with
       | Some doc => [awaitOutcome (ensureHeader (hostOf wb) doc)]
       | None => []
       end ++ rest
     ∧ Forall silent rest)
  ∧ (∃ rest,
     (fire (fireAll (Rev2.activate wb0 emptyExtensionHost) evs) wb ev).1
     = match synchronized ev with
       | Some doc => [awaitOutcome (Rev2.ensureHeader (hostOf wb) doc)]
       | None => []
       end ++ rest
     ∧ Forall silent rest)
  ∧ (∀ doc, synchronized ev = Some doc →
       (∀ ed, wb_activeTextEditor wb = Some ed → docId (document ed) ≠ docId doc) →
       silent (awaitOutcome (ensureHeader (hostOf wb) doc))
       ∧ silent (awaitOutcome (Rev2.ensureHeader (hostOf wb) doc))).
Proof.
  intros Hon. rewrite !fire_handlers.
  destruct (fireAll_registries (activate wb0 emptyExtensionHost) evs) as (_ & -> & _).
  destruct (fireAll_registries (Rev2.activate wb0 emptyExtensionHost) evs)
    as (_ & -> & _).
  rewrite listeners_activate, listeners_Rev2_activate, Hon.
  generalize (statusBarItem (fireAll (activate wb0 emptyExtensionHost) evs)).
  generalize (statusBarItem (fireAll (Rev2.activate wb0 emptyExtensionHost) evs)).
  intros sb2 sb1. split; [|split].
  - destruct ev as [[ed|]|doc|doc|doc]; cbn.
    + by exists [].
    + exists [Completed None []]. split; [done|by repeat constructor].
    + by exists [].
    + by exists [].
    + by exists [].
  - destruct (default true (wb_statusBarEnabled wb0));
      destruct ev as [[ed|]|doc|doc|doc]; cbn;
      first [ by exists []
            | exists [Completed None []]; split; [done|by repeat constructor]
            | exists [Completed None []; Completed None []];
              split; [done|by repeat constructor] ].
  - intros doc _ Hother.
    assert (Hn : activeTextEditor (hostOf wb) ≠ Some (docId doc)).
    { cbn [hostOf activeTextEditor].
      destruct (wb_activeTextEditor wb) as [ed|]; [|done].
      intros [= E]. by apply (Hother ed). }
    destruct (ensureHeader_inactive _ doc Hn) as [-> ->]. done.
Qed.

(** ** The status bar item *)

Lemma updateSb_shows wb sb : showsActiveEditor wb (Rev2.updateSb wb sb).
Proof.
  unfold showsActiveEditor, Rev2.updateSb.
  by destruct (wb_activeTextEditor wb).
Qed.

Lemma updateSb_keeps wb sb :
  sb_alignment (Rev2.updateSb wb sb) = sb_alignment sb
  ∧ sb_priority (Rev2.updateSb wb sb) = sb_priority sb
  ∧ sb_command (Rev2.updateSb wb sb) = sb_command sb.
Proof. unfold Rev2.updateSb. by destruct (wb_activeTextEditor wb). Qed.

Lemma statusBarItem_Rev2_activate wb0 :
  statusBarItem (Rev2.activate wb0 emptyExtensionHost)
  = if default true (wb_statusBarEnabled wb0)
    then Some (Rev2.updateSb wb0
                 (MkStatusBarItem AlignLeft 98 (Some (js "relpath.insertAtCursor"))
                    [] None false))
    else None.
Proof.
  unfold Rev2.activate.
  by destruct (default false (wb_autoInsertOnOpen wb0)),
       (default true (wb_statusBarEnabled wb0)).
Qed.

Lemma statusBarItem_fire wb0 x wb ev :
  listeners x = listeners (Rev2.activate wb0 emptyExtensionHost) →
  statusBarItem (fire x wb ev).2
  = if default true (wb_statusBarEnabled wb0)
    then Rev2.updateSb wb <$> statusBarItem x
    else statusBarItem x.
Proof.
  intros Hl. rewrite fire_handlers, Hl, listeners_Rev2_activate.
  generalize (statusBarItem x). intros sb.
  destruct (default false (wb_autoInsertOnOpen wb0)),
    (default true (wb_statusBarEnabled wb0)), ev; reflexivity.
Qed.

Lemma lastWorkbench_snoc wb0 evs wb ev : lastWorkbench wb0 (evs ++ [(wb, ev)]) = wb.
Proof. unfold lastWorkbench. by rewrite last_snoc. Qed.

(** X15: the status bar item of the second revision.  After activation
    and after every run of events there is an item exactly when
    [relpath.statusBar.enabled] was unset or true at activation; it is on
    the left with priority 98, its command is [relpath.insertAtCursor],
    and it shows the workbench of the last event: hidden without an
    active editor, otherwise visible with the text [$(file-code) ]
    followed by the workspace-relative path of the active document. *)
Theorem status_bar_item_follows_the_active_editor (wb0 : Workbench)
    (evs : list (Workbench * Event)) :
  match statusBarItem (fireAll (Rev2.activate wb0 emptyExtensionHost) evs) with
  | Some sb =>
      default true (wb_statusBarEnabled wb0) = true
      ∧ sb_alignment sb = AlignLeft ∧ sb_priority sb = 98
      ∧ sb_command sb = Some (js "relpath.insertAtCursor")
      ∧ showsActiveEditor (lastWorkbench wb0 evs) sb
  | None => default true (wb_statusBarEnabled wb0) = false
  end.
Proof.
  induction evs as [|[wb ev] evs IH] using rev_ind.
  - change (fireAll ?x []) with x. rewrite statusBarItem_Rev2_activate.
    destruct (default true (wb_statusBarEnabled wb0)); [|done].
    destruct (updateSb_keeps wb0
                (MkStatusBarItem AlignLeft 98 (Some (js "relpath.insertAtCursor"))
                   [] None false)) as (-> & -> & ->).
    repeat split. apply updateSb_shows.
  - rewrite fireAll_snoc, lastWorkbench_snoc.
    rewrite (statusBarItem_fire wb0)
      by apply (fireAll_registries (Rev2.activate wb0 emptyExtensionHost) evs).
    destruct (statusBarItem (fireAll (Rev2.activate wb0 emptyExtensionHost) evs))
      as [sb|].
    + destruct IH as (-> & Ha & Hp & Hc & _). cbn [fmap option_fmap option_map].
      destruct (updateSb_keeps wb sb) as (-> & -> & ->).
      repeat split; try assumption. apply updateSb_shows.
    + by rewrite IH.
Qed.

Lemma getRelPathOrAbs_plain h doc :
  Rev2.getRelPathOrAbs h doc = asRelativePath h (uri doc) ↔ plainRelativePath h doc.
Proof.
  unfold Rev2.getRelPathOrAbs, plainRelativePath.
  destruct (getWorkspaceFolder h (uri doc)) as [ws|].
  - destruct (cfg_includeWorkspaceFolder h) as [[]|]; cbn [default from_option id].
    + split; [|by intros [[_ [=]]|[[=] _]]].
      intros Hl. apply (f_equal length) in Hl.
      rewrite !length_app in Hl. simpl in Hl. lia.
    + split; [intros _; left; split; [by eexists|done]|done].
    + split; [|by intros [[_ [=]]|[[=] _]]].
      intros Hl. apply (f_equal length) in Hl.
      rewrite !length_app in Hl. simpl in Hl. lia.
  - split; [by right|]. by intros [[[? [=]] _]|[_ ?]].
Qed.

(** X16: what the status bar item shows and what a click on it inserts.
    With an active editor, [updateSb] writes [asRelativePath] into the
    item, the command of the item, [relpath.insertAtCursor], inserts
    [getRelPathOrAbs], and the path shown is the path inserted exactly
    when the document is in a workspace folder with
    [includeWorkspaceFolder] false, or in none with a file name equal to
    its relative path. *)
Theorem status_bar_shows_the_inserted_path_iff_plain (wb : Workbench)
    (ed : TextEditor) (sb : StatusBarItem) :
  wb_activeTextEditor wb = Some ed →
  Rev2.relpath_insertAtCursor wb
  = Completed None
      [Did (EditorEdit (docId (document ed))
              ((λ sel, EditInsert (active sel)
                         (Rev2.getRelPathOrAbs (hostOf wb) (document ed)))
                 <$> selections ed))]
  ∧ (sb_text (Rev2.updateSb wb sb)
     = js "$(file-code) " ++ Rev2.getRelPathOrAbs (hostOf wb) (document ed)
     ↔ plainRelativePath (hostOf wb) (document ed)).
Proof.
  intros Hed. split.
  { unfold Rev2.relpath_insertAtCursor. by rewrite Hed. }
  unfold Rev2.updateSb. rewrite Hed. cbn [sb_text].
  rewrite <- getRelPathOrAbs_plain.
  change (asRelativePath (hostOf ?w) ?u) with (wb_asRelativePath w u). split.
  - intros E. by apply app_inv_head in E.
  - by intros ->.
Qed.

(** ** What [deactivate] leaves to the host *)

Lemma subscriptions_activate wb0 :
  subscriptions (activate wb0 emptyExtensionHost)
  = (if default false (wb_autoInsertOnOpen wb0)
     then [ListenerRegistration 0; ListenerRegistration 1] else [])
    ++ [CommandRegistration (js "relpath.insert");
        CommandRegistration (js "relpath.insertHeader")].
Proof. unfold activate. by destruct (default false (wb_autoInsertOnOpen wb0)). Qed.

Lemma subscriptions_Rev2_activate wb0 :
  subscriptions (Rev2.activate wb0 emptyExtensionHost)
  = [CommandRegistration (js "relpath.insertAtCursor");
     CommandRegistration (js "relpath.insertHeader");
     CommandRegistration (js "relpath.copyRelativePath")]
    ++ (if default false (wb_autoInsertOnOpen wb0)
        then [ListenerRegistration 0; ListenerRegistration 1] else [])
    ++ (if default true (wb_statusBarEnabled wb0)
        then StatusBarItemHandle
             :: (ListenerRegistration
                   <$> seq (if default false (wb_autoInsertOnOpen wb0) then 2 else 0) 4)
        else []).
Proof.
  unfold Rev2.activate.
  by destruct (default false (wb_autoInsertOnOpen wb0)),
       (default true (wb_statusBarEnabled wb0)).
Qed.

Lemma registrations_subscribed (cmds : list (list N)) (n : nat) (sb : bool)
    (subs : list Disposable) :
  bool_decide (Forall (λ id, CommandRegistration id ∈ subs) cmds
               ∧ Forall (λ i, ListenerRegistration i ∈ subs) (seq 0 n)
               ∧ (sb = true → StatusBarItemHandle ∈ subs)
               ∧ NoDup subs) = true →
  (∀ id, id ∈ cmds → CommandRegistration id ∈ subs)
  ∧ (∀ i, i < n → ListenerRegistration i ∈ subs)
  ∧ (sb = true → StatusBarItemHandle ∈ subs)
  ∧ NoDup subs.
Proof.
  intros H. apply bool_decide_eq_true in H as (H1 & H2 & H3 & H4).
  split; [by apply Forall_forall|]. split; [|done].
  intros i Hi. apply (proj1 (Forall_forall _ _) H2 i). apply elem_of_seq. lia.
Qed.

(** X17: nothing registered outlives the extension.  After [activate] of
    either revision, whatever the settings, every command, every listener
    and the status bar item have their disposable in [ctx.subscriptions],
    no disposable is there twice, and neither events nor [deactivate]
    change the list. *)
Theorem every_registration_is_in_subscriptions (wb0 : Workbench) (x : ExtensionHost) :
  x = activate wb0 emptyExtensionHost ∨ x = Rev2.activate wb0 emptyExtensionHost →
  (∀ id, id ∈ (commands x).*1 → CommandRegistration id ∈ subscriptions x)
  ∧ (∀ n, n < length (listeners x) → ListenerRegistration n ∈ subscriptions x)
  ∧ (is_Some (statusBarItem x) → StatusBarItemHandle ∈ subscriptions x)
  ∧ NoDup (subscriptions x)
  ∧ ∀ evs, subscriptions (deactivate (fireAll x evs)) = subscriptions x.
Proof.
  intros Hx.
  assert (H : (∀ id, id ∈ (commands x).*1 → CommandRegistration id ∈ subscriptions x)
              ∧ (∀ n, n < length (listeners x) →
                      ListenerRegistration n ∈ subscriptions x)
              ∧ (bool_decide (is_Some (statusBarItem x)) = true →
                 StatusBarItemHandle ∈ subscriptions x)
              ∧ NoDup (subscriptions x)).
  { apply registrations_subscribed. destruct Hx as [-> | ->].
    - rewrite commands_activate, listeners_activate, subscriptions_activate.
      assert (statusBarItem (activate wb0 emptyExtensionHost) = None) as ->.
      { unfold activate. by destruct (default false (wb_autoInsertOnOpen wb0)). }
      by destruct (default false (wb_autoInsertOnOpen wb0)); vm_compute.
    - rewrite commands_Rev2_activate, listeners_Rev2_activate,
        subscriptions_Rev2_activate, statusBarItem_Rev2_activate.
      by destruct (default false (wb_autoInsertOnOpen wb0)),
           (default true (wb_statusBarEnabled wb0)); vm_compute. }
  destruct H as (H1 & H2 & H3 & H4). repeat split; try assumption.
  - intros Hs. apply H3. by apply bool_decide_eq_true.
  - intros evs. apply fireAll_registries.
Qed.

(** ** The snippet of the README and the header command *)

Lemma exec_header_first_line (h : Host) (doc : TextDocument) (rel : list N) rest :
  rel ≠ [] → noLineTerminator rel → trim rel = rel →
  lines doc
  = headerLine (tableTokens (languageId doc)) (configuredLabel h) rel :: rest →
  rest ≠ [] →
  ∃ m0,
    exec (MkRegExp (headerTerms (tokStart (tableTokens (languageId doc)))
                      (configuredLabel h)
                      (tokEnd (tableTokens (languageId doc)))) 1)
      (firstChunk doc)
    = Some (MkMatch 0 [Some m0; Some rel]).
Proof.
  intros Hne Hrel Htrim Hl Hrest.
  apply (exec_sees_header doc _ _ rel
           [headerLine (tableTokens (languageId doc)) (configuredLabel h) rel]
           rest []).
  - apply tableTokens_ok.
  - exact Hne.
  - exact Hrel.
  - intros c. by apply trim_fixed_head.
  - exact Hl.
  - exact Hrest.
  - simpl. lia.
  - by rewrite withBreaks_singleton.
  - constructor.
Qed.

(** X18: the snippet of the README and the header command agree.  In a
    file with [// ] comments inside a workspace folder, with the default
    label, whose first line is the snippet body [// Path: ] followed by
    what [relpath.insert] returns (a path that is not empty, holds no line
    terminator and has no white space at either end) and that has a
    second line: [relpath.insertHeader] of the first revision finds that
    line and registers no edit. *)
Theorem snippet_header_is_left_alone (wb0 wb : Workbench) (ed : TextEditor)
    (r : list N) (rest : list (list N)) :
  wb_activeTextEditor wb = Some ed →
  is_Some (wb_getWorkspaceFolder wb (uri (document ed))) →
  wb_label wb = None →
  getCommentTokens (languageId (document ed)) = Typed (LineTokens (js "// ")) →
  executeCommand (activate wb0 emptyExtensionHost) (js "relpath.insert") wb
  = Some (Completed (Some r) []) →
  r ≠ [] → noLineTerminator r → trim r = r →
  lines (document ed) = (js "// Path: " ++ r) :: rest → rest ≠ [] →
  executeCommand (activate wb0 emptyExtensionHost) (js "relpath.insertHeader") wb
  = Some (Completed None [Did (EditorEdit (docId (document ed)) [])]).
Proof.
  intros Eed [ws Hws] Hlabel Htok Hins Hne Hrel Htrim Hl Hrest.
  unfold executeCommand in *. rewrite commands_activate in *.
  change (lookupCommand (js "relpath.insert") _) with (Some relpath_insert) in Hins.
  change (lookupCommand (js "relpath.insertHeader") _) with (Some relpath_insertHeader).
  cbn [fmap option_fmap option_map] in *.
  unfold relpath_insert in Hins. unfold relpath_insertHeader.
  rewrite Eed in *. rewrite Hws in Hins.
  assert (Hr : asRelativePath (hostOf wb) (uri (document ed)) = r)
    by (injection Hins as Hins; exact Hins).
  assert (Hlab : configuredLabel (hostOf wb) = js "Path").
  { unfold configuredLabel. cbn [hostOf cfg_label]. by rewrite Hlabel. }
  pose proof (insertHeader_command wb ed Eed) as Ha.
  apply getCommentTokens_Typed in Htok as [Htok Hk]. symmetry in Htok.
  rewrite (ensureHeader_active _ _ Hk Ha).
  destruct (exec_header_first_line (hostOf wb) (document ed) r rest Hne Hrel Htrim)
    as [m0 Hm0]; [|exact Hrest|].
  { rewrite Hl, Htok, Hlab. unfold headerLine. cbn [tokStart tokEnd].
    by rewrite app_nil_r. }
  rewrite Hm0, Hr. by rewrite headerEdits_noop.
Qed.

(** ** Instances of the properties above *)

Example header_appended_to_a_lone_shebang_line :
  lines (afterOutcome (Ex.doc "shellscript" LF [js "#!/bin/sh"])
           (ensureHeader Ex.hostPy (Ex.doc "shellscript" LF [js "#!/bin/sh"])))
  = [js "#!/bin/sh# Path: src/app.py"; []].
Proof. by vm_compute. Qed.

Lemma inserted_header_is_a_line_of_its_own_witness :
  MkPosition 3 0 = insertionPosition Ex.blankThenCode
  ∧ ∃ tokens,
      getCommentTokens (languageId Ex.blankThenCode) = Typed tokens
      ∧ lines (afterOutcome Ex.blankThenCode
                 (Returned [EditorEdit (docId Ex.blankThenCode)
                              [EditInsert (MkPosition 3 0)
                                 (js "# Path: src/app.py" ++ [Chr.CR; Chr.LF])]]))
        = if decide (line (MkPosition 3 0) < lineCount Ex.blankThenCode)
          then take (line (MkPosition 3 0)) (lines Ex.blankThenCode)
               ++ [headerLine tokens (configuredLabel Ex.hostPy) (js "src/app.py")]
               ++ drop (line (MkPosition 3 0)) (lines Ex.blankThenCode)
          else take (lineCount Ex.blankThenCode - 1) (lines Ex.blankThenCode)
               ++ [lineText Ex.blankThenCode (lineCount Ex.blankThenCode - 1)
                   ++ headerLine tokens (configuredLabel Ex.hostPy) (js "src/app.py");
                   []].
Proof.
  apply (inserted_header_is_a_line_of_its_own Ex.hostPy Ex.blankThenCode
           (js "src/app.py") (MkPosition 3 0)
           (js "# Path: src/app.py" ++ [Chr.CR; Chr.LF])).
  - split; [done|]. repeat constructor.
  - vm_compute. repeat constructor.
  - repeat constructor.
  - left. split; [by vm_compute|reflexivity].
Defined.

Lemma insertAtCursor_changes_only_the_cursor_line_witness :
  executeCommand
    (Rev2.activate (Ex.workbench Ex.oneLine (MkPosition 0 5) None) emptyExtensionHost)
    (js "relpath.insertAtCursor") (Ex.workbench Ex.oneLine (MkPosition 0 5) None)
  = Some (Completed None
            [Did (EditorEdit 1 [EditInsert (MkPosition 0 5) (js "proj/src/app.py")])])
  ∧ lines (afterCompletion Ex.oneLine
             (Completed None
                [Did (EditorEdit 1 [EditInsert (MkPosition 0 5) (js "proj/src/app.py")])]))
    = [] ++ [js "print" ++ js "proj/src/app.py" ++ js "(1)"] ++ []
  ∧ executeCommand
      (Rev2.activate (Ex.workbench Ex.oneLine (MkPosition 0 5) None) emptyExtensionHost)
      (js "relpath.copyRelativePath") (Ex.workbench Ex.oneLine (MkPosition 0 5) None)
    = Some (Completed None
              [ClipboardWriteText (js "proj/src/app.py");
               SetStatusBarMessage (js "RelPath copied: " ++ js "proj/src/app.py") 2000]).
Proof.
  apply (insertAtCursor_changes_only_the_cursor_line
           (Ex.workbench Ex.oneLine (MkPosition 0 5) None)
           (Ex.workbench Ex.oneLine (MkPosition 0 5) None)
           (MkTextEditor Ex.oneLine [MkSelection (MkPosition 0 5) (MkPosition 0 5)])
           (MkSelection (MkPosition 0 5) (MkPosition 0 5))).
  - reflexivity.
  - reflexivity.
  - split; [done|]. repeat constructor.
  - vm_compute. repeat constructor.
Defined.

Lemma events_are_silent_unless_auto_insert_is_on_witness :
  (fire (fireAll (activate Ex.workbenchNoEditor emptyExtensionHost)
           [(Ex.workbench Ex.oneLine (MkPosition 0 0) None,
             DidOpenTextDocument Ex.oneLine)])
     (Ex.workbench Ex.oneLine (MkPosition 0 0) None)
     (DidSaveTextDocument Ex.oneLine)).1 = []
  ∧ Forall silent
      (fire (fireAll (Rev2.activate Ex.workbenchNoEditor emptyExtensionHost)
               [(Ex.workbench Ex.oneLine (MkPosition 0 0) None,
                 DidOpenTextDocument Ex.oneLine)])
         (Ex.workbench Ex.oneLine (MkPosition 0 0) None)
         (DidSaveTextDocument Ex.oneLine)).1.
Proof.
  apply (events_are_silent_unless_auto_insert_is_on Ex.workbenchNoEditor
           [(Ex.workbench Ex.oneLine (MkPosition 0 0) None,
             DidOpenTextDocument Ex.oneLine)]
           (Ex.workbench Ex.oneLine (MkPosition 0 0) None)
           (DidSaveTextDocument Ex.oneLine)).
  reflexivity.
Defined.

Lemma auto_insert_hands_the_event_document_to_ensureHeader_witness :
  (∃ rest,
     (fire (fireAll (activate (Ex.workbench Ex.oneLine (MkPosition 0 0) (Some true))
                       emptyExtensionHost) [])
        (Ex.workbench Ex.oneLine (MkPosition 0 0) (Some true))
        (DidSaveTextDocument Ex.otherDoc)).1
     = match synchronized (DidSaveTextDocument Ex.otherDoc) with
       | Some doc =>
           [awaitOutcome
              (ensureHeader (hostOf (Ex.workbench Ex.oneLine (MkPosition 0 0) (Some true)))
                 doc)]
       | None => []
       end ++ rest
     ∧ Forall silent rest)
  ∧ (∃ rest,
     (fire (fireAll (Rev2.activate (Ex.workbench Ex.oneLine (MkPosition 0 0) (Some true))
                       emptyExtensionHost) [])
        (Ex.workbench Ex.oneLine (MkPosition 0 0) (Some true))
        (DidSaveTextDocument Ex.otherDoc)).1
     = match synchronized (DidSaveTextDocument Ex.otherDoc) with
       | Some doc =>
           [awaitOutcome
              (Rev2.ensureHeader
                 (hostOf (Ex.workbench Ex.oneLine (MkPosition 0 0) (Some true))) doc)]
       | None => []
       end ++ rest
     ∧ Forall silent rest)
  ∧ (∀ doc, synchronized (DidSaveTextDocument Ex.otherDoc) = Some doc →
       (∀ ed, wb_activeTextEditor (Ex.workbench Ex.oneLine (MkPosition 0 0) (Some true))
              = Some ed → docId (document ed) ≠ docId doc) →
       silent (awaitOutcome
                 (ensureHeader
                    (hostOf (Ex.workbench Ex.oneLine (MkPosition 0 0) (Some true))) doc))
       ∧ silent (awaitOutcome
                   (Rev2.ensureHeader
                      (hostOf (Ex.workbench Ex.oneLine (MkPosition 0 0) (Some true)))
                      doc))).
Proof.
  apply (auto_insert_hands_the_event_document_to_ensureHeader
           (Ex.workbench Ex.oneLine (MkPosition 0 0) (Some true)) []
           (Ex.workbench Ex.oneLine (MkPosition 0 0) (Some true))
           (DidSaveTextDocument Ex.otherDoc)).
  reflexivity.
Defined.

Lemma every_registration_is_in_subscriptions_witness :
  (∀ id, id ∈ (commands (Rev2.activate Ex.workbenchNoEditor emptyExtensionHost)).*1 →
         CommandRegistration id
         ∈ subscriptions (Rev2.activate Ex.workbenchNoEditor emptyExtensionHost))
  ∧ (∀ n, n < length (listeners (Rev2.activate Ex.workbenchNoEditor emptyExtensionHost)) →
          ListenerRegistration n
          ∈ subscriptions (Rev2.activate Ex.workbenchNoEditor emptyExtensionHost))
  ∧ (is_Some (statusBarItem (Rev2.activate Ex.workbenchNoEditor emptyExtensionHost)) →
     StatusBarItemHandle
     ∈ subscriptions (Rev2.activate Ex.workbenchNoEditor emptyExtensionHost))
  ∧ NoDup (subscriptions (Rev2.activate Ex.workbenchNoEditor emptyExtensionHost))
  ∧ ∀ evs,
      subscriptions
        (deactivate (fireAll (Rev2.activate Ex.workbenchNoEditor emptyExtensionHost) evs))
      = subscriptions (Rev2.activate Ex.workbenchNoEditor emptyExtensionHost).
Proof.
  apply (every_registration_is_in_subscriptions Ex.workbenchNoEditor
           (Rev2.activate Ex.workbenchNoEditor emptyExtensionHost)).
  right. reflexivity.
Defined.

Lemma snippet_header_is_left_alone_witness :
  executeCommand
    (activate (Ex.workbench Ex.snippetDoc (MkPosition 0 0) None) emptyExtensionHost)
    (js "relpath.insertHeader") (Ex.workbench Ex.snippetDoc (MkPosition 0 0) None)
  = Some (Completed None [Did (EditorEdit (docId Ex.snippetDoc) [])]).
Proof.
  apply (snippet_header_is_left_alone
           (Ex.workbench Ex.snippetDoc (MkPosition 0 0) None)
           (Ex.workbench Ex.snippetDoc (MkPosition 0 0) None)
           (MkTextEditor Ex.snippetDoc [MkSelection (MkPosition 0 0) (MkPosition 0 0)])
           (js "src/app.py") [js "export {}"]).
  - reflexivity.
  - by eexists.
  - reflexivity.
  - by vm_compute.
  - reflexivity.
  - done.
  - repeat constructor.
  - by vm_compute.
  - reflexivity.
  - done.
Defined.

Lemma getCommentTokens_delimiters_witness :
  (∃ c s, tokStart (BlockTokens (js "<!-- ") (js " -->")) = c :: s ++ [Chr.SP]
          ∧ isSpace c = false)
  ∧ noLineTerminator (tokStart (BlockTokens (js "<!-- ") (js " -->")))
  ∧ noLineTerminator (tokEnd (BlockTokens (js "<!-- ") (js " -->")))
  ∧ (∀ s e, BlockTokens (js "<!-- ") (js " -->") = BlockTokens s e →
       getProperty lineMap (js "html") = Undefined
       ∧ getProperty blockMap (js "html") = Own (s, e)
       ∧ ∃ e' d, e = Chr.SP :: e' ++ [d] ∧ isSpace d = false)
  ∧ (∀ line, getProperty lineMap (js "html") = Own line →
       BlockTokens (js "<!-- ") (js " -->") = LineTokens line
       ∧ getProperty blockMap (js "html") = Undefined)
  ∧ js "html" ∉ objectPrototypeKeys.
Proof.
  apply (getCommentTokens_delimiters (js "html") (BlockTokens (js "<!-- ") (js " -->"))).
  by vm_compute.
Defined.

Lemma headerText_is_one_line_witness :
  noEol (headerLine (BlockTokens (js "<!-- ") (js " -->")) (js "Path") (js "a/b.html"))
  ∧ splitLines (headerText (BlockTokens (js "<!-- ") (js " -->")) (js "Path")
                  (js "a/b.html") CRLF)
    = [headerLine (BlockTokens (js "<!-- ") (js " -->")) (js "Path") (js "a/b.html");
       []].
Proof.
  apply (headerText_is_one_line (js "html") (BlockTokens (js "<!-- ") (js " -->"))
           (js "Path") (js "a/b.html") CRLF).
  - by vm_compute.
  - repeat constructor.
  - repeat constructor.
Defined.

Lemma headerRegex_reads_back_headerText_witness :
  ∃ re,
    headerRegex (BlockTokens (js "/* ") (js " */")) (js "File") = Some re
    ∧ Rev2.headerRegex (BlockTokens (js "/* ") (js " */")) (js "File") = Some re
    ∧ exec re ([Chr.LF; Chr.SP]
                ++ headerText (BlockTokens (js "/* ") (js " */")) (js "File")
                     (js "a b.css") LF
                ++ js "body { }")
      = Some (MkMatch 0
                [Some ([Chr.LF; Chr.SP]
                       ++ headerText (BlockTokens (js "/* ") (js " */")) (js "File")
                            (js "a b.css") LF);
                 Some (js "a b.css")]).
Proof.
  apply (headerRegex_reads_back_headerText (js "css")
           (BlockTokens (js "/* ") (js " */")) (js "File") (js "a b.css") LF
           [Chr.LF; Chr.SP] (js "body { }")).
  - by vm_compute.
  - repeat constructor.
  - done.
  - repeat constructor.
  - intros c [= <-]. reflexivity.
Defined.

Lemma Rev2_ensureHeader_twice_registers_no_edit_witness :
  Rev2.ensureHeader Ex.hostInFolder
    (afterOutcome Ex.blankThenCode (Rev2.ensureHeader Ex.hostInFolder Ex.blankThenCode))
  = Returned [EditorEdit (docId Ex.blankThenCode) []]
  ∧ afterOutcome
      (afterOutcome Ex.blankThenCode (Rev2.ensureHeader Ex.hostInFolder Ex.blankThenCode))
      (Rev2.ensureHeader Ex.hostInFolder
         (afterOutcome Ex.blankThenCode
            (Rev2.ensureHeader Ex.hostInFolder Ex.blankThenCode)))
    = afterOutcome Ex.blankThenCode (Rev2.ensureHeader Ex.hostInFolder Ex.blankThenCode).
Proof.
  apply (Rev2_ensureHeader_twice_registers_no_edit Ex.hostInFolder Ex.blankThenCode).
  - split; [done|]. repeat constructor.
  - reflexivity.
  - intros E. vm_compute in E. discriminate E.
  - done.
  - repeat constructor.
  - by vm_compute.
  - vm_compute. repeat constructor.
  - intros p t E. vm_compute in E. injection E as <- _.
    split; [by vm_compute|]. vm_compute. lia.
Defined.

Lemma shebang_document_always_gets_an_insert_witness :
  ensureHeader Ex.hostPy (Ex.afterFirstRun Ex.shebangScript)
  = Returned [EditorEdit (docId (Ex.afterFirstRun Ex.shebangScript))
                [EditInsert (insertionPosition (Ex.afterFirstRun Ex.shebangScript))
                   (headerText (LineTokens (js "# "))
                      (configuredLabel Ex.hostPy)
                      (asRelativePath Ex.hostPy (uri (Ex.afterFirstRun Ex.shebangScript)))
                      (eol (Ex.afterFirstRun Ex.shebangScript)))]]
  ∧ Rev2.ensureHeader Ex.hostPy (Ex.afterFirstRun Ex.shebangScript)
    = Returned [EditorEdit (docId (Ex.afterFirstRun Ex.shebangScript))
                  [EditInsert (insertionPosition (Ex.afterFirstRun Ex.shebangScript))
                     (headerText (LineTokens (js "# "))
                        (configuredLabel Ex.hostPy)
                        (Rev2.getRelPathOrAbs Ex.hostPy (Ex.afterFirstRun Ex.shebangScript))
                        (eol (Ex.afterFirstRun Ex.shebangScript)))]]
  ∧ 1 ≤ line (insertionPosition (Ex.afterFirstRun Ex.shebangScript)).
Proof.
  apply (shebang_document_always_gets_an_insert Ex.hostPy
           (Ex.afterFirstRun Ex.shebangScript) (LineTokens (js "# "))).
  - by vm_compute.
  - reflexivity.
  - by vm_compute.
  - by vm_compute.
Defined.

Lemma status_bar_shows_the_inserted_path_iff_plain_witness :
  Rev2.relpath_insertAtCursor (Ex.workbench Ex.oneLine (MkPosition 0 0) None)
  = Completed None
      [Did (EditorEdit (docId Ex.oneLine)
              ((λ sel, EditInsert (active sel)
                         (Rev2.getRelPathOrAbs
                            (hostOf (Ex.workbench Ex.oneLine (MkPosition 0 0) None))
                            Ex.oneLine))
                 <$> [MkSelection (MkPosition 0 0) (MkPosition 0 0)]))]
  ∧ (sb_text (Rev2.updateSb (Ex.workbench Ex.oneLine (MkPosition 0 0) None)
                (MkStatusBarItem AlignLeft 98 (Some (js "relpath.insertAtCursor"))
                   [] None false))
     = js "$(file-code) "
       ++ Rev2.getRelPathOrAbs (hostOf (Ex.workbench Ex.oneLine (MkPosition 0 0) None))
            Ex.oneLine
     ↔ plainRelativePath (hostOf (Ex.workbench Ex.oneLine (MkPosition 0 0) None))
         Ex.oneLine).
Proof.
  apply (status_bar_shows_the_inserted_path_iff_plain
           (Ex.workbench Ex.oneLine (MkPosition 0 0) None)
           (MkTextEditor Ex.oneLine [MkSelection (MkPosition 0 0) (MkPosition 0 0)])
           (MkStatusBarItem AlignLeft 98 (Some (js "relpath.insertAtCursor"))
              [] None false)).
  reflexivity.
Defined.
